(** * The agent orchestration loop of [server/resources/engine.ts]

  A shallow embedding of class [engine] (method [run] and its private
  helpers), of the four calendar operations of [GoogleCalendarService]
  that [run] dispatches to, of the search for free slots inside
  [findAvailableSlots], and of the way the routes call the engine and
  read its result, followed by the properties of the orchestration loop
  and of its callers and callees.

  JavaScript strings are sequences of UTF-16 code units; a code unit is
  an [N].  Everything the engine does not compute itself (the wall clock,
  the completion service, the calendar client) is an oracle over an
  abstract world [W], threaded through [run] by explicit state passing. *)

From Stdlib Require Import NArith ZArith String Ascii List Lia.
From Stdlib Require DecimalZ.
From stdpp Require Import base option list numbers sorting.

Set Warnings "-register-all".

Open Scope N_scope.
Open Scope nat_scope.
Open Scope list_scope.

(** ** JavaScript strings *)

Module JS.

Definition jstr : Type := list N.

(** An ASCII literal of the source, as code units. *)
Definition js (s : string) : jstr :=
  (fun a : ascii => N_of_ascii a) <$> list_ascii_of_string s.

(** An ASCII literal in which every apostrophe stands for a double
    quote (code unit 34), for writing JSON texts. *)
Definition jq (s : string) : jstr :=
  (fun a : ascii => let c := N_of_ascii a in if N.eqb c 39 then 34%N else c)
    <$> list_ascii_of_string s.

(** U+274C, the cross mark the calendar operations put in front of a
    failure; U+2705, the check mark in front of a success. *)
Definition CROSS_MARK : N := 0x274C%N.
Definition CHECK_MARK : N := 0x2705%N.

(** ToBoolean of [string | null | undefined]: the empty string, [null]
    and [undefined] are falsy. *)
Definition truthy (v : option jstr) : bool :=
  match v with
  | Some (_ :: _) => true
  | _ => false
  end.

(** [a || b]. *)
Definition or_else (a b : option jstr) : option jstr :=
  if truthy a then a else b.

(** [s.startsWith(p)], returning what follows the prefix. *)
Fixpoint strip_prefix (p s : jstr) : option jstr :=
  match p, s with
  | [], _ => Some s
  | c :: p', x :: s' => if N.eqb x c then strip_prefix p' s' else None
  | _ :: _, [] => None
  end.

(** The class [\s] of a regular expression: WhiteSpace and
    LineTerminator code units. *)
Definition is_space (c : N) : bool :=
  (N.leb 0x09 c && N.leb c 0x0D)
  || N.eqb c 0x20 || N.eqb c 0xA0 || N.eqb c 0x1680
  || (N.leb 0x2000 c && N.leb c 0x200A)
  || N.eqb c 0x2028 || N.eqb c 0x2029 || N.eqb c 0x202F
  || N.eqb c 0x205F || N.eqb c 0x3000 || N.eqb c 0xFEFF.

Fixpoint drop_spaces (s : jstr) : jstr :=
  match s with
  | c :: s' => if is_space c then drop_spaces s' else s
  | [] => []
  end.

End JS.
Import JS.

(** ** The regular expression built by [replaceVariable] *)

Module Pattern.

(** The patterns [new RegExp(`\\$${variable}`, 'g')] can denote when
    [variable] holds no quantifier, class, group or alternation: a
    sequence of literal code units and end-of-input assertions. *)
Inductive atom : Type :=
| Lit (c : N)
| EndOfInput.

Definition DOLLAR : N := 36%N.
Definition BACKSLASH : N := 92%N.

(** SyntaxCharacter of the pattern grammar:  ^ $ \ . * + ? ( ) [ ] { } | *)
Definition is_syntax_char (c : N) : bool :=
  existsb (N.eqb c) [94; 36; 92; 46; 42; 43; 63; 40; 41; 91; 93; 123; 125; 124]%N.

(** Reading a pattern source.  [\$] is the literal dollar, a bare [$] is
    the end-of-input assertion (no [m] flag is given), any code unit
    that is not a syntax character stands for itself.  Other syntax is
    outside the fragment: [None]. *)
Fixpoint compile (src : jstr) : option (list atom) :=
  match src with
  | [] => Some []
  | c :: rest =>
      if N.eqb c BACKSLASH then
        match rest with
        | d :: rest' =>
            if N.eqb d DOLLAR then cons (Lit DOLLAR) <$> compile rest'
            else None
        | [] => None
        end
      else if N.eqb c DOLLAR then cons EndOfInput <$> compile rest
      else if is_syntax_char c then None
      else cons (Lit c) <$> compile rest
  end.

(** Matching at the current position; the number of code units
    consumed.  There is no choice point in this fragment. *)
Fixpoint match_here (p : list atom) (s : jstr) : option nat :=
  match p with
  | [] => Some 0
  | Lit c :: p' =>
      match s with
      | x :: s' => if N.eqb x c then S <$> match_here p' s' else None
      | [] => None
      end
  | EndOfInput :: p' =>
      match s with
      | [] => match_here p' []
      | _ :: _ => None
      end
  end.

(** [text.replace(re, () => rep)] for a global [re]: every match, left
    to right, is replaced; after an empty match the scan advances by
    one code unit; [skip] counts the code units of the current match
    still to be dropped. *)
Fixpoint replace_global (p : list atom) (rep : jstr) (skip : nat) (s : jstr) : jstr :=
  match s with
  | [] =>
      match skip, match_here p [] with
      | 0, Some _ => rep
      | _, _ => []
      end
  | x :: s' =>
      match skip with
      | S k => replace_global p rep k s'
      | 0 =>
          match match_here p s with
          | Some 0 => rep ++ x :: replace_global p rep 0 s'
          | Some (S n) => rep ++ replace_global p rep n s'
          | None => x :: replace_global p rep 0 s'
          end
      end
  end.

End Pattern.

(** ** The inline file marker *)

Module Marker.

Definition RBRACKET : N := 93%N.

(** [[^\]]+] is greedy and nothing it could give back is a [']'], so it
    takes the longest run of code units other than [']']. *)
Fixpoint span_id (s : jstr) : jstr * jstr :=
  match s with
  | c :: s' =>
      if N.eqb c RBRACKET then ([], s)
      else let '(a, b) := span_id s' in (c :: a, b)
  | [] => ([], [])
  end.

(** [/\[File attached: ([^\]]+)\]/] at the current position: the
    captured group and what follows the closing bracket. *)
Definition marker_here (s : jstr) : option (jstr * jstr) :=
  match strip_prefix (js "[File attached: ") s with
  | Some rest =>
      match span_id rest with
      | ((_ :: _) as captured, _ :: after) => Some (captured, after)
      | _ => None
      end
  | None => None
  end.

(** The leftmost match: the text before it, the captured group and the
    text after it. *)
Fixpoint find_marker (s : jstr) : option (jstr * jstr * jstr) :=
  match marker_here s with
  | Some (captured, after) => Some ([], captured, after)
  | None =>
      match s with
      | c :: s' =>
          match find_marker s' with
          | Some (before, captured, after) => Some (c :: before, captured, after)
          | None => None
          end
      | [] => None
      end
  end.

(** [content.match(/\[File attached: ([^\]]+)\]/)], then [match[1]] or
    [null]. *)
Definition extractFileIdFromContent (content : jstr) : option jstr :=
  match find_marker content with
  | Some (_, captured, _) => Some captured
  | None => None
  end.

(** [userInput.replace(/\[File attached: [^\]]+\]\s*/, '')]: the regular
    expression is not global, so only the leftmost marker goes, with the
    white space after it. *)
Definition remove_marker (userInput : jstr) : jstr :=
  match find_marker userInput with
  | Some (before, _, after) => before ++ drop_spaces after
  | None => userInput
  end.

End Marker.

(** ** [JSON.parse] *)

Module Json.

Inductive value : Type :=
| Null
| Bool (b : bool)
| Number (lexeme : jstr)
| String (s : jstr)
| Array (elements : list value)
| Object (members : list (jstr * value)).

(** JSON white space: space, tab, line feed, carriage return. *)
Definition is_ws (c : N) : bool :=
  N.eqb c 0x20 || N.eqb c 0x09 || N.eqb c 0x0A || N.eqb c 0x0D.

Fixpoint skip_ws (s : jstr) : jstr :=
  match s with
  | c :: s' => if is_ws c then skip_ws s' else s
  | [] => []
  end.

Definition is_digit (c : N) : bool := N.leb 48 c && N.leb c 57.

Fixpoint span_digits (s : jstr) : jstr * jstr :=
  match s with
  | c :: s' =>
      if is_digit c then let '(a, b) := span_digits s' in (c :: a, b)
      else ([], s)
  | [] => ([], [])
  end.

Definition hex_digit (c : N) : option N :=
  if is_digit c then Some (c - 48)%N
  else if N.leb 97 c && N.leb c 102 then Some (c - 87)%N
  else if N.leb 65 c && N.leb c 70 then Some (c - 55)%N
  else None.

Definition hex4 (a b c d : N) : option N :=
  match hex_digit a, hex_digit b, hex_digit c, hex_digit d with
  | Some x, Some y, Some z, Some t => Some (((x * 16 + y) * 16 + z) * 16 + t)%N
  | _, _, _, _ => None
  end.

(** The single-character escapes: quote, backslash, slash, b, f, n, r
    and t after a backslash. *)
Definition simple_escape (c : N) : option N :=
  if N.eqb c 34 then Some 34%N
  else if N.eqb c 92 then Some 92%N
  else if N.eqb c 47 then Some 47%N
  else if N.eqb c 98 then Some 8%N
  else if N.eqb c 102 then Some 12%N
  else if N.eqb c 110 then Some 10%N
  else if N.eqb c 114 then Some 13%N
  else if N.eqb c 116 then Some 9%N
  else None.

(** The characters of a string after its opening quote, up to and
    including the closing quote. *)
Fixpoint parse_chars (s : jstr) : option (jstr * jstr) :=
  match s with
  | [] => None
  | c :: s' =>
      if N.eqb c 34 then Some ([], s')
      else if N.eqb c 92 then
        match s' with
        | e :: s'' =>
            if N.eqb e 117 then
              match s'' with
              | h1 :: h2 :: h3 :: h4 :: s3 =>
                  match hex4 h1 h2 h3 h4, parse_chars s3 with
                  | Some u, Some (str, rest) => Some (u :: str, rest)
                  | _, _ => None
                  end
              | _ => None
              end
            else
              match simple_escape e, parse_chars s'' with
              | Some u, Some (str, rest) => Some (u :: str, rest)
              | _, _ => None
              end
        | [] => None
        end
      else if N.ltb c 0x20 then None
      else
        match parse_chars s' with
        | Some (str, rest) => Some (c :: str, rest)
        | None => None
        end
  end.

(** Digits that must not be empty. *)
Definition digits1 (s : jstr) : option (jstr * jstr) :=
  match span_digits s with
  | ((_ :: _) as ds, rest) => Some (ds, rest)
  | _ => None
  end.

(** A number: the text it spans (its value is a double and is not
    computed here) and the rest. *)
Definition parse_number (s : jstr) : option (jstr * jstr) :=
  let '(sign, s1) :=
    match s with
    | c :: t => if N.eqb c 45 then ([c], t) else ([], s)
    | [] => ([], s)
    end in
  let int_part :=
    match s1 with
    | c :: t => if N.eqb c 48 then Some ([c], t) else digits1 s1
    | [] => None
    end in
  match int_part with
  | None => None
  | Some (ip, s2) =>
      let frac_part :=
        match s2 with
        | c :: t =>
            if N.eqb c 46 then
              match digits1 t with
              | Some (ds, r) => Some (c :: ds, r)
              | None => None
              end
            else Some ([], s2)
        | [] => Some ([], s2)
        end in
      match frac_part with
      | None => None
      | Some (fp, s3) =>
          let exp_part :=
            match s3 with
            | c :: t =>
                if N.eqb c 101 || N.eqb c 69 then
                  let '(sg, t') :=
                    match t with
                    | d :: u => if N.eqb d 43 || N.eqb d 45 then ([d], u) else ([], t)
                    | [] => ([], t)
                    end in
                  match digits1 t' with
                  | Some (ds, r) => Some (c :: sg ++ ds, r)
                  | None => None
                  end
                else Some ([], s3)
            | [] => Some ([], s3)
            end in
          match exp_part with
          | None => None
          | Some (ep, s4) => Some (sign ++ ip ++ fp ++ ep, s4)
          end
      end
  end.

Definition literal (word : string) (v : value) (s : jstr) : option (value * jstr) :=
  match strip_prefix (js word) s with
  | Some rest => Some (v, rest)
  | None => None
  end.

(** A value at the head of [s] (white space already skipped), given the
    parsers of what follows an opening bracket and an opening brace. *)
Definition value_step
    (elements : jstr -> option (list value * jstr))
    (members : jstr -> option (list (jstr * value) * jstr))
    (s : jstr) : option (value * jstr) :=
  match s with
  | [] => None
  | c :: t =>
      if N.eqb c 110 then literal "null" Null s
      else if N.eqb c 116 then literal "true" (Bool true) s
      else if N.eqb c 102 then literal "false" (Bool false) s
      else if N.eqb c 34 then
        match parse_chars t with
        | Some (str, rest) => Some (String str, rest)
        | None => None
        end
      else if N.eqb c 91 then
        match skip_ws t with
        | d :: rest =>
            if N.eqb d 93 then Some (Array [], rest)
            else
              match elements (skip_ws t) with
              | Some (vs, rest') => Some (Array vs, rest')
              | None => None
              end
        | [] => None
        end
      else if N.eqb c 123 then
        match skip_ws t with
        | d :: rest =>
            if N.eqb d 125 then Some (Object [], rest)
            else
              match members (skip_ws t) with
              | Some (ms, rest') => Some (Object ms, rest')
              | None => None
              end
        | [] => None
        end
      else
        match parse_number s with
        | Some (lexeme, rest) => Some (Number lexeme, rest)
        | None => None
        end
  end.

(** The elements of an array, from the first one to the closing
    bracket. *)
Definition elements_step
    (value_at : jstr -> option (value * jstr))
    (elements : jstr -> option (list value * jstr))
    (s : jstr) : option (list value * jstr) :=
  match value_at s with
  | Some (v, rest) =>
      match skip_ws rest with
      | c :: rest' =>
          if N.eqb c 93 then Some ([v], rest')
          else if N.eqb c 44 then
            match elements (skip_ws rest') with
            | Some (vs, rest'') => Some (v :: vs, rest'')
            | None => None
            end
          else None
      | [] => None
      end
  | None => None
  end.

(** The members of an object, from the first key to the closing
    brace. *)
Definition members_step
    (value_at : jstr -> option (value * jstr))
    (members : jstr -> option (list (jstr * value) * jstr))
    (s : jstr) : option (list (jstr * value) * jstr) :=
  match s with
  | q :: t =>
      if N.eqb q 34 then
        match parse_chars t with
        | Some (key, rest) =>
            match skip_ws rest with
            | c :: rest1 =>
                if N.eqb c 58 then
                  match value_at (skip_ws rest1) with
                  | Some (v, rest2) =>
                      match skip_ws rest2 with
                      | d :: rest3 =>
                          if N.eqb d 125 then Some ([(key, v)], rest3)
                          else if N.eqb d 44 then
                            match members (skip_ws rest3) with
                            | Some (ms, rest4) => Some ((key, v) :: ms, rest4)
                            | None => None
                            end
                          else None
                      | [] => None
                      end
                  | None => None
                  end
                else None
            | [] => None
            end
        | None => None
        end
      else None
  | [] => None
  end.

(** The three parsers, tied together by recursion on [fuel], which
    bounds the nesting and the number of elements. *)
Fixpoint parse_value (fuel : nat) (s : jstr) {struct fuel} : option (value * jstr) :=
  match fuel with
  | 0 => None
  | S fuel' => value_step (parse_elements fuel') (parse_members fuel') s
  end
with parse_elements (fuel : nat) (s : jstr) {struct fuel} : option (list value * jstr) :=
  match fuel with
  | 0 => None
  | S fuel' => elements_step (parse_value fuel') (parse_elements fuel') s
  end
with parse_members (fuel : nat) (s : jstr) {struct fuel}
    : option (list (jstr * value) * jstr) :=
  match fuel with
  | 0 => None
  | S fuel' => members_step (parse_value fuel') (parse_members fuel') s
  end.

(** [JSON.parse(text)]; [None] is the SyntaxError.  The fuel is more
    than any text needs (see [parse_fuel_enough]). *)
Definition parse (text : jstr) : option value :=
  match parse_value (2 * length text + 2) (skip_ws text) with
  | Some (v, rest) =>
      match skip_ws rest with
      | [] => Some v
      | _ :: _ => None
      end
  | None => None
  end.

(** The rest a parser leaves is no longer than its input. *)
Definition shrinks {A : Type} (p : jstr -> option (A * jstr)) : Prop :=
  forall s a rest, p s = Some (a, rest) -> length rest <= length s.

Definition jstr_eqb (a b : jstr) : bool := bool_decide (a = b).

(** The last member under [key]: a later duplicate overwrites an
    earlier one. *)
Fixpoint lookup_member (key : jstr) (ms : list (jstr * value)) : option value :=
  match ms with
  | [] => None
  | (k, v) :: ms' =>
      match lookup_member key ms' with
      | Some v' => Some v'
      | None => if jstr_eqb k key then Some v else None
      end
  end.

(** [args.key] for a parsed value other than [null]; [None] is
    [undefined].  None of the keys the engine reads is a property of a
    primitive wrapper or of an array. *)
Definition get (args : value) (key : string) : option value :=
  match args with
  | Object ms => lookup_member (js key) ms
  | _ => None
  end.

Fixpoint join_comma (l : list jstr) : jstr :=
  match l with
  | [] => []
  | [a] => a
  | a :: l' => a ++ 44%N :: join_comma l'
  end.

(** ToString of a parsed value, as a template literal applies it;
    [None] when it throws a TypeError.  The digits of a number come from
    [number_to_string], which stands for Number::toString on the double
    the lexeme denotes.  An object is converted by the method found
    under [toString]: with no own key [toString] that is
    Object.prototype.toString; an own key [toString] holds a parsed
    value, which is not callable, and then no method gives a primitive
    (an own [valueOf] is not callable either, and Object.prototype.valueOf
    returns the object).  An array is joined with commas, [null]
    elements giving the empty string, and throws when an element
    does. *)
Fixpoint to_string (number_to_string : jstr -> jstr) (v : value) : option jstr :=
  match v with
  | Null => Some (js "null")
  | Bool true => Some (js "true")
  | Bool false => Some (js "false")
  | Number lexeme => Some (number_to_string lexeme)
  | String s => Some s
  | Array l =>
      join_comma
        <$> (fix elements (l : list value) : option (list jstr) :=
               match l with
               | [] => Some []
               | x :: l' =>
                   match (match x with
                          | Null => Some []
                          | _ => to_string number_to_string x
                          end) with
                   | Some text =>
                       match elements l' with
                       | Some texts => Some (text :: texts)
                       | None => None
                       end
                   | None => None
                   end
               end) l
  | Object ms =>
      match lookup_member (js "toString") ms with
      | Some _ => None
      | None => Some (js "[object Object]")
      end
  end.

(** ToString of [value | undefined]. *)
Definition display (number_to_string : jstr -> jstr) (v : option value) : option jstr :=
  match v with
  | Some x => to_string number_to_string x
  | None => Some (js "undefined")
  end.

End Json.


(** ** Thrown values, outcomes of awaited calls *)

Module Exn.

(** What a [catch (error)] clause can receive: an instance of [Error]
    with its message, or any other value. *)
Inductive thrown : Type :=
| ErrorObject (message : jstr)
| NonError.

(** An awaited call resolves or rejects. *)
Inductive outcome (A : Type) : Type :=
| Returned (a : A)
| Threw (e : thrown).

Arguments Returned {A} a.
Arguments Threw {A} e.

(** [error instanceof Error ? error.message : 'Unknown error'] *)
Definition error_text (e : thrown) : jstr :=
  match e with
  | ErrorObject message => message
  | NonError => js "Unknown error"
  end.

End Exn.
Import Exn.

(** ** [GoogleCalendarService]: the operations the engine dispatches to *)

Module Calendar.

(** The object literals the engine passes; a field is [args.field],
    [None] when it is [undefined]. *)
Record schedule_params : Type := {
  title : option Json.value;
  description : option Json.value;
  startDateTime : option Json.value;
  endDateTime : option Json.value;
  attendeeEmails : option Json.value;
  location : option Json.value
}.

Record events_params : Type := {
  maxResults : option Json.value;
  timeMin : option Json.value;
  timeMax : option Json.value
}.

Record slots_params : Type := {
  date : option Json.value;
  duration : option Json.value;
  workingHoursStart : option Json.value;
  workingHoursEnd : option Json.value
}.

Record cancel_params : Type := {
  eventId : option Json.value;
  sendUpdates : option Json.value
}.

(** The calendar client, as seen from inside the [try] blocks.  For
    [scheduleMeeting], [getUpcomingEvents] and [findAvailableSlots] the
    oracle is the whole [try] body: the request, the client's answer
    and the text rendered from it (dates in a locale), or whatever is
    thrown on the way.  For [cancelMeeting] it is the call
    [calendar.events.delete], given the parameters of the operation from
    which the request is built. *)
Record client (W : Type) : Type := {
  schedule_try : schedule_params -> W -> outcome jstr * W;
  upcoming_try : events_params -> W -> outcome jstr * W;
  slots_try : slots_params -> W -> outcome jstr * W;
  events_delete : cancel_params -> W -> outcome unit * W
}.

Arguments schedule_try {W} _ _ _.
Arguments upcoming_try {W} _ _ _.
Arguments slots_try {W} _ _ _.
Arguments events_delete {W} _ _ _.

Section Operations.
Context {W : Type} (C : client W).
Variable number_to_string : jstr -> jstr.

(** The message of the TypeError thrown when an object cannot be
    converted to a primitive value; the wording is the platform's. *)
Variable conversion_error_message : jstr.

Definition scheduleMeeting (params : schedule_params) (w : W) : jstr * W :=
  match schedule_try C params w with
  | (Returned text, w') => (text, w')
  | (Threw error, w') =>
      (CROSS_MARK :: js " Error scheduling meeting: " ++ error_text error, w')
  end.

Definition getUpcomingEvents (params : events_params) (w : W) : jstr * W :=
  match upcoming_try C params w with
  | (Returned text, w') => (text, w')
  | (Threw error, w') =>
      (CROSS_MARK :: js " Error getting events: " ++ error_text error, w')
  end.

Definition findAvailableSlots (params : slots_params) (w : W) : jstr * W :=
  match slots_try C params w with
  | (Returned text, w') => (text, w')
  | (Threw error, w') =>
      (CROSS_MARK :: js " Error finding available slots: " ++ error_text error, w')
  end.

(** The template literal of the success text is inside the [try]: when
    [eventId] cannot be converted to a string, the TypeError is caught
    like an error of the client. *)
Definition cancelMeeting (params : cancel_params) (w : W) : jstr * W :=
  match events_delete C params w with
  | (Returned _, w') =>
      match Json.display number_to_string (eventId params) with
      | Some text =>
          (CHECK_MARK :: js " Meeting cancelled successfully! Event ID: " ++ text, w')
      | None =>
          (CROSS_MARK :: js " Error cancelling meeting: "
             ++ error_text (ErrorObject conversion_error_message), w')
      end
  | (Threw error, w') =>
      (CROSS_MARK :: js " Error cancelling meeting: " ++ error_text error, w')
  end.

End Operations.

End Calendar.

(** ** Class [engine] *)

Module Engine.

Definition MAX_AGENT_LOOP : nat := 3.

(** *** The conversation array *)

(** A part of an array-shaped [content]. *)
Inductive part : Type :=
| InputFile (file_id : jstr)
| InputText (text : jstr)
| OtherPart (type : jstr).

(** [content] is a string, an array of parts, or anything else. *)
Inductive content : Type :=
| Text (s : jstr)
| Parts (ps : list part)
| Other.

(** An element of [input]: a message with a [role], or one of the two
    entries pushed for a tool call, which have a [type] and no
    [role]. *)
Inductive item : Type :=
| Message (role : jstr) (c : content)
| FunctionCall (call_id name arguments : jstr)
| FunctionCallOutput (call_id output : jstr).

#[global] Instance part_eq_dec : EqDecision part.
Proof. solve_decision. Defined.
#[global] Instance content_eq_dec : EqDecision content.
Proof. solve_decision. Defined.
#[global] Instance item_eq_dec : EqDecision item.
Proof. solve_decision. Defined.

(** [msg.role]; [None] is [undefined]. *)
Definition role_of (msg : item) : option jstr :=
  match msg with
  | Message role _ => Some role
  | _ => None
  end.

Definition has_role (role : string) (msg : item) : Prop :=
  role_of msg = Some (js role).

#[global] Instance has_role_dec role msg : Decision (has_role role msg).
Proof. unfold has_role. apply _. Defined.

(** [msg.content = c] *)
Definition set_content (c : content) (msg : item) : item :=
  match msg with
  | Message role _ => Message role c
  | other => other
  end.

Definition content_of (msg : item) : option content :=
  match msg with
  | Message _ c => Some c
  | _ => None
  end.

(** [l.findIndex(P)] and [l.findLastIndex(P)]; [None] is [-1]. *)
Fixpoint findIndex {A : Type} (P : A -> Prop) `{forall x, Decision (P x)}
    (l : list A) : option nat :=
  match l with
  | [] => None
  | x :: l' => if decide (P x) then Some 0 else S <$> findIndex P l'
  end.

Fixpoint findLastIndex {A : Type} (P : A -> Prop) `{forall x, Decision (P x)}
    (l : list A) : option nat :=
  match l with
  | [] => None
  | x :: l' =>
      match findLastIndex P l' with
      | Some i => Some (S i)
      | None => if decide (P x) then Some 0 else None
      end
  end.

Definition is_input_text (c : part) : Prop :=
  match c with
  | InputText _ => True
  | _ => False
  end.

#[global] Instance is_input_text_dec c : Decision (is_input_text c).
Proof. destruct c; simpl; apply _. Defined.

(** [c.text = userInput] *)
Definition set_text (userInput : jstr) (c : part) : part :=
  match c with
  | InputText _ => InputText userInput
  | other => other
  end.

(** *** The prompt *)

(** [text.replace(new RegExp(`\\$${variable}`, 'g'), () => dynamicValue || '')];
    [None] when the pattern is outside the fragment of [Pattern]. *)
Definition replaceVariable (text variable dynamicValue : jstr) : option jstr :=
  match Pattern.compile (Pattern.BACKSLASH :: Pattern.DOLLAR :: variable) with
  | Some re =>
      Some (Pattern.replace_global re
              (match dynamicValue with [] => [] | _ :: _ => dynamicValue end)
              0 text)
  | None => None
  end.

(** [this.replaceVariable(rawPrompt, '$dateTime', dateTimeInfo)]; the
    pattern of ['$dateTime'] is inside the fragment. *)
Definition finalPrompt (rawPrompt dateTimeInfo : jstr) : jstr :=
  default rawPrompt (replaceVariable rawPrompt (js "$dateTime") dateTimeInfo).

(** Following the words of the specification (section 4.4), not the
    code: the template with every occurrence of [placeholder] replaced,
    left to right, by [rep].  [skip] counts the code units of the
    current occurrence still to be dropped. *)
Fixpoint substitute_spec (placeholder rep : jstr) (skip : nat) (template : jstr) : jstr :=
  match template with
  | [] => []
  | x :: rest =>
      match skip with
      | S k => substitute_spec placeholder rep k rest
      | 0 =>
          match strip_prefix placeholder template with
          | Some _ => rep ++ substitute_spec placeholder rep (length placeholder - 1) rest
          | None => x :: substitute_spec placeholder rep 0 rest
          end
      end
  end.

Definition resolve_spec (template nowInfo : jstr) : jstr :=
  substitute_spec (js "$dateTime") nowInfo 0 template.

(** *** Reconciling the conversation with the user turn *)

Definition file_and_text (file_id text : jstr) : content :=
  Parts [InputFile file_id; InputText text].

Definition extractedFileId (userInput : jstr) : option jstr :=
  Marker.extractFileIdFromContent userInput.

(** [fileId || extractedFileId] *)
Definition actualFileId (fileId : option jstr) (userInput : jstr) : option jstr :=
  or_else fileId (extractedFileId userInput).

(** [extractedFileId ? userInput.replace(...) : userInput] *)
Definition cleanUserInput (userInput : jstr) : jstr :=
  if truthy (extractedFileId userInput) then Marker.remove_marker userInput
  else userInput.

(** The user message of a new conversation. *)
Definition first_user_message (userInput : jstr) (fileId : option jstr) : item :=
  match actualFileId fileId userInput with
  | Some ((_ :: _) as id) =>
      Message (js "user") (file_and_text id (cleanUserInput userInput))
  | _ => Message (js "user") (Text userInput)
  end.

(** The update of an array-shaped content when there is no file id: the
    text of its first [input_text] part is overwritten, or a text part is
    pushed when it has none. *)
Definition updated_parts (userInput : jstr) (ps : list part) : list part :=
  match findIndex is_input_text ps with
  | Some textIndex => alter (set_text userInput) textIndex ps
  | None => ps ++ [InputText userInput]
  end.

(** The update of the content of the last user message. *)
Definition updated_content (userInput : jstr) (fileId : option jstr)
    (old : content) : content :=
  match actualFileId fileId userInput with
  | Some ((_ :: _) as id) => file_and_text id (cleanUserInput userInput)
  | _ =>
      match old with
      | Text _ => Text userInput
      | Parts ps => Parts (updated_parts userInput ps)
      | Other => Text userInput
      end
  end.

Definition update_message (userInput : jstr) (fileId : option jstr)
    (msg : item) : item :=
  match msg with
  | Message role old => Message role (updated_content userInput fileId old)
  | other => other
  end.

(** The user message pushed when the conversation has none. *)
Definition pushed_user_message (userInput : jstr) (fileId : option jstr) : item :=
  match fileId with
  | Some ((_ :: _) as id) => Message (js "user") (file_and_text id userInput)
  | _ => Message (js "user") (Text userInput)
  end.

(** The statement [if (input.length === 0) { ... } else { ... }] at the
    head of the loop body; the value is the new [input]. *)
Definition reconcile (prompt userInput : jstr) (fileId : option jstr)
    (input : list item) : list item :=
  match input with
  | [] => [Message (js "system") (Text prompt); first_user_message userInput fileId]
  | _ :: _ =>
      let input :=
        Message (js "system") (Text prompt)
          :: filter (fun msg => ~ has_role "system" msg) input in
      match findLastIndex (has_role "user") input with
      | Some lastUserMsgIndex =>
          alter (update_message userInput fileId) lastUserMsgIndex input
      | None => input ++ [pushed_user_message userInput fileId]
      end
  end.

(** The content of the last message with role [user]. *)
Definition current_user_content (input : list item) : option content :=
  match findLastIndex (has_role "user") input with
  | Some i => input !! i ≫= content_of
  | None => None
  end.

(** *** The completion service and its output *)

Inductive output_part : Type :=
| OutputText (text : jstr)
| OtherOutputPart (type : jstr).

Inductive output : Type :=
| OutMessage (parts : list output_part)
| OutReasoning
| OutFunctionCall (call_id name arguments : jstr)
| OutOther (type : jstr).

Definition is_function_call (o : output) : Prop :=
  match o with
  | OutFunctionCall _ _ _ => True
  | _ => False
  end.

#[global] Instance is_function_call_dec o : Decision (is_function_call o).
Proof. destruct o; simpl; apply _. Defined.

(** The entry pushed for a function call of the response. *)
Definition invocation (fc : output) : item :=
  match fc with
  | OutFunctionCall call_id name arguments => FunctionCall call_id name arguments
  | _ => FunctionCall [] [] []
  end.

(** What the engine awaits from outside: the wall clock as
    [getSaoPauloTodayInfo] renders it, [openai.responses.create], the
    calendar client, Number::toString, and the message the platform
    gives the TypeError of a failed conversion to a primitive value. *)
Record env (W : Type) : Type := {
  getSaoPauloTodayInfo : W -> jstr;
  responses_create : list item -> W -> outcome (list output) * W;
  calendar : Calendar.client W;
  number_to_string : jstr -> jstr;
  conversion_error_message : jstr
}.

Arguments getSaoPauloTodayInfo {W} _ _.
Arguments responses_create {W} _ _ _.
Arguments calendar {W} _.
Arguments number_to_string {W} _ _.
Arguments conversion_error_message {W} _.

(** *** Effects of [run] *)

(** What makes a call of [run] reject. *)
Inductive error : Type :=
| SyntaxError
| TypeError
| Rejected (e : thrown).

(** The observable steps of the loop body after reconciliation, in the
    order they happen. *)
Inductive event : Type :=
| Completion (request : list item) (reply : outcome (list output))
| Push (entry : item)
| Exec (call_id name arguments : jstr).

Record result (W A : Type) : Type := Result {
  trace : list event;
  world : W;
  value : error + A
}.

Arguments Result {W A} _ _ _.
Arguments trace {W A} _.
Arguments world {W A} _.
Arguments value {W A} _.

Definition M (W A : Type) : Type := W -> result W A.

Definition ret {W A} (a : A) : M W A := fun w => Result [] w (inr a).

Definition raise {W A} (e : error) : M W A := fun w => Result [] w (inl e).

Definition emit {W} (ev : event) : M W unit := fun w => Result [ev] w (inr tt).

Definition bind {W A B} (m : M W A) (k : A -> M W B) : M W B :=
  fun w =>
    let r := m w in
    match value r with
    | inl e => Result (trace r) (world r) (inl e)
    | inr a =>
        let r' := k a (world r) in
        Result (trace r ++ trace r') (world r') (value r')
    end.

(** A call that cannot throw. *)
Definition call {W A} (f : W -> A * W) : M W A :=
  fun w => let '(a, w') := f w in Result [] w' (inr a).

Notation "'let*' x ':=' m 'in' k" := (bind m (fun x => k))
  (at level 10, x name, m at level 100, k at level 200).
Notation "'let*' ' p ':=' m 'in' k" := (bind m (fun p => k))
  (at level 10, p strict pattern, m at level 100, k at level 200).

(** [input.push(entry)] *)
Definition push {W} (entry : item) (input : list item) : M W (list item) :=
  let* _ := emit (Push entry) in ret (input ++ [entry]).

Fixpoint push_all {W} (entries : list item) (input : list item) : M W (list item) :=
  match entries with
  | [] => ret input
  | entry :: rest => let* input := push entry input in push_all rest input
  end.

(** [await openai.responses.create({..., input})] *)
Definition create {W} (E : env W) (input : list item) : M W (list output) :=
  fun w =>
    let '(reply, w') := responses_create E input w in
    Result [Completion input reply] w'
      (match reply with
       | Returned response => inr response
       | Threw e => inl (Rejected e)
       end).

(** *** Tool dispatch *)

Inductive tool : Type :=
| get_portfolio_info
| schedule_meeting
| get_upcoming_events
| find_available_slots
| cancel_meeting.

(** The names the [switch] has a [case] for. *)
Definition registry : list jstr :=
  [js "get_portfolio_info"; js "schedule_meeting"; js "get_upcoming_events";
   js "find_available_slots"; js "cancel_meeting"].

(** The [case] labels of [switch (output.name)]. *)
Definition tool_of_name (name : jstr) : option tool :=
  if Json.jstr_eqb name (js "get_portfolio_info") then Some get_portfolio_info
  else if Json.jstr_eqb name (js "schedule_meeting") then Some schedule_meeting
  else if Json.jstr_eqb name (js "get_upcoming_events") then Some get_upcoming_events
  else if Json.jstr_eqb name (js "find_available_slots") then Some find_available_slots
  else if Json.jstr_eqb name (js "cancel_meeting") then Some cancel_meeting
  else None.

(** [args.key] where [args] is the value of [JSON.parse]: reading a
    property of [null] throws a TypeError. *)
Definition read {W} (args : Json.value) (key : string) : M W (option Json.value) :=
  match args with
  | Json.Null => raise TypeError
  | _ => ret (Json.get args key)
  end.

(** [`Portfolio: ${portfolio}`]: the promise rejects with a TypeError
    when [portfolio] cannot be converted to a string. *)
Definition getPortfolioInfo {W} (E : env W) (portfolio : option Json.value) : M W jstr :=
  match Json.display (number_to_string E) portfolio with
  | Some text => ret (js "Portfolio: " ++ text)
  | None => raise TypeError
  end.

(** The object literals built from [args] for the calendar service. *)
Definition schedule_params_of (args : Json.value) : Calendar.schedule_params :=
  {| Calendar.title := Json.get args "title";
     Calendar.description := Json.get args "description";
     Calendar.startDateTime := Json.get args "startDateTime";
     Calendar.endDateTime := Json.get args "endDateTime";
     Calendar.attendeeEmails := Json.get args "attendeeEmails";
     Calendar.location := Json.get args "location" |}.

Definition events_params_of (args : Json.value) : Calendar.events_params :=
  {| Calendar.maxResults := Json.get args "maxResults";
     Calendar.timeMin := Json.get args "timeMin";
     Calendar.timeMax := Json.get args "timeMax" |}.

Definition slots_params_of (args : Json.value) : Calendar.slots_params :=
  {| Calendar.date := Json.get args "date";
     Calendar.duration := Json.get args "duration";
     Calendar.workingHoursStart := Json.get args "workingHoursStart";
     Calendar.workingHoursEnd := Json.get args "workingHoursEnd" |}.

Definition cancel_params_of (args : Json.value) : Calendar.cancel_params :=
  {| Calendar.eventId := Json.get args "eventId";
     Calendar.sendUpdates := Json.get args "sendUpdates" |}.

(** [switch (output.name) { ... }]; the value is [toolResult].  Every
    [case] reads a field of [args] before it calls the tool, which
    throws when [args] is [null]; [getPortfolioInfo] is awaited inside
    no [try], so its rejection is thrown by the [case]. *)
Definition dispatch {W} (E : env W) (call_id name arguments : jstr)
    (args : Json.value) : M W jstr :=
  match tool_of_name name with
  | Some get_portfolio_info =>
      let* portfolio := read args "portfolio" in
      let* _ := emit (Exec call_id name arguments) in
      getPortfolioInfo E portfolio
  | Some schedule_meeting =>
      let* _ := read args "title" in
      let* _ := emit (Exec call_id name arguments) in
      call (Calendar.scheduleMeeting (calendar E) (schedule_params_of args))
  | Some get_upcoming_events =>
      let* _ := read args "maxResults" in
      let* _ := emit (Exec call_id name arguments) in
      call (Calendar.getUpcomingEvents (calendar E) (events_params_of args))
  | Some find_available_slots =>
      let* _ := read args "date" in
      let* _ := emit (Exec call_id name arguments) in
      call (Calendar.findAvailableSlots (calendar E) (slots_params_of args))
  | Some cancel_meeting =>
      let* _ := read args "eventId" in
      let* _ := emit (Exec call_id name arguments) in
      call (Calendar.cancelMeeting (calendar E) (number_to_string E)
              (conversion_error_message E) (cancel_params_of args))
  | None =>
      ret (js "ERROR: tool " ++ name ++ js " not implemented.")
  end.

(** *** The loop *)

(** The body of [for (const content of output.content)]. *)
Fixpoint handle_parts {W} (parts : list output_part) (input : list item)
    (loopAgent : bool) : M W (list item * bool) :=
  match parts with
  | [] => ret (input, loopAgent)
  | OutputText text :: rest =>
      let* input := push (Message (js "assistant") (Text text)) input in
      handle_parts rest input false
  | OtherOutputPart _ :: rest => handle_parts rest input loopAgent
  end.

(** The body of [for (const output of response.output)]. *)
Definition handle_output {W} (E : env W) (o : output) (input : list item)
    (loopAgent : bool) : M W (list item * bool) :=
  match o with
  | OutMessage parts => handle_parts parts input loopAgent
  | OutReasoning => ret (input, loopAgent)
  | OutFunctionCall call_id name arguments =>
      match Json.parse arguments with
      | None => raise SyntaxError
      | Some args =>
          let* toolResult := dispatch E call_id name arguments args in
          let* input := push (FunctionCallOutput call_id toolResult) input in
          ret (input, loopAgent)
      end
  | OutOther _ => ret (input, false)
  end.

Fixpoint handle_outputs {W} (E : env W) (outputs : list output)
    (input : list item) (loopAgent : bool) : M W (list item * bool) :=
  match outputs with
  | [] => ret (input, loopAgent)
  | o :: rest =>
      let* '(input, loopAgent) := handle_output E o input loopAgent in
      handle_outputs E rest input loopAgent
  end.

(** One turn of the [while] loop, entered with [loopAgent] true. *)
Definition iteration {W} (E : env W) (rawPrompt userInput : jstr)
    (fileId : option jstr) (input : list item) : M W (list item * bool) :=
  let* dateTimeInfo := call (fun w => (getSaoPauloTodayInfo E w, w)) in
  let input := reconcile (finalPrompt rawPrompt dateTimeInfo) userInput fileId input in
  let* response := create E input in
  let functionCalls := filter is_function_call response in
  let* input := push_all (invocation <$> functionCalls) input in
  handle_outputs E response input true.

(** [while (loopAgent && loopCounter < MAX_AGENT_LOOP)], with
    [remaining = MAX_AGENT_LOOP - loopCounter]. *)
Fixpoint agent_loop {W} (E : env W) (rawPrompt userInput : jstr)
    (fileId : option jstr) (remaining : nat) (loopAgent : bool)
    (input : list item) : M W (list item) :=
  match remaining with
  | 0 => ret input
  | S remaining' =>
      if loopAgent then
        let* '(input, loopAgent) := iteration E rawPrompt userInput fileId input in
        agent_loop E rawPrompt userInput fileId remaining' loopAgent input
      else ret input
  end.

(** [run(userInput, input, fileId)]; [rawPrompt] is the text of
    [system-prompt.txt]. *)
Definition run {W} (E : env W) (rawPrompt userInput : jstr)
    (input : list item) (fileId : option jstr) : M W (list item) :=
  agent_loop E rawPrompt userInput fileId MAX_AGENT_LOOP true input.

(** *** Reading a conversation and a trace *)

(** The entries of a conversation that belong to tool calls, without the
    text of the results. *)
Inductive tool_entry : Type :=
| Invoked (call_id name arguments : jstr)
| Answered (call_id : jstr).

Definition entry_of (msg : item) : option tool_entry :=
  match msg with
  | Message _ _ => None
  | FunctionCall call_id name arguments => Some (Invoked call_id name arguments)
  | FunctionCallOutput call_id _ => Some (Answered call_id)
  end.

Definition tool_entries (input : list item) : list tool_entry :=
  omap entry_of input.

(** The invocations of the function calls of one response, in the order
    emitted. *)
Definition invoked_entries (response : list output) : list tool_entry :=
  omap (fun o => match o with
                 | OutFunctionCall call_id name arguments =>
                     Some (Invoked call_id name arguments)
                 | _ => None
                 end) response.

(** Their results, in the order emitted. *)
Definition answered_entries (response : list output) : list tool_entry :=
  omap (fun o => match o with
                 | OutFunctionCall call_id _ _ => Some (Answered call_id)
                 | _ => None
                 end) response.

(** What the function calls of one response leave in the conversation:
    their invocations, then their results. *)
Definition entries_of_response (response : list output) : list tool_entry :=
  invoked_entries response ++ answered_entries response.

(** The assistant messages pushed for the text parts of a message
    item. *)
Definition assistant_messages (parts : list output_part) : list item :=
  omap (fun c => match c with
                 | OutputText text => Some (Message (js "assistant") (Text text))
                 | OtherOutputPart _ => None
                 end) parts.

Definition is_completion (ev : event) : Prop :=
  match ev with
  | Completion _ _ => True
  | _ => False
  end.

#[global] Instance is_completion_dec ev : Decision (is_completion ev).
Proof. destruct ev; simpl; apply _. Defined.

(** The number of calls of [openai.responses.create]. *)
Definition completions (t : list event) : nat :=
  length (filter is_completion t).

(** The responses received, in order. *)
Definition responses_of (t : list event) : list (list output) :=
  omap (fun ev => match ev with
                  | Completion _ (Returned response) => Some response
                  | _ => None
                  end) t.

(** The event pushes a message with role [assistant]. *)
Definition is_assistant_push (ev : event) : Prop :=
  match ev with
  | Push msg => has_role "assistant" msg
  | _ => False
  end.

#[global] Instance is_assistant_push_dec ev : Decision (is_assistant_push ev).
Proof. destruct ev; simpl; apply _. Defined.

(** Every tool run in [t] runs after the invocation entry of its call
    was pushed. *)
Definition pushed_before_exec (t : list event) : Prop :=
  forall pre post call_id name arguments,
    t = pre ++ Exec call_id name arguments :: post ->
    Push (FunctionCall call_id name arguments) ∈ pre.

(** A function call the dispatcher can serve without throwing: its
    arguments are JSON and, for a registered tool, not [null]; and for
    [get_portfolio_info] the [portfolio] argument can be converted to a
    string. *)
Definition servable {W} (E : env W) (o : output) : Prop :=
  match o with
  | OutFunctionCall _ name arguments =>
      match Json.parse arguments with
      | Some args =>
          (tool_of_name name = None \/ args <> Json.Null)
          /\ (tool_of_name name = Some get_portfolio_info ->
              is_Some (Json.display (number_to_string E) (Json.get args "portfolio")))
      | None => False
      end
  | _ => False
  end.

(** A function call whose arguments are not JSON. *)
Definition malformed (o : output) : Prop :=
  match o with
  | OutFunctionCall _ _ arguments => Json.parse arguments = None
  | _ => False
  end.

End Engine.

(** ** Scripted environments, for running the loop on concrete inputs *)

Module Scenario.
Import Engine.

(** A calendar client whose every operation has the outcome [o]. *)
Definition fixed_client (o : outcome jstr) : Calendar.client nat :=
  {| Calendar.schedule_try := fun _ w => (o, w);
     Calendar.upcoming_try := fun _ w => (o, w);
     Calendar.slots_try := fun _ w => (o, w);
     Calendar.events_delete := fun _ w =>
       (match o with Returned _ => Returned tt | Threw e => Threw e end, w) |}.

(** The world is the number of completion calls made so far; the
    [n]-th call is answered by [replies n]. *)
Definition scripted (replies : nat -> outcome (list output))
    (o : outcome jstr) : env nat :=
  {| getSaoPauloTodayInfo := fun _ => js "Hoje, aqui em Sao Paulo.";
     responses_create := fun _ w => (replies w, S w);
     calendar := fixed_client o;
     number_to_string := fun lexeme => lexeme;
     conversion_error_message := js "Cannot convert object to primitive value" |}.

(** Replies taken from a list, then empty responses. *)
Definition from_list (l : list (list output)) (n : nat) : outcome (list output) :=
  Returned (nth n l []).

Definition always (response : list output) (n : nat) : outcome (list output) :=
  Returned response.

Definition prompt : jstr := js "You are an assistant. Now: $dateTime".

Definition greeting : item := Message (js "assistant") (Text (js "hi")).

(** A user input with an inline file marker. *)
Definition marked_input : jstr := js "[File attached: f1] hello".

Definition cancel_call : output :=
  OutFunctionCall (js "call_1") (js "cancel_meeting") (jq "{'eventId': 'evt_1'}").

(** A call of a tool the [switch] has no [case] for. *)
Definition unknown_call : output :=
  OutFunctionCall (js "call_2") (js "send_email") (jq "{'to': 'ana@example.com'}").

(** A call whose arguments are not JSON (the key has no quotes). *)
Definition broken_call : output :=
  OutFunctionCall (js "call_3") (js "get_upcoming_events") (js "{maxResults: 5}").

(** A call of a registered tool whose arguments are the JSON text
    [null]. *)
Definition null_call : output :=
  OutFunctionCall (js "call_4") (js "cancel_meeting") (js "null").

Definition upcoming_call : output :=
  OutFunctionCall (js "call_5") (js "get_upcoming_events") (jq "{'maxResults': 5}").

(** A call of a tool the [switch] has no [case] for, with arguments
    that are not JSON. *)
Definition unknown_broken_call : output :=
  OutFunctionCall (js "call_7") (js "send_email") (js "{to: 1}").

(** A call of [get_portfolio_info] whose [portfolio] is an object with
    an own key [toString]: valid JSON, not [null], and not convertible
    to a string. *)
Definition stubborn_call : output :=
  OutFunctionCall (js "call_8") (js "get_portfolio_info")
    (jq "{'portfolio': {'toString': 1}}").

Definition network_error : thrown := ErrorObject (js "network error").

Definition answer : output := OutMessage [OutputText (js "Done.")].

End Scenario.

(** ** Further readings of a run *)

Module Observe.
Import Engine.

(** The entries pushed in a trace, in order. *)
Definition pushed (t : list event) : list item :=
  omap (fun ev => match ev with
                  | Push entry => Some entry
                  | _ => None
                  end) t.

(** An output item that leaves the conversation and the loop flag as
    they are: a reasoning item, or a message without a text part. *)
Definition quiet (o : output) : Prop :=
  match o with
  | OutReasoning => True
  | OutMessage parts => assistant_messages parts = []
  | _ => False
  end.

(** An output item that clears [loopAgent]: a message with a text part,
    or an item of a type the loop does not know. *)
Definition stops (o : output) : Prop :=
  match o with
  | OutMessage parts => assistant_messages parts <> []
  | OutOther _ => True
  | _ => False
  end.

End Observe.

(** ** [findAvailableSlots]: from the events of the day to the text *)

Module Slots.

(** Number::toString of an integer that is printed digit by digit: a
    safe integer (of magnitude below 2^53, way above any number of
    minutes of a day). *)
Fixpoint digits (d : Decimal.uint) : jstr :=
  match d with
  | Decimal.Nil => []
  | Decimal.D0 d' => 48%N :: digits d'
  | Decimal.D1 d' => 49%N :: digits d'
  | Decimal.D2 d' => 50%N :: digits d'
  | Decimal.D3 d' => 51%N :: digits d'
  | Decimal.D4 d' => 52%N :: digits d'
  | Decimal.D5 d' => 53%N :: digits d'
  | Decimal.D6 d' => 54%N :: digits d'
  | Decimal.D7 d' => 55%N :: digits d'
  | Decimal.D8 d' => 56%N :: digits d'
  | Decimal.D9 d' => 57%N :: digits d'
  end.

Definition decimal (z : Z) : jstr :=
  match Z.to_int z with
  | Decimal.Pos d => digits d
  | Decimal.Neg d => 45%N :: digits d
  end.

(** [s.padStart(2, '0')] *)
Definition padStart2 (s : jstr) : jstr :=
  match s with
  | [] => [48%N; 48%N]
  | [c] => [48%N; c]
  | _ => s
  end.

(** [Math.floor(t / 60).toString().padStart(2, '0') + ':' +
    (t % 60).toString().padStart(2, '0')], for an integer number of
    minutes [t]; [%] truncates. *)
Definition clock (t : Z) : jstr :=
  padStart2 (decimal (t / 60)%Z) ++ 58%N :: padStart2 (decimal (Z.rem t 60)).

(** [`${slotStart} - ${slotEnd}`] for the slot that starts at
    [currentTime]. *)
Definition slot_text (duration currentTime : Z) : jstr :=
  clock currentTime ++ js " - " ++ clock (currentTime + duration)%Z.

(** Time values are milliseconds since the epoch. *)
Definition msPerMinute : Z := 60000.
Definition msPerHour : Z := 3600000.

(** An event of the day, as the loop reads it: the time values of
    [new Date(event.start...)] and of [new Date(event.end...)]; both
    dates are valid. *)
Record event : Type := {
  eventStart : Z;
  eventEnd : Z
}.

Section Zone.

(** LocalTime: the local time value, in the zone of the server, of a
    time value. *)
Variable LocalTime : Z -> Z.

(** [d.getHours()] and [d.getMinutes()] of the date with time value
    [t]. *)
Definition getHours (t : Z) : Z := ((LocalTime t / msPerHour) mod 24)%Z.
Definition getMinutes (t : Z) : Z := ((LocalTime t / msPerMinute) mod 60)%Z.

(** [eventStart.getHours() * 60 + eventStart.getMinutes()], and the
    same of [eventEnd]: the date and the zone are gone. *)
Definition eventStartMin (ev : event) : Z :=
  (getHours (eventStart ev) * 60 + getMinutes (eventStart ev))%Z.
Definition eventEndMin (ev : event) : Z :=
  (getHours (eventEnd ev) * 60 + getMinutes (eventEnd ev))%Z.

(** [events.forEach(...)]: the starts of the slots pushed, and
    [currentTime] after the last event.  [duration] is a number of
    minutes, an integer. *)
Fixpoint scan (duration currentTime : Z) (events : list event) : list Z * Z :=
  match events with
  | [] => ([], currentTime)
  | ev :: rest =>
      let found :=
        if (currentTime + duration <=? eventStartMin ev)%Z then [currentTime] else [] in
      let '(later, final) := scan duration (Z.max currentTime (eventEndMin ev)) rest in
      (found ++ later, final)
  end.

(** The starts of all the slots pushed: those found before the events,
    then the one after the last event when it ends by [workEnd]. *)
Definition slot_starts (workStart workEnd duration : Z) (events : list event) : list Z :=
  let '(found, currentTime) := scan duration workStart events in
  found ++ (if (currentTime + duration <=? workEnd)%Z then [currentTime] else []).

(** [availableSlots] *)
Definition availableSlots (workStart workEnd duration : Z) (events : list event)
    : list jstr :=
  slot_text duration <$> slot_starts workStart workEnd duration events.

End Zone.

(** The time value of [new Date(`${date}T${HH:MM}:00-03:00`)], the way
    the request for the events writes the working hours: minute [m] of
    the day number [day] (the day of [date]), three hours behind
    UTC. *)
Definition at_minute (day m : Z) : Z :=
  ((day * 1440 + m) * msPerMinute + 3 * msPerHour)%Z.

(** The event starts and ends on the day [day] of that zone, and the
    server reads the dates of the event in that zone. *)
Definition on_day (LocalTime : Z -> Z) (day : Z) (ev : event) : Prop :=
  LocalTime (eventStart ev) = (eventStart ev - 3 * msPerHour)%Z
  /\ LocalTime (eventEnd ev) = (eventEnd ev - 3 * msPerHour)%Z
  /\ (at_minute day 0 <= eventStart ev < at_minute day 1440)%Z
  /\ (at_minute day 0 <= eventEnd ev < at_minute day 1440)%Z.

(** [availableSlots.forEach((slot, index) => result += `${index + 1}. ${slot}\n`)],
    from [index] on. *)
Fixpoint numbered (index : Z) (slots : list jstr) : jstr :=
  match slots with
  | [] => []
  | slot :: rest =>
      decimal (index + 1)%Z ++ js ". " ++ slot ++ 10%N :: numbered (index + 1)%Z rest
  end.

(** The text returned for the slots found; [date] is the text of
    [`${date}`]. The clock face at the head of the list is U+1F550, two
    code units. *)
Definition slots_result (date : jstr) (duration : Z) (slots : list jstr) : jstr :=
  match slots with
  | [] =>
      CROSS_MARK :: js " No available slots found for " ++ date ++ js " ("
        ++ decimal duration ++ js " minutes duration)"
  | _ :: _ =>
      [0xD83D%N; 0xDD50%N] ++ js " Available time slots for " ++ date ++ js " ("
        ++ decimal duration ++ js " minutes each):" ++ [10%N; 10%N]
        ++ numbered 0 slots
  end.

(** [s.split(':')] *)
Fixpoint split_colon (s : jstr) : list jstr :=
  match s with
  | [] => [[]]
  | c :: s' =>
      if N.eqb c 58 then [] :: split_colon s'
      else
        match split_colon s' with
        | field :: fields => (c :: field) :: fields
        | [] => [[c]]
        end
  end.

Definition digit_of (c : N) (d : Decimal.uint) : option Decimal.uint :=
  if N.eqb c 48 then Some (Decimal.D0 d)
  else if N.eqb c 49 then Some (Decimal.D1 d)
  else if N.eqb c 50 then Some (Decimal.D2 d)
  else if N.eqb c 51 then Some (Decimal.D3 d)
  else if N.eqb c 52 then Some (Decimal.D4 d)
  else if N.eqb c 53 then Some (Decimal.D5 d)
  else if N.eqb c 54 then Some (Decimal.D6 d)
  else if N.eqb c 55 then Some (Decimal.D7 d)
  else if N.eqb c 56 then Some (Decimal.D8 d)
  else if N.eqb c 57 then Some (Decimal.D9 d)
  else None.

Fixpoint read_digits (s : jstr) : option Decimal.uint :=
  match s with
  | [] => Some Decimal.Nil
  | c :: s' =>
      match read_digits s' with
      | Some d => digit_of c d
      | None => None
      end
  end.

(** [Number(s)] for a text made of decimal digits only (the empty text
    is 0); other texts are outside this fragment: [None]. *)
Definition Number (s : jstr) : option Z :=
  match read_digits s with
  | Some d => Some (Z.of_uint d)
  | None => None
  end.

(** [const [hour, min] = s.split(':').map(Number)], then
    [hour * 60 + min]; [None] outside the fragment of [Number] or when
    there is no second field. *)
Definition to_minutes (s : jstr) : option Z :=
  match split_colon s with
  | hour :: min :: _ =>
      match Number hour, Number min with
      | Some h, Some m => Some (h * 60 + m)%Z
      | _, _ => None
      end
  | _ => None
  end.

End Slots.

(** ** The routes that call the engine *)

Module Routes.
Import Engine.

(** A message of the store, as the routes read it. *)
Record stored_message : Type := {
  content : jstr;
  isUser : bool
}.

(** [convertHistoryToEngineFormat(messages)] *)
Definition convertHistoryToEngineFormat (messages : list stored_message) : list item :=
  (fun msg => Message (if isUser msg then js "user" else js "assistant")
                (Text (content msg))) <$> messages.

(** [`[File attached: ${fileId}] ${content}`] *)
Definition fileMessage (fileId content : jstr) : jstr :=
  js "[File attached: " ++ fileId ++ js "] " ++ content.

(** The call of the engine in [/api/chat/completion]: with a file id the
    user input is the file message, and [run] gets no [fileId]
    parameter either way. *)
Definition engine_call {W} (E : env W) (rawPrompt content : jstr)
    (fileId : option jstr) (messages : list stored_message) : M W (list item) :=
  match fileId with
  | Some ((_ :: _) as id) =>
      run E rawPrompt (fileMessage id content)
        (convertHistoryToEngineFormat messages) None
  | _ => run E rawPrompt content (convertHistoryToEngineFormat messages) None
  end.

(** [engineResult.filter(msg => msg.role === "assistant").pop()] *)
Definition lastAssistantMessage (engineResult : list item) : option item :=
  list.last (filter (has_role "assistant") engineResult).

Definition APOLOGY : jstr :=
  js "I apologize, but I couldn't generate a response at the moment.".

(** [lastAssistantMessage?.content || "I apologize, ..."]; [None] when
    the content is not a string. *)
Definition responseText (engineResult : list item) : option jstr :=
  match lastAssistantMessage engineResult with
  | Some (Message _ (Text ((_ :: _) as text))) => Some text
  | Some (Message _ (Text [])) => Some APOLOGY
  | Some (Message _ _) => None
  | Some _ => Some APOLOGY
  | None => Some APOLOGY
  end.

End Routes.

(** * Properties *)

Import Engine.

(** ** [JSON.parse]: the fuel is enough *)

Section Fuel.

Import Json.

Lemma skip_ws_length (s : jstr) : length (skip_ws s) <= length s.
Proof.
  induction s as [|c s IH]; [reflexivity|]. cbn [skip_ws].
  destruct (is_ws c); cbn [length]; lia.
Qed.

Lemma strip_prefix_length (p s rest : jstr) :
  strip_prefix p s = Some rest -> length rest <= length s.
Proof.
  revert s. induction p as [|c p IH]; intros [|x s]; cbn; try discriminate.
  - intros [= <-]. reflexivity.
  - intros [= <-]. reflexivity.
  - destruct (N.eqb x c); [|discriminate]. intros H. apply IH in H. lia.
Qed.

Lemma parse_chars_length_bounded (n : nat) (s str rest : jstr) :
  length s <= n -> parse_chars s = Some (str, rest) -> length rest < length s.
Proof.
  revert s str rest. induction n as [|n IH]; intros s str rest Hn.
  - destruct s; [discriminate|cbn in Hn; lia].
  - destruct s as [|c s]; cbn [parse_chars]; [discriminate|]. cbn [length] in Hn.
    destruct (N.eqb c 34); [intros [= _ <-]; cbn; lia|].
    destruct (N.eqb c 92).
    + destruct s as [|e s]; [discriminate|].
      destruct (N.eqb e 117).
      * destruct s as [|h1 [|h2 [|h3 [|h4 s3]]]]; try discriminate.
        destruct (hex4 h1 h2 h3 h4); [|discriminate].
        destruct (parse_chars s3) as [[str' rest']|] eqn:Hs; [|discriminate].
        intros [= _ <-]. apply IH in Hs; cbn [length] in *; lia.
      * destruct (simple_escape e); [|discriminate].
        destruct (parse_chars s) as [[str' rest']|] eqn:Hs; [|discriminate].
        intros [= _ <-]. apply IH in Hs; cbn [length] in *; lia.
    + destruct (N.ltb c 32); [discriminate|].
      destruct (parse_chars s) as [[str' rest']|] eqn:Hs; [|discriminate].
      intros [= _ <-]. apply IH in Hs; cbn [length] in *; lia.
Qed.

Lemma parse_chars_length (s str rest : jstr) :
  parse_chars s = Some (str, rest) -> length rest < length s.
Proof. apply (parse_chars_length_bounded (length s)). reflexivity. Qed.

Lemma span_digits_length (s a b : jstr) :
  span_digits s = (a, b) -> length b <= length s.
Proof.
  revert a b. induction s as [|c s IH]; intros a b; cbn [span_digits].
  - intros [= _ <-]. reflexivity.
  - destruct (is_digit c).
    + destruct (span_digits s) as [a' b'] eqn:Hs. intros [= _ <-].
      specialize (IH a' b' eq_refl). cbn [length]. lia.
    + intros [= _ <-]. reflexivity.
Qed.

Lemma digits1_length (s ds rest : jstr) :
  digits1 s = Some (ds, rest) -> length rest <= length s.
Proof.
  unfold digits1. destruct (span_digits s) as [[|d a] b] eqn:Hs; [discriminate|].
  intros [= _ <-]. eapply span_digits_length. exact Hs.
Qed.

Lemma parse_number_length (s lexeme rest : jstr) :
  parse_number s = Some (lexeme, rest) -> length rest <= length s.
Proof.
  unfold parse_number.
  set (signed := match s with
                 | c :: t => if N.eqb c 45 then ([c], t) else ([], s)
                 | [] => ([], s)
                 end).
  assert (Hs1 : length signed.2 <= length s).
  { subst signed. destruct s as [|c t]; [reflexivity|].
    destruct (N.eqb c 45); cbn; lia. }
  destruct signed as [sign s1]. cbn [snd] in Hs1.
  set (int_part := match s1 with
                   | c :: t => if N.eqb c 48 then Some ([c], t) else digits1 s1
                   | [] => None
                   end).
  assert (Hi : forall ip s2, int_part = Some (ip, s2) -> length s2 <= length s1).
  { subst int_part. intros ip s2. destruct s1 as [|c t]; [discriminate|].
    destruct (N.eqb c 48); [intros [= _ <-]; cbn; lia|apply digits1_length]. }
  destruct int_part as [[ip s2]|]; [|discriminate].
  specialize (Hi ip s2 eq_refl).
  set (frac_part := match s2 with
                    | c :: t =>
                        if N.eqb c 46 then
                          match digits1 t with
                          | Some (ds, r) => Some (c :: ds, r)
                          | None => None
                          end
                        else Some ([], s2)
                    | [] => Some ([], s2)
                    end).
  assert (Hf : forall fp s3, frac_part = Some (fp, s3) -> length s3 <= length s2).
  { subst frac_part. intros fp s3. destruct s2 as [|c t]; [intros [= _ <-]; reflexivity|].
    destruct (N.eqb c 46); [|intros [= _ <-]; reflexivity].
    destruct (digits1 t) as [[ds r]|] eqn:Hd; [|discriminate].
    intros [= _ <-]. apply digits1_length in Hd. cbn; lia. }
  destruct frac_part as [[fp s3]|]; [|discriminate].
  specialize (Hf fp s3 eq_refl).
  set (exp_part := match s3 with
                   | c :: t =>
                       if N.eqb c 101 || N.eqb c 69 then
                         let '(sg, t') :=
                           match t with
                           | d :: u => if N.eqb d 43 || N.eqb d 45 then ([d], u) else ([], t)
                           | [] => ([], t)
                           end in
                         match digits1 t' with
                         | Some (ds, r) => Some (c :: sg ++ ds, r)
                         | None => None
                         end
                       else Some ([], s3)
                   | [] => Some ([], s3)
                   end).
  assert (He : forall ep s4, exp_part = Some (ep, s4) -> length s4 <= length s3).
  { subst exp_part. intros ep s4. destruct s3 as [|c t]; [intros [= _ <-]; reflexivity|].
    destruct (N.eqb c 101 || N.eqb c 69); [|intros [= _ <-]; reflexivity].
    destruct t as [|d u].
    - destruct (digits1 []) as [[ds r]|] eqn:Hd; [|discriminate].
      intros [= _ <-]. apply digits1_length in Hd. cbn in *; lia.
    - destruct (N.eqb d 43 || N.eqb d 45).
      + destruct (digits1 u) as [[ds r]|] eqn:Hd; [|discriminate].
        intros [= _ <-]. apply digits1_length in Hd. cbn in *; lia.
      + destruct (digits1 (d :: u)) as [[ds r]|] eqn:Hd; [|discriminate].
        intros [= _ <-]. apply digits1_length in Hd. cbn in *; lia. }
  destruct exp_part as [[ep s4]|]; [|discriminate].
  specialize (He ep s4 eq_refl). intros [= _ <-]. lia.
Qed.


Lemma literal_length (word : string) (v : value) : shrinks (literal word v).
Proof.
  intros s a rest. unfold literal.
  destruct (strip_prefix (js word) s) as [r|] eqn:H; [|discriminate].
  intros [= _ <-]. eapply strip_prefix_length. exact H.
Qed.

Lemma value_step_shrinks elements members :
  shrinks elements -> shrinks members -> shrinks (value_step elements members).
Proof.
  intros He Hm s a rest. unfold value_step. destruct s as [|c t]; [discriminate|].
  destruct (N.eqb c 110); [apply literal_length|].
  destruct (N.eqb c 116); [apply literal_length|].
  destruct (N.eqb c 102); [apply literal_length|].
  destruct (N.eqb c 34).
  { destruct (parse_chars t) as [[str r]|] eqn:H; [|discriminate].
    intros [= _ <-]. apply parse_chars_length in H. cbn; lia. }
  pose proof (skip_ws_length t) as Hws.
  destruct (N.eqb c 91).
  { destruct (skip_ws t) as [|d r] eqn:Ht; [discriminate|].
    destruct (N.eqb d 93); [intros [= _ <-]; cbn in *; lia|].
    destruct (elements (d :: r)) as [[vs r']|] eqn:H; [|discriminate].
    intros [= _ <-]. apply He in H. cbn in *; lia. }
  destruct (N.eqb c 123).
  { destruct (skip_ws t) as [|d r] eqn:Ht; [discriminate|].
    destruct (N.eqb d 125); [intros [= _ <-]; cbn in *; lia|].
    destruct (members (d :: r)) as [[ms r']|] eqn:H; [|discriminate].
    intros [= _ <-]. apply Hm in H. cbn in *; lia. }
  destruct (parse_number (c :: t)) as [[lexeme r]|] eqn:H; [|discriminate].
  intros [= _ <-]. apply parse_number_length in H. exact H.
Qed.

Lemma elements_step_shrinks value_at elements :
  shrinks value_at -> shrinks elements -> shrinks (elements_step value_at elements).
Proof.
  intros Hv He s a rest. unfold elements_step.
  destruct (value_at s) as [[v r]|] eqn:H; [|discriminate]. apply Hv in H.
  pose proof (skip_ws_length r) as Hws.
  destruct (skip_ws r) as [|c r'] eqn:Hr; [discriminate|].
  destruct (N.eqb c 93); [intros [= _ <-]; cbn in *; lia|].
  destruct (N.eqb c 44); [|discriminate].
  pose proof (skip_ws_length r') as Hws'.
  destruct (elements (skip_ws r')) as [[vs r'']|] eqn:H'; [|discriminate].
  intros [= _ <-]. apply He in H'. cbn in *; lia.
Qed.

Lemma members_step_shrinks value_at members :
  shrinks value_at -> shrinks members -> shrinks (members_step value_at members).
Proof.
  intros Hv Hm s a rest. unfold members_step. destruct s as [|q t]; [discriminate|].
  destruct (N.eqb q 34); [|discriminate].
  destruct (parse_chars t) as [[key r]|] eqn:Hk; [|discriminate].
  apply parse_chars_length in Hk.
  pose proof (skip_ws_length r) as Hws.
  destruct (skip_ws r) as [|c r1] eqn:Hr; [discriminate|].
  destruct (N.eqb c 58); [|discriminate].
  pose proof (skip_ws_length r1) as Hws1.
  destruct (value_at (skip_ws r1)) as [[v r2]|] eqn:H; [|discriminate]. apply Hv in H.
  pose proof (skip_ws_length r2) as Hws2.
  destruct (skip_ws r2) as [|d r3] eqn:Hr2; [discriminate|].
  destruct (N.eqb d 125); [intros [= _ <-]; cbn in *; lia|].
  destruct (N.eqb d 44); [|discriminate].
  pose proof (skip_ws_length r3) as Hws3.
  destruct (members (skip_ws r3)) as [[ms r4]|] eqn:H'; [|discriminate].
  intros [= _ <-]. apply Hm in H'. cbn in *; lia.
Qed.

Lemma parsers_shrink (fuel : nat) :
  shrinks (parse_value fuel) /\ shrinks (parse_elements fuel)
  /\ shrinks (parse_members fuel).
Proof.
  induction fuel as [|fuel (IHv & IHe & IHm)].
  - repeat split; intros s a rest; discriminate.
  - split; [|split]; cbn [parse_value parse_elements parse_members].
    + apply value_step_shrinks; assumption.
    + apply elements_step_shrinks; assumption.
    + apply members_step_shrinks; assumption.
Qed.

(** Each step calls the parsers it is given on shorter texts only (the
    value parser of an array on the text itself). *)
Lemma value_step_ext e1 e2 m1 m2 (s : jstr) :
  (forall x, length x < length s -> e1 x = e2 x) ->
  (forall x, length x < length s -> m1 x = m2 x) ->
  value_step e1 m1 s = value_step e2 m2 s.
Proof.
  intros He Hm. unfold value_step. destruct s as [|c t]; [reflexivity|].
  pose proof (skip_ws_length t) as Hws.
  rewrite (He (skip_ws t)), (Hm (skip_ws t)) by (cbn; lia). reflexivity.
Qed.

Lemma elements_step_ext v1 v2 e1 e2 (s : jstr) :
  shrinks v2 ->
  v1 s = v2 s ->
  (forall x, length x < length s -> e1 x = e2 x) ->
  elements_step v1 e1 s = elements_step v2 e2 s.
Proof.
  intros Hshr Hv He. unfold elements_step. rewrite Hv.
  destruct (v2 s) as [[v r]|] eqn:H; [|reflexivity]. apply Hshr in H.
  pose proof (skip_ws_length r) as Hws.
  destruct (skip_ws r) as [|c r'] eqn:Hr; [reflexivity|].
  pose proof (skip_ws_length r') as Hws'.
  rewrite (He (skip_ws r')) by (cbn in *; lia). reflexivity.
Qed.

Lemma members_step_ext v1 v2 m1 m2 (s : jstr) :
  shrinks v2 ->
  (forall x, length x < length s -> v1 x = v2 x) ->
  (forall x, length x < length s -> m1 x = m2 x) ->
  members_step v1 m1 s = members_step v2 m2 s.
Proof.
  intros Hshr Hv Hm. unfold members_step. destruct s as [|q t]; [reflexivity|].
  destruct (N.eqb q 34); [|reflexivity].
  destruct (parse_chars t) as [[key r]|] eqn:Hk; [|reflexivity].
  apply parse_chars_length in Hk.
  pose proof (skip_ws_length r) as Hws.
  destruct (skip_ws r) as [|c r1] eqn:Hr; [reflexivity|].
  destruct (N.eqb c 58); [|reflexivity].
  pose proof (skip_ws_length r1) as Hws1.
  rewrite (Hv (skip_ws r1)) by (cbn in *; lia).
  destruct (v2 (skip_ws r1)) as [[v r2]|] eqn:H; [|reflexivity]. apply Hshr in H.
  pose proof (skip_ws_length r2) as Hws2.
  destruct (skip_ws r2) as [|d r3] eqn:Hr2; [reflexivity|].
  pose proof (skip_ws_length r3) as Hws3.
  rewrite (Hm (skip_ws r3)) by (cbn in *; lia). reflexivity.
Qed.

(** Past twice the length of the text, one more unit of fuel changes
    nothing. *)
Lemma one_more_fuel (fuel : nat) :
  (forall s, 2 * length s < fuel -> parse_value (S fuel) s = parse_value fuel s)
  /\ (forall s, 2 * length s + 1 < fuel ->
                parse_elements (S fuel) s = parse_elements fuel s)
  /\ (forall s, 2 * length s + 1 < fuel ->
                parse_members (S fuel) s = parse_members fuel s).
Proof.
  induction fuel as [|fuel (IHv & IHe & IHm)].
  - repeat split; intros s H; lia.
  - split; [|split]; intros s Hs.
    + change (value_step (parse_elements (S fuel)) (parse_members (S fuel)) s
              = value_step (parse_elements fuel) (parse_members fuel) s).
      apply value_step_ext; intros x Hx; [apply IHe|apply IHm]; lia.
    + change (elements_step (parse_value (S fuel)) (parse_elements (S fuel)) s
              = elements_step (parse_value fuel) (parse_elements fuel) s).
      apply elements_step_ext.
      * apply parsers_shrink.
      * apply IHv. lia.
      * intros x Hx. apply IHe. lia.
    + change (members_step (parse_value (S fuel)) (parse_members (S fuel)) s
              = members_step (parse_value fuel) (parse_members fuel) s).
      apply members_step_ext.
      * apply parsers_shrink.
      * intros x Hx. apply IHv. lia.
      * intros x Hx. apply IHm. lia.
Qed.

(** The fuel [parse] gives is enough: more fuel gives the same result,
    so [None] is a syntax error of the text and never a lack of fuel. *)
Lemma parse_fuel_enough (text : jstr) (extra : nat) :
  parse_value (2 * length text + 2 + extra) (skip_ws text)
  = parse_value (2 * length text + 2) (skip_ws text).
Proof.
  induction extra as [|extra IH]; [rewrite Nat.add_0_r; reflexivity|].
  rewrite Nat.add_succ_r, <- IH.
  apply (proj1 (one_more_fuel _)).
  pose proof (skip_ws_length text). lia.
Qed.

End Fuel.

(** ** The prompt template *)

Section Prompt.

Lemma match_here_past_end (c d : N) (p : list Pattern.atom) (s : jstr) :
  Pattern.match_here (Pattern.Lit c :: Pattern.EndOfInput :: Pattern.Lit d :: p) s = None.
Proof.
  destruct s as [|x s]; simpl; [reflexivity|].
  destruct (N.eqb x c); [|reflexivity].
  destruct s; reflexivity.
Qed.

Lemma replace_global_no_match (p : list Pattern.atom) (rep s : jstr) :
  (forall t, Pattern.match_here p t = None) ->
  Pattern.replace_global p rep 0 s = s.
Proof.
  intros Hno. induction s as [|x s IH]; simpl.
  - rewrite Hno. reflexivity.
  - rewrite (Hno (x :: s)). rewrite IH. reflexivity.
Qed.

Lemma compile_dateTime :
  Pattern.compile (Pattern.BACKSLASH :: Pattern.DOLLAR :: js "$dateTime")
  = Some (Pattern.Lit 36 :: Pattern.EndOfInput :: Pattern.Lit 100 ::
          (Pattern.Lit <$> js "ateTime")).
Proof. reflexivity. Qed.

Lemma replaceVariable_dateTime (text dynamicValue : jstr) :
  replaceVariable text (js "$dateTime") dynamicValue = Some text.
Proof.
  unfold replaceVariable. rewrite compile_dateTime.
  f_equal. apply replace_global_no_match. intros t. apply match_here_past_end.
Qed.

Lemma finalPrompt_raw (rawPrompt dateTimeInfo : jstr) :
  finalPrompt rawPrompt dateTimeInfo = rawPrompt.
Proof. unfold finalPrompt. rewrite replaceVariable_dateTime. reflexivity. Qed.

(** C1 (the code departs from the claim).  The pattern built for the
    variable ['$dateTime'] is an escaped dollar, then the end-of-input
    assertion, then [dateTime]: it matches nowhere, so the prompt comes
    back unchanged whatever the template and the date, where the
    specification wants every occurrence of the placeholder replaced. *)
Theorem replaceVariable_keeps_dateTime_placeholder :
  (forall text dynamicValue : jstr,
      replaceVariable text (js "$dateTime") dynamicValue = Some text)
  /\ replaceVariable (js "Agora: $dateTime") (js "$dateTime") (js "Hoje")
     = Some (js "Agora: $dateTime")
  /\ resolve_spec (js "Agora: $dateTime") (js "Hoje") = js "Agora: Hoje"
  /\ replaceVariable (js "Agora: $dateTime") (js "$dateTime") (js "Hoje")
     <> Some (resolve_spec (js "Agora: $dateTime") (js "Hoje")).
Proof.
  split; [exact replaceVariable_dateTime|].
  split; [apply replaceVariable_dateTime|].
  split; [reflexivity|].
  rewrite replaceVariable_dateTime. vm_compute. discriminate.
Qed.

End Prompt.

(** ** Reconciliation *)

Section Reconcile.

Variables (prompt userInput : jstr) (fileId : option jstr).

Local Abbreviation system_message := (Message (js "system") (Text prompt)).
Local Abbreviation non_system := (fun msg : item => ~ has_role "system" msg).

Lemma system_message_not_user (c : content) :
  ~ has_role "user" (Message (js "system") c).
Proof. intros H. vm_compute in H. discriminate H. Qed.

Lemma user_not_system (msg : item) :
  role_of msg = Some (js "user") -> ~ has_role "system" msg.
Proof.
  unfold has_role. intros H1 H2. rewrite H1 in H2. vm_compute in H2. discriminate H2.
Qed.

Lemma role_of_update_message (msg : item) :
  role_of (update_message userInput fileId msg) = role_of msg.
Proof. destruct msg; reflexivity. Qed.

Lemma role_of_first_user_message :
  role_of (first_user_message userInput fileId) = Some (js "user").
Proof.
  unfold first_user_message.
  destruct (actualFileId fileId userInput) as [[|c id]|]; reflexivity.
Qed.

Lemma role_of_pushed_user_message :
  role_of (pushed_user_message userInput fileId) = Some (js "user").
Proof. unfold pushed_user_message. destruct fileId as [[|c id]|]; reflexivity. Qed.

(** An update that keeps every role keeps the messages of each role. *)
Lemma filter_role_alter (role : string) (f : item -> item) (i : nat) (l : list item) :
  (forall msg, role_of (f msg) = role_of msg) ->
  length (filter (has_role role) (alter f i l)) = length (filter (has_role role) l).
Proof.
  intros Hf. revert i. induction l as [|x l IH]; intros [|i]; try reflexivity.
  - change (alter f 0 (x :: l)) with (f x :: l). rewrite !filter_cons.
    destruct (decide (has_role role (f x))) as [H1|H1],
             (decide (has_role role x)) as [H2|H2];
      try reflexivity; exfalso; unfold has_role in *;
      rewrite Hf in H1; contradiction.
  - change (alter f (S i) (x :: l)) with (x :: alter f i l). rewrite !filter_cons.
    destruct (decide (has_role role x)); cbn [length]; rewrite IH; reflexivity.
Qed.

Lemma filter_system_non_system (l : list item) :
  filter (has_role "system") (filter non_system l) = [].
Proof.
  induction l as [|x l IH]; [reflexivity|].
  rewrite (filter_cons non_system). destruct (decide (~ has_role "system" x)) as [Hx|Hx].
  - rewrite filter_cons. destruct (decide (has_role "system" x)); [contradiction|exact IH].
  - exact IH.
Qed.

Lemma findLastIndex_after_system (l : list item) :
  findLastIndex (has_role "user") (system_message :: l)
  = S <$> findLastIndex (has_role "user") l.
Proof.
  cbn [findLastIndex]. destruct (findLastIndex (has_role "user") l); [reflexivity|].
  case_decide as H; [|reflexivity].
  exfalso. exact (system_message_not_user _ H).
Qed.

(** The three shapes of the reconciled conversation. *)
Lemma reconcile_nil :
  reconcile prompt userInput fileId []
  = [system_message; first_user_message userInput fileId].
Proof. reflexivity. Qed.

Lemma reconcile_update (input : list item) (j : nat) :
  input <> [] ->
  findLastIndex (has_role "user") (filter non_system input) = Some j ->
  reconcile prompt userInput fileId input
  = system_message :: alter (update_message userInput fileId) j (filter non_system input).
Proof.
  intros Hne Hj. destruct input as [|x l]; [contradiction|].
  unfold reconcile. rewrite findLastIndex_after_system, Hj. reflexivity.
Qed.

Lemma reconcile_push (input : list item) :
  input <> [] ->
  findLastIndex (has_role "user") (filter non_system input) = None ->
  reconcile prompt userInput fileId input
  = system_message :: filter non_system input ++ [pushed_user_message userInput fileId].
Proof.
  intros Hne Hj. destruct input as [|x l]; [contradiction|].
  unfold reconcile. rewrite findLastIndex_after_system, Hj. reflexivity.
Qed.

Lemma reconcile_cases (input : list item) :
  (input = [] /\ reconcile prompt userInput fileId input
                 = [system_message; first_user_message userInput fileId])
  \/ (exists j, findLastIndex (has_role "user") (filter non_system input) = Some j
        /\ reconcile prompt userInput fileId input
           = system_message :: alter (update_message userInput fileId) j (filter non_system input))
  \/ (findLastIndex (has_role "user") (filter non_system input) = None
        /\ reconcile prompt userInput fileId input
           = system_message :: filter non_system input ++ [pushed_user_message userInput fileId]).
Proof.
  destruct input as [|x l] eqn:E; [left; split; reflexivity|]. rewrite <- E.
  assert (Hne : input <> []) by (rewrite E; discriminate).
  destruct (findLastIndex (has_role "user") (filter non_system input)) as [j|] eqn:Hj.
  - right; left. exists j. split; [reflexivity|]. apply reconcile_update; assumption.
  - right; right. split; [reflexivity|]. apply reconcile_push; assumption.
Qed.

Lemma system_count_system_message (l : list item) :
  filter (has_role "system") l = [] ->
  length (filter (has_role "system") (system_message :: l)) = 1.
Proof.
  intros H. rewrite filter_cons. case_decide as Hs.
  - rewrite H. reflexivity.
  - exfalso. apply Hs. reflexivity.
Qed.

Lemma reconcile_system_once (input : list item) :
  reconcile prompt userInput fileId input !! 0 = Some system_message
  /\ length (filter (has_role "system") (reconcile prompt userInput fileId input)) = 1.
Proof.
  destruct (reconcile_cases input) as [[_ ->]|[(j & _ & ->)|[_ ->]]].
  - split; [reflexivity|]. apply system_count_system_message.
    rewrite filter_cons. case_decide as H; [|reflexivity].
    exfalso. exact (user_not_system _ role_of_first_user_message H).
  - split; [reflexivity|].
    change (system_message :: alter (update_message userInput fileId) j (filter non_system input))
      with (alter (update_message userInput fileId) (S j) (system_message :: filter non_system input)).
    rewrite filter_role_alter by apply role_of_update_message.
    apply system_count_system_message, filter_system_non_system.
  - split; [reflexivity|].
    apply system_count_system_message. rewrite list.filter_app, filter_system_non_system.
    rewrite filter_cons. case_decide as H; [|reflexivity].
    exfalso. exact (user_not_system _ role_of_pushed_user_message H).
Qed.

End Reconcile.

(** ** The user turn *)

Section Indices.

Context {A : Type} (P : A -> Prop) `{forall x, Decision (P x)}.

Lemma findLastIndex_None (l : list A) :
  findLastIndex P l = None <-> Forall (fun x => ~ P x) l.
Proof.
  induction l as [|x l IH]; cbn [findLastIndex].
  - split; [constructor|reflexivity].
  - destruct (findLastIndex P l) as [i|].
    + split; [discriminate|]. intros Hall. inversion Hall as [|? ? Hn Hl]; subst.
      destruct IH as [_ IH]. discriminate (IH Hl).
    + case_decide as Hx.
      * split; [discriminate|]. intros Hall. inversion Hall as [|? ? Hn Hl]; subst.
        contradiction.
      * split; [|reflexivity]. intros _. constructor; [exact Hx|]. apply IH. reflexivity.
Qed.

Lemma findLastIndex_Some (l : list A) (i : nat) :
  findLastIndex P l = Some i -> exists x, l !! i = Some x /\ P x.
Proof.
  revert i. induction l as [|x l IH]; intros i; cbn [findLastIndex]; [discriminate|].
  destruct (findLastIndex P l) as [j|].
  - intros [= <-]. destruct (IH j eq_refl) as (y & Hy & HP). exists y. split; assumption.
  - case_decide as Hx; [|discriminate]. intros [= <-]. exists x. split; [reflexivity|exact Hx].
Qed.

Lemma findIndex_None (l : list A) :
  findIndex P l = None <-> Forall (fun x => ~ P x) l.
Proof.
  induction l as [|x l IH]; cbn [findIndex].
  - split; [constructor|reflexivity].
  - case_decide as Hx.
    + split; [discriminate|]. intros Hall. inversion Hall as [|? ? Hn Hl]; subst.
      contradiction.
    + destruct (findIndex P l) as [i|]; cbn.
      * split; [discriminate|]. intros Hall. inversion Hall as [|? ? Hn Hl]; subst.
        destruct IH as [_ IH]. discriminate (IH Hl).
      * split; [|reflexivity]. intros _. constructor; [exact Hx|]. apply IH. reflexivity.
Qed.

(** [findIndex] gives the first index at which [P] holds. *)
Lemma findIndex_Some (l : list A) (i : nat) :
  findIndex P l = Some i ->
  (exists x, l !! i = Some x /\ P x)
  /\ (forall j y, j < i -> l !! j = Some y -> ~ P y).
Proof.
  revert i. induction l as [|x l IH]; intros i; cbn [findIndex]; [discriminate|].
  case_decide as Hx.
  - intros [= <-]. split; [exists x; split; [reflexivity|exact Hx]|]. intros j y Hj. lia.
  - destruct (findIndex P l) as [k|] eqn:Hk; cbn; [|discriminate].
    intros [= <-]. destruct (IH k eq_refl) as [(y & Hy & HP) Hfirst]. split.
    + exists y. split; assumption.
    + intros [|j] z Hj Hz.
      * injection Hz as <-. exact Hx.
      * eapply Hfirst; [|exact Hz]. lia.
Qed.

End Indices.

Section Parts.

Variable userInput : jstr.

Lemma is_input_text_inv (c : part) : is_input_text c -> exists t, c = InputText t.
Proof. destruct c; try contradiction. eauto. Qed.

(** What [updated_parts] changes: one position, which held a text part
    or lies just past the end, now holds the text part of the user
    input; every other position is as before. *)
Lemma updated_parts_spec (ps : list part) :
  exists k,
    updated_parts userInput ps !! k = Some (InputText userInput)
    /\ (ps !! k = None \/ exists t, ps !! k = Some (InputText t))
    /\ (forall k', k' <> k -> updated_parts userInput ps !! k' = ps !! k').
Proof.
  unfold updated_parts. destruct (findIndex is_input_text ps) as [k|] eqn:Hk.
  - apply findIndex_Some in Hk as [(x & Hx & Htext) _].
    apply is_input_text_inv in Htext as (t & ->).
    exists k. split; [|split].
    + rewrite list_lookup_alter_eq, Hx. reflexivity.
    + right. eauto.
    + intros k' Hne. apply list_lookup_alter_ne. congruence.
  - exists (length ps). split; [|split].
    + rewrite lookup_app_r by lia. rewrite Nat.sub_diag. reflexivity.
    + left. apply lookup_ge_None_2. lia.
    + intros k' Hne. destruct (decide (k' < length ps)) as [Hlt|Hge].
      * apply lookup_app_l. exact Hlt.
      * rewrite !lookup_ge_None_2; [reflexivity|lia|rewrite length_app; cbn; lia].
Qed.

Lemma updated_parts_keeps (ps : list part) (k : nat) (c : part) :
  ps !! k = Some c -> ~ is_input_text c -> updated_parts userInput ps !! k = Some c.
Proof.
  intros Hc Hnot. destruct (updated_parts_spec ps) as (k0 & _ & Hold & Hother).
  rewrite Hother; [exact Hc|]. intros ->.
  destruct Hold as [Hold|(t & Hold)]; rewrite Hold in Hc; [discriminate|].
  injection Hc as <-. apply Hnot. exact I.
Qed.

Lemma findIndex_text_alter (ps : list part) (i : nat) :
  findIndex is_input_text (alter (set_text userInput) i ps)
  = findIndex is_input_text ps.
Proof.
  revert i. induction ps as [|c ps IH]; intros [|i]; try reflexivity.
  - destruct c; reflexivity.
  - change (alter (set_text userInput) (S i) (c :: ps))
      with (c :: alter (set_text userInput) i ps).
    cbn [findIndex]. rewrite IH. reflexivity.
Qed.

Lemma findIndex_text_pushed (ps : list part) :
  findIndex is_input_text ps = None ->
  findIndex is_input_text (ps ++ [InputText userInput]) = Some (length ps).
Proof.
  induction ps as [|c ps IH]; [reflexivity|]. cbn [findIndex app length].
  case_decide; [discriminate|].
  destruct (findIndex is_input_text ps); [discriminate|]. intros _.
  rewrite IH by reflexivity. reflexivity.
Qed.

Lemma alter_pushed (ps : list part) :
  alter (set_text userInput) (length ps) (ps ++ [InputText userInput])
  = ps ++ [InputText userInput].
Proof. induction ps as [|c ps IH]; [reflexivity|]. cbn. f_equal. exact IH. Qed.

Lemma set_text_idempotent (c : part) :
  set_text userInput (set_text userInput c) = set_text userInput c.
Proof. destruct c; reflexivity. Qed.

Lemma updated_parts_idempotent (ps : list part) :
  updated_parts userInput (updated_parts userInput ps) = updated_parts userInput ps.
Proof.
  unfold updated_parts at 2 3.
  destruct (findIndex is_input_text ps) as [k|] eqn:Hk; unfold updated_parts.
  - rewrite findIndex_text_alter, Hk, list_alter_alter_eq.
    apply list_alter_ext; [|reflexivity]. intros c _. apply set_text_idempotent.
  - rewrite (findIndex_text_pushed _ Hk). apply alter_pushed.
Qed.

End Parts.

Section UserTurn.

Variables (prompt userInput : jstr) (fileId : option jstr).

Local Abbreviation system_message := (Message (js "system") (Text prompt)).
Local Abbreviation non_system := (fun msg : item => ~ has_role "system" msg).
Local Abbreviation is_user := (has_role "user").

Lemma user_is_non_system (msg : item) : is_user msg -> non_system msg.
Proof. intros H. apply user_not_system. exact H. Qed.

Lemma no_user_after_filter (l : list item) :
  findLastIndex is_user l = None ->
  findLastIndex is_user (filter non_system l) = None.
Proof.
  rewrite !findLastIndex_None. intros H. apply list.Forall_forall. intros x Hx.
  apply list_elem_of_filter in Hx as [_ Hx]. rewrite list.Forall_forall in H. auto.
Qed.

(** The last user message is found again after the system messages are
    removed, and updating it commutes with the removal. *)
Lemma last_user_after_filter (f : item -> item) (input : list item) (i : nat) :
  (forall msg, role_of (f msg) = role_of msg) ->
  findLastIndex is_user input = Some i ->
  exists j,
    findLastIndex is_user (filter non_system input) = Some j
    /\ alter f j (filter non_system input) = filter non_system (alter f i input).
Proof.
  intros Hf. revert i. induction input as [|x l IH]; intros i; [discriminate|].
  cbn [findLastIndex]. destruct (findLastIndex is_user l) as [i'|] eqn:Hl.
  - intros [= <-]. destruct (IH i' eq_refl) as (j' & Hj' & Hcomm).
    change (alter f (S i') (x :: l)) with (x :: alter f i' l).
    rewrite !(filter_cons _ x). case_decide as Hx.
    + exists (S j'). split; [cbn [findLastIndex]; rewrite Hj'; reflexivity|].
      change (alter f (S j') (x :: ?t)) with (x :: alter f j' t).
      rewrite Hcomm. reflexivity.
    + exists j'. split; assumption.
  - case_decide as Hx; [|discriminate]. intros [= <-].
    change (alter f 0 (x :: l)) with (f x :: l).
    rewrite (filter_cons _ x), (filter_cons _ (f x)).
    assert (Hnx : non_system x) by (apply user_is_non_system; exact Hx).
    assert (Hnf : non_system (f x)).
    { unfold has_role in *. rewrite Hf. exact Hnx. }
    case_decide; [|contradiction]. case_decide; [|contradiction].
    exists 0. split; [|reflexivity].
    cbn [findLastIndex]. rewrite (no_user_after_filter _ Hl).
    case_decide; [reflexivity|contradiction].
Qed.

Lemma findLastIndex_user_alter (f : item -> item) (i : nat) (l : list item) :
  (forall msg, role_of (f msg) = role_of msg) ->
  findLastIndex is_user (alter f i l) = findLastIndex is_user l.
Proof.
  intros Hf. revert i. induction l as [|x l IH]; intros [|i]; try reflexivity.
  - change (alter f 0 (x :: l)) with (f x :: l). cbn [findLastIndex].
    destruct (findLastIndex is_user l); [reflexivity|].
    destruct (decide (is_user (f x))) as [H1|H1], (decide (is_user x)) as [H2|H2];
      try reflexivity; exfalso; unfold has_role in *; rewrite (Hf x) in H1;
      contradiction.
  - change (alter f (S i) (x :: l)) with (x :: alter f i l). cbn [findLastIndex].
    rewrite IH. reflexivity.
Qed.

Lemma no_file_id_content (old : content) :
  truthy fileId = false ->
  Marker.extractFileIdFromContent userInput = None ->
  updated_content userInput fileId old
  = match old with
    | Parts ps => Parts (updated_parts userInput ps)
    | _ => Text userInput
    end.
Proof.
  intros Hf He. unfold updated_content, actualFileId, or_else, extractedFileId.
  rewrite Hf, He. destruct old; reflexivity.
Qed.

(** C10. When the last user message of the conversation has an array
    content holding a file part, and the new user turn brings no file id
    and no inline marker, reconciliation rewrites that message in place
    and nothing else: in its content every part other than the first
    text part, so the file part too, is where it was and as it was, and
    the text part (or one pushed at the end when there was none) holds
    the new user input. *)
Theorem file_part_stays_attached (input : list item) (i : nat) (role : jstr)
    (ps : list part) (file_id : jstr) :
  truthy fileId = false ->
  Marker.extractFileIdFromContent userInput = None ->
  findLastIndex (has_role "user") input = Some i ->
  input !! i = Some (Message role (Parts ps)) ->
  InputFile file_id ∈ ps ->
  reconcile prompt userInput fileId input
    = system_message
        :: filter non_system
             (alter (set_content (Parts (updated_parts userInput ps))) i input)
  /\ InputFile file_id ∈ updated_parts userInput ps
  /\ (forall k c, ps !! k = Some c -> ~ is_input_text c ->
                  updated_parts userInput ps !! k = Some c)
  /\ (exists k,
         updated_parts userInput ps !! k = Some (InputText userInput)
         /\ (ps !! k = None \/ exists t, ps !! k = Some (InputText t))
         /\ (forall k', k' <> k -> updated_parts userInput ps !! k' = ps !! k')).
Proof.
  intros Hf He Hi Hmsg Hfile. split; [|split; [|split]].
  - destruct (last_user_after_filter (update_message userInput fileId) input i
                (role_of_update_message userInput fileId) Hi) as (j & Hj & Hcomm).
    rewrite (reconcile_update prompt userInput fileId input j); [|intros ->; discriminate|exact Hj].
    rewrite Hcomm. do 2 f_equal.
    apply list_alter_ext; [|reflexivity]. intros x Hx.
    rewrite Hmsg in Hx. injection Hx as <-. cbn [update_message set_content].
    rewrite no_file_id_content by assumption. reflexivity.
  - apply list_elem_of_lookup in Hfile as (k & Hk).
    apply list_elem_of_lookup. exists k.
    apply updated_parts_keeps; [exact Hk|]. intros H. exact H.
  - intros k c. apply updated_parts_keeps.
  - apply updated_parts_spec.
Qed.


(** **** Reconciling twice *)

Lemma filter_user_non_system (l : list item) :
  filter is_user (filter non_system l) = filter is_user l.
Proof.
  induction l as [|x l IH]; [reflexivity|].
  rewrite (filter_cons non_system), (filter_cons is_user x).
  destruct (decide (non_system x)) as [Hn|Hn].
  - rewrite filter_cons, IH. reflexivity.
  - rewrite IH. case_decide as Hu; [|reflexivity].
    exfalso. exact (Hn (user_is_non_system _ Hu)).
Qed.

Lemma filter_user_system_message (l : list item) :
  filter is_user (system_message :: l) = filter is_user l.
Proof.
  rewrite filter_cons. case_decide as H; [|reflexivity].
  exfalso. exact (system_message_not_user _ H).
Qed.

(** With a user message in the conversation, reconciliation keeps the
    number of user messages. *)
Lemma reconcile_user_count (input : list item) (i : nat) :
  findLastIndex is_user input = Some i ->
  length (filter is_user (reconcile prompt userInput fileId input))
  = length (filter is_user input).
Proof.
  intros Hi.
  destruct (last_user_after_filter (update_message userInput fileId) input i
              (role_of_update_message userInput fileId) Hi) as (j & Hj & _).
  rewrite (reconcile_update prompt userInput fileId input j);
    [|intros ->; discriminate|exact Hj].
  rewrite filter_user_system_message.
  rewrite filter_role_alter by apply role_of_update_message.
  rewrite filter_user_non_system. reflexivity.
Qed.

(** A reconciled conversation has a user message. *)
Lemma reconcile_has_user (input : list item) :
  exists i, findLastIndex is_user (reconcile prompt userInput fileId input) = Some i.
Proof.
  destruct (findLastIndex is_user (reconcile prompt userInput fileId input)) as [i|] eqn:H;
    [eauto|exfalso].
  apply findLastIndex_None in H. rewrite list.Forall_forall in H.
  destruct (reconcile_cases prompt userInput fileId input)
    as [[_ Hr]|[(j & Hj & Hr)|[_ Hr]]]; rewrite Hr in H.
  - apply (H (first_user_message userInput fileId)); [right; left|].
    apply role_of_first_user_message.
  - apply findLastIndex_Some in Hj as (x & Hx & Hu).
    apply (H (update_message userInput fileId x)).
    + right. apply list_elem_of_lookup. exists j.
      rewrite list_lookup_alter_eq, Hx. reflexivity.
    + unfold has_role. rewrite role_of_update_message. exact Hu.
  - apply (H (pushed_user_message userInput fileId)).
    + right. apply elem_of_app. right. left.
    + apply role_of_pushed_user_message.
Qed.

End UserTurn.

Section Twice.

Variables (userInput : jstr) (fileId : option jstr).

(** Reconciling again, with the same user input and file id, never adds
    a user message. *)
Lemma reconcile_twice_user_count (prompt prompt' : jstr) (input : list item) :
  length (filter (has_role "user")
            (reconcile prompt' userInput fileId
               (reconcile prompt userInput fileId input)))
  = length (filter (has_role "user") (reconcile prompt userInput fileId input)).
Proof.
  destruct (reconcile_has_user prompt userInput fileId input) as (i & Hi).
  eapply reconcile_user_count. exact Hi.
Qed.

Lemma updated_content_idempotent (old : content) :
  updated_content userInput fileId (updated_content userInput fileId old)
  = updated_content userInput fileId old.
Proof.
  unfold updated_content.
  destruct (actualFileId fileId userInput) as [[|c id]|]; destruct old;
    try reflexivity; rewrite updated_parts_idempotent; reflexivity.
Qed.

Lemma update_message_idempotent (msg : item) :
  update_message userInput fileId (update_message userInput fileId msg)
  = update_message userInput fileId msg.
Proof. destruct msg; cbn; [|reflexivity|reflexivity]. rewrite updated_content_idempotent. reflexivity. Qed.

Lemma update_first_user_message :
  update_message userInput fileId (first_user_message userInput fileId)
  = first_user_message userInput fileId.
Proof.
  unfold first_user_message, update_message, updated_content.
  destruct (actualFileId fileId userInput) as [[|c id]|] eqn:Ha; rewrite ?Ha; reflexivity.
Qed.

Lemma filter_non_system_id (l : list item) :
  Forall (fun msg => ~ has_role "system" msg) l ->
  filter (fun msg => ~ has_role "system" msg) l = l.
Proof.
  induction 1 as [|x l Hx _ IH]; [reflexivity|].
  rewrite filter_cons. case_decide; [|contradiction]. rewrite IH. reflexivity.
Qed.

Lemma non_system_filtered (l : list item) :
  Forall (fun msg => ~ has_role "system" msg)
    (filter (fun msg => ~ has_role "system" msg) l).
Proof.
  apply list.Forall_forall. intros x Hx. apply list_elem_of_filter in Hx as [Hx _]. exact Hx.
Qed.

Lemma non_system_alter (f : item -> item) (i : nat) (l : list item) :
  (forall msg, role_of (f msg) = role_of msg) ->
  Forall (fun msg => ~ has_role "system" msg) l ->
  Forall (fun msg => ~ has_role "system" msg) (alter f i l).
Proof.
  intros Hf Hl. revert i. induction Hl as [|x l Hx Hl IH]; intros [|i].
  - constructor.
  - constructor.
  - constructor; [|exact Hl]. unfold has_role in *. rewrite Hf. exact Hx.
  - constructor; [exact Hx|apply IH].
Qed.

(** When the conversation is empty or already has a user message,
    reconciling a second time changes nothing. *)
Lemma reconcile_idempotent (prompt : jstr) (input : list item) :
  input = [] \/ (exists i, findLastIndex (has_role "user") input = Some i) ->
  reconcile prompt userInput fileId (reconcile prompt userInput fileId input)
  = reconcile prompt userInput fileId input.
Proof.
  intros [->|(i & Hi)].
  - rewrite reconcile_nil.
    rewrite (reconcile_update prompt userInput fileId _ 0); [|discriminate|].
    + rewrite filter_cons. case_decide as Hs; [exfalso; apply Hs; reflexivity|].
      rewrite filter_non_system_id.
      * cbn. rewrite update_first_user_message. reflexivity.
      * repeat constructor. apply user_not_system, role_of_first_user_message.
    + rewrite filter_cons. case_decide as Hs; [exfalso; apply Hs; reflexivity|].
      rewrite filter_non_system_id.
      * cbn [findLastIndex]. case_decide as Hu; [reflexivity|].
        exfalso. apply Hu. apply role_of_first_user_message.
      * repeat constructor. apply user_not_system, role_of_first_user_message.
  - destruct (last_user_after_filter (update_message userInput fileId) input i
                (role_of_update_message userInput fileId) Hi) as (j & Hj & _).
    rewrite (reconcile_update prompt userInput fileId input j);
      [|intros ->; discriminate|exact Hj].
    set (base := filter (fun msg => ~ has_role "system" msg) input) in *.
    assert (Hbase : filter (fun msg => ~ has_role "system" msg)
                      (Message (js "system") (Text prompt)
                         :: alter (update_message userInput fileId) j base)
                    = alter (update_message userInput fileId) j base).
    { rewrite filter_cons. case_decide as Hs; [exfalso; apply Hs; reflexivity|].
      apply filter_non_system_id, non_system_alter;
        [apply role_of_update_message|apply non_system_filtered]. }
    rewrite (reconcile_update prompt userInput fileId _ j); [|discriminate|].
    + rewrite Hbase, list_alter_alter_eq. f_equal.
      apply list_alter_ext; [|reflexivity]. intros x _. apply update_message_idempotent.
    + rewrite Hbase, findLastIndex_user_alter by apply role_of_update_message. exact Hj.
Qed.

End Twice.

(** ** The file id of the user turn *)

Section InlineMarker.

Lemma strip_prefix_Some (p s rest : jstr) :
  strip_prefix p s = Some rest -> s = p ++ rest.
Proof.
  revert s. induction p as [|c p IH]; intros [|x s]; cbn; try discriminate.
  - intros [= <-]. reflexivity.
  - intros [= <-]. reflexivity.
  - destruct (N.eqb x c) eqn:Hx; [|discriminate].
    apply N.eqb_eq in Hx as ->. intros H. rewrite (IH _ H). reflexivity.
Qed.

Lemma span_id_split (s a b : jstr) :
  Marker.span_id s = (a, b) -> s = a ++ b /\ Marker.RBRACKET ∉ a.
Proof.
  revert a b. induction s as [|c s IH]; intros a b; cbn.
  - intros [= <- <-]. split; [reflexivity|]. intros H. inversion H.
  - destruct (N.eqb c Marker.RBRACKET) eqn:Hc.
    + intros [= <- <-]. split; [reflexivity|]. intros H. inversion H.
    + destruct (Marker.span_id s) as [a' b'] eqn:Hs. intros [= <- <-].
      destruct (IH a' b' eq_refl) as [-> Hn]. split; [reflexivity|].
      intros H. apply elem_of_cons in H as [H|H]; [|contradiction].
      apply N.eqb_neq in Hc. congruence.
Qed.

Lemma span_id_rest (s a b : jstr) (c : N) :
  Marker.span_id s = (a, c :: b) -> c = Marker.RBRACKET.
Proof.
  revert a. induction s as [|x s IH]; intros a; cbn; [discriminate|].
  destruct (N.eqb x Marker.RBRACKET) eqn:Hx.
  - intros [= <- <- <-]. apply N.eqb_eq. exact Hx.
  - destruct (Marker.span_id s) as [a' b'] eqn:Hs. intros [= <- ->].
    apply (IH a'). reflexivity.
Qed.

(** The marker found is a substring of the input: the text
    [[File attached: ], a non-empty id without a closing bracket, and
    the closing bracket. *)
Lemma find_marker_split (s before id after : jstr) :
  Marker.find_marker s = Some (before, id, after) ->
  s = before ++ js "[File attached: " ++ id ++ Marker.RBRACKET :: after
  /\ id <> [] /\ Marker.RBRACKET ∉ id.
Proof.
  revert before. induction s as [|c s IH]; intros before.
  - cbn. discriminate.
  - cbn [Marker.find_marker].
    destruct (Marker.marker_here (c :: s)) as [[captured rest]|] eqn:Hm.
    + intros [= <- <- <-]. unfold Marker.marker_here in Hm.
      destruct (strip_prefix (js "[File attached: ") (c :: s)) as [r|] eqn:Hp;
        [|discriminate].
      apply strip_prefix_Some in Hp.
      destruct (Marker.span_id r) as [[|x a] [|y b]] eqn:Hs; try discriminate.
      injection Hm as <- <-.
      pose proof (span_id_rest _ _ _ _ Hs) as ->.
      apply span_id_split in Hs as [-> Hn].
      split; [|split; [discriminate|exact Hn]].
      rewrite Hp. reflexivity.
    + destruct (Marker.find_marker s) as [[[b i] a]|]; [|discriminate].
      intros [= <- <- <-]. destruct (IH b eq_refl) as (-> & Hid & Hn).
      split; [reflexivity|]. split; assumption.
Qed.

(** With a marker in the user input, the cleaned text is the input
    without the leftmost marker and the white space after it, and the
    extracted id is the id of that marker. *)
Lemma cleanUserInput_spec (userInput before id after : jstr) :
  Marker.find_marker userInput = Some (before, id, after) ->
  extractedFileId userInput = Some id
  /\ cleanUserInput userInput = before ++ drop_spaces after.
Proof.
  intros H. pose proof (find_marker_split _ _ _ _ H) as (_ & Hid & _).
  unfold cleanUserInput, extractedFileId, Marker.extractFileIdFromContent,
    Marker.remove_marker.
  rewrite H. split; [reflexivity|]. destruct id; [contradiction|reflexivity].
Qed.

End InlineMarker.

Section FileId.

Variables (prompt userInput : jstr) (fileId : option jstr).

(** When the conversation is empty or already has a user message, and a
    file id is at hand, the current user turn is the file part with that
    id followed by the cleaned text. *)
Lemma user_turn_with_file (input : list item) (c : N) (id : jstr) :
  input = [] \/ (exists i, findLastIndex (has_role "user") input = Some i) ->
  actualFileId fileId userInput = Some (c :: id) ->
  current_user_content (reconcile prompt userInput fileId input)
  = Some (file_and_text (c :: id) (cleanUserInput userInput)).
Proof.
  intros [->|(i & Hi)] Ha.
  - rewrite reconcile_nil. unfold current_user_content. cbn [findLastIndex].
    case_decide as Hu; [|exfalso; apply Hu; apply role_of_first_user_message].
    cbn. unfold first_user_message. rewrite Ha. reflexivity.
  - destruct (last_user_after_filter (update_message userInput fileId) input i
                (role_of_update_message userInput fileId) Hi) as (j & Hj & _).
    rewrite (reconcile_update prompt userInput fileId input j);
      [|intros ->; discriminate|exact Hj].
    unfold current_user_content.
    rewrite findLastIndex_after_system,
      findLastIndex_user_alter by apply role_of_update_message.
    rewrite Hj. cbn [fmap option_fmap option_map].
    change ((?x :: ?l) !! S j) with (l !! j).
    rewrite list_lookup_alter_eq.
    apply findLastIndex_Some in Hj as (x & -> & Hx).
    destruct x as [role old| |]; try discriminate Hx.
    cbn. unfold updated_content. rewrite Ha. reflexivity.
Qed.

(** The explicit parameter wins over the inline marker. *)
Lemma explicit_file_id_first (c : N) (id : jstr) :
  fileId = Some (c :: id) -> actualFileId fileId userInput = Some (c :: id).
Proof. intros ->. reflexivity. Qed.

End FileId.

(** ** The loop body *)

Section Effects.

Context {W : Type}.

Lemma bind_eq {A B : Type} (m : M W A) (k : A -> M W B) (w : W) :
  bind m k w
  = match value (m w) with
    | inl e => Result (trace (m w)) (world (m w)) (inl e)
    | inr a =>
        Result (trace (m w) ++ trace (k a (world (m w))))
               (world (k a (world (m w))))
               (value (k a (world (m w))))
    end.
Proof. reflexivity. Qed.

Lemma bind_trace_Forall {A B : Type} (P : event -> Prop) (m : M W A)
    (k : A -> M W B) (w : W) :
  Forall P (trace (m w)) ->
  (forall a w', Forall P (trace (k a w'))) ->
  Forall P (trace (bind m k w)).
Proof.
  intros Hm Hk. rewrite bind_eq. destruct (value (m w)); simpl; [exact Hm|].
  apply Forall_app. split; [exact Hm|apply Hk].
Qed.

Lemma push_eq (entry : item) (input : list item) (w : W) :
  push entry input w = Result [Push entry] w (inr (input ++ [entry])).
Proof. reflexivity. Qed.

Lemma push_all_eq (entries input : list item) (w : W) :
  push_all entries input w = Result (Push <$> entries) w (inr (input ++ entries)).
Proof.
  revert input. induction entries as [|entry rest IH]; intros input.
  - simpl. unfold ret. rewrite app_nil_r. reflexivity.
  - cbn [push_all]. rewrite bind_eq, push_eq. cbn [value trace world].
    rewrite IH. cbn [value trace world]. rewrite <- app_assoc. reflexivity.
Qed.

Variable E : env W.

(** **** Dispatch *)

Lemma dispatch_unregistered (call_id name arguments : jstr) (args : Json.value) (w : W) :
  tool_of_name name = None ->
  dispatch E call_id name arguments args w
  = Result [] w (inr (js "ERROR: tool " ++ name ++ js " not implemented.")).
Proof. intros H. unfold dispatch. rewrite H. reflexivity. Qed.

Lemma dispatch_null (call_id name arguments : jstr) (t : tool) (w : W) :
  tool_of_name name = Some t ->
  dispatch E call_id name arguments Json.Null w = Result [] w (inl TypeError).
Proof. intros H. unfold dispatch. rewrite H. destruct t; reflexivity. Qed.

Lemma read_not_null (args : Json.value) (key : string) (w : W) :
  args <> Json.Null ->
  read args key w = Result [] w (inr (Json.get args key)).
Proof. intros H. destruct args; try reflexivity. contradiction. Qed.

Lemma call_eq {A : Type} (f : W -> A * W) (w : W) :
  call f w = Result [] (f w).2 (inr (f w).1).
Proof. unfold call. destruct (f w); reflexivity. Qed.

(** A registered tool given arguments other than [null] runs; its
    result is a text, or, for [get_portfolio_info] only, the TypeError
    of a [portfolio] that cannot be converted to a string. *)
Lemma dispatch_runs (call_id name arguments : jstr) (args : Json.value)
    (t : tool) (w : W) :
  tool_of_name name = Some t ->
  args <> Json.Null ->
  (exists text w',
      dispatch E call_id name arguments args w
      = Result [Exec call_id name arguments] w' (inr text))
  \/ (t = get_portfolio_info
      /\ Json.display (number_to_string E) (Json.get args "portfolio") = None
      /\ dispatch E call_id name arguments args w
         = Result [Exec call_id name arguments] w (inl TypeError)).
Proof.
  intros H Hargs. unfold dispatch. rewrite H.
  destruct t; rewrite bind_eq, (read_not_null _ _ _ Hargs); cbn [value trace world];
    rewrite bind_eq; cbn [emit value trace world]; try rewrite call_eq;
    cbn [ret value trace world app]; eauto.
  unfold getPortfolioInfo.
  destruct (Json.display (number_to_string E) (Json.get args "portfolio")) as [text|];
    cbn [ret raise value trace world]; [left; eauto|right; auto].
Qed.

Lemma dispatch_registered (call_id name arguments : jstr) (args : Json.value)
    (t : tool) (w : W) :
  tool_of_name name = Some t ->
  args <> Json.Null ->
  (t = get_portfolio_info ->
   is_Some (Json.display (number_to_string E) (Json.get args "portfolio"))) ->
  exists text w',
    dispatch E call_id name arguments args w
    = Result [Exec call_id name arguments] w' (inr text).
Proof.
  intros H Hargs Hconv.
  destruct (dispatch_runs call_id name arguments args t w H Hargs)
    as [Hok|(-> & Hnone & _)]; [exact Hok|].
  destruct (Hconv eq_refl) as (text & Htext). rewrite Htext in Hnone. discriminate Hnone.
Qed.

Lemma dispatch_trace (call_id name arguments : jstr) (args : Json.value) (w : W) :
  trace (dispatch E call_id name arguments args w) = []
  \/ trace (dispatch E call_id name arguments args w) = [Exec call_id name arguments].
Proof.
  destruct (tool_of_name name) as [t|] eqn:Ht.
  - assert (Hd : args = Json.Null \/ args <> Json.Null)
      by (destruct args; (left; reflexivity) || (right; discriminate)).
    destruct Hd as [->|Hn].
    + left. rewrite (dispatch_null _ _ _ t) by exact Ht. reflexivity.
    + right. destruct (dispatch_runs call_id name arguments args t w Ht Hn)
        as [(text & w' & ->)|(_ & _ & ->)]; reflexivity.
  - left. rewrite dispatch_unregistered by exact Ht. reflexivity.
Qed.


(** **** One output item *)

Lemma handle_parts_eq (parts : list output_part) (input : list item)
    (loopAgent : bool) (w : W) :
  handle_parts parts input loopAgent w
  = Result (Push <$> assistant_messages parts) w
      (inr (input ++ assistant_messages parts,
            match assistant_messages parts with
            | [] => loopAgent
            | _ :: _ => false
            end)).
Proof.
  revert input loopAgent.
  induction parts as [|[text|type] rest IH]; intros input loopAgent.
  - simpl. unfold ret. rewrite app_nil_r. reflexivity.
  - cbn [handle_parts]. rewrite bind_eq, push_eq. cbn [value trace world].
    rewrite IH. cbn [value trace world].
    change (assistant_messages (OutputText text :: rest))
      with (Message (js "assistant") (Text text) :: assistant_messages rest).
    rewrite <- app_assoc.
    destruct (assistant_messages rest); reflexivity.
  - cbn [handle_parts]. rewrite IH. reflexivity.
Qed.

Lemma handle_output_call (call_id name arguments : jstr) (input : list item)
    (loopAgent : bool) (w : W) :
  handle_output E (OutFunctionCall call_id name arguments) input loopAgent w
  = match Json.parse arguments with
    | None => Result [] w (inl SyntaxError)
    | Some args =>
        let d := dispatch E call_id name arguments args w in
        match value d with
        | inl e => Result (trace d) (world d) (inl e)
        | inr text =>
            Result (trace d ++ [Push (FunctionCallOutput call_id text)]) (world d)
              (inr (input ++ [FunctionCallOutput call_id text], loopAgent))
        end
    end.
Proof.
  unfold handle_output. destruct (Json.parse arguments) as [args|]; [|reflexivity].
  rewrite bind_eq. cbn zeta.
  destruct (value (dispatch E call_id name arguments args w)) as [e|text]; [reflexivity|].
  rewrite bind_eq, push_eq. cbn [value trace world ret]. rewrite app_nil_r. reflexivity.
Qed.

Lemma handle_outputs_cons (o : output) (rest : list output) (input : list item)
    (loopAgent : bool) (w : W) :
  handle_outputs E (o :: rest) input loopAgent w
  = let r := handle_output E o input loopAgent w in
    match value r with
    | inl e => Result (trace r) (world r) (inl e)
    | inr (input', loopAgent') =>
        let r' := handle_outputs E rest input' loopAgent' (world r) in
        Result (trace r ++ trace r') (world r') (value r')
    end.
Proof.
  cbn [handle_outputs]. rewrite bind_eq. cbn zeta.
  destruct (value (handle_output E o input loopAgent w)) as [e|[input' loopAgent']];
    reflexivity.
Qed.

(** No output item calls the completion service. *)
Lemma handle_output_no_completion (o : output) (input : list item)
    (loopAgent : bool) (w : W) :
  Forall (fun ev => ~ is_completion ev) (trace (handle_output E o input loopAgent w)).
Proof.
  destruct o as [parts| |call_id name arguments|type].
  - unfold handle_output. rewrite handle_parts_eq. cbn [trace].
    apply Forall_fmap, Forall_true. intros x H. exact H.
  - constructor.
  - rewrite handle_output_call. destruct (Json.parse arguments) as [args|]; [|constructor].
    cbn zeta.
    assert (Hd : Forall (fun ev => ~ is_completion ev)
                   (trace (dispatch E call_id name arguments args w))).
    { destruct (dispatch_trace call_id name arguments args w) as [-> | ->];
        repeat constructor; intros H; exact H. }
    destruct (value (dispatch E call_id name arguments args w)); cbn [trace]; [exact Hd|].
    apply Forall_app. split; [exact Hd|]. repeat constructor. intros H; exact H.
  - constructor.
Qed.

Lemma handle_outputs_no_completion (outputs : list output) (input : list item)
    (loopAgent : bool) (w : W) :
  Forall (fun ev => ~ is_completion ev) (trace (handle_outputs E outputs input loopAgent w)).
Proof.
  revert input loopAgent w. induction outputs as [|o rest IH]; intros input loopAgent w.
  - constructor.
  - rewrite handle_outputs_cons. cbn zeta.
    pose proof (handle_output_no_completion o input loopAgent w) as Ho.
    destruct (value (handle_output E o input loopAgent w)) as [e|[input' loopAgent']];
      cbn [trace]; [exact Ho|].
    apply Forall_app. split; [exact Ho|apply IH].
Qed.

(** A tool runs only for a function call of the response. *)
Lemma handle_output_exec (o : output) (input : list item) (loopAgent : bool) (w : W)
    (call_id name arguments : jstr) :
  Exec call_id name arguments ∈ trace (handle_output E o input loopAgent w) ->
  o = OutFunctionCall call_id name arguments.
Proof.
  destruct o as [parts| |c n a|type].
  - unfold handle_output. rewrite handle_parts_eq. cbn [trace].
    intros H. apply list_elem_of_fmap in H as (x & Hx & _). discriminate Hx.
  - intros H. inversion H.
  - rewrite handle_output_call. destruct (Json.parse a) as [args|];
      [|intros H; inversion H].
    cbn zeta. intros H.
    assert (Hin : Exec call_id name arguments ∈ trace (dispatch E c n a args w)).
    { destruct (value (dispatch E c n a args w)); cbn [trace] in H; [exact H|].
      apply elem_of_app in H as [H|H]; [exact H|].
      apply list_elem_of_singleton in H. discriminate H. }
    destruct (dispatch_trace c n a args w) as [Ht|Ht]; rewrite Ht in Hin.
    + inversion Hin.
    + apply list_elem_of_singleton in Hin. injection Hin as -> -> ->. reflexivity.
  - intros H. inversion H.
Qed.

Lemma handle_outputs_exec (outputs : list output) (input : list item)
    (loopAgent : bool) (w : W) (call_id name arguments : jstr) :
  Exec call_id name arguments ∈ trace (handle_outputs E outputs input loopAgent w) ->
  OutFunctionCall call_id name arguments ∈ outputs.
Proof.
  revert input loopAgent w. induction outputs as [|o rest IH]; intros input loopAgent w.
  - intros H. inversion H.
  - rewrite handle_outputs_cons. cbn zeta. intros H.
    destruct (value (handle_output E o input loopAgent w)) as [e|[input' loopAgent']]
      eqn:Hv; cbn [trace] in H.
    + apply handle_output_exec in H as ->. left.
    + apply elem_of_app in H as [H|H].
      * apply handle_output_exec in H as ->. left.
      * right. eapply IH. exact H.
Qed.


(** **** A whole response *)

Lemma handle_outputs_app (l1 l2 : list output) (input : list item)
    (loopAgent : bool) (w : W) :
  handle_outputs E (l1 ++ l2) input loopAgent w
  = let r := handle_outputs E l1 input loopAgent w in
    match value r with
    | inl e => Result (trace r) (world r) (inl e)
    | inr (input', loopAgent') =>
        let r' := handle_outputs E l2 input' loopAgent' (world r) in
        Result (trace r ++ trace r') (world r') (value r')
    end.
Proof.
  revert input loopAgent w. induction l1 as [|o rest IH]; intros input loopAgent w.
  - cbn. destruct (handle_outputs E l2 input loopAgent w); reflexivity.
  - change ((o :: rest) ++ l2) with (o :: (rest ++ l2)).
    rewrite !handle_outputs_cons. cbn zeta.
    destruct (value (handle_output E o input loopAgent w)) as [e|[input' loopAgent']];
      [reflexivity|].
    rewrite IH. cbn zeta. cbn [value trace world].
    destruct (value (handle_outputs E rest input' loopAgent' _)) as [e|[input'' loopAgent'']];
      cbn [value trace world]; [reflexivity|].
    rewrite app_assoc. reflexivity.
Qed.

Lemma tool_entries_app (l1 l2 : list item) :
  tool_entries (l1 ++ l2) = tool_entries l1 ++ tool_entries l2.
Proof. apply omap_app. Qed.

Lemma tool_entries_assistant_messages (parts : list output_part) :
  tool_entries (assistant_messages parts) = [].
Proof.
  induction parts as [|[text|type] rest IH]; [reflexivity| |exact IH].
  exact IH.
Qed.

Lemma answered_entries_cons (o : output) (rest : list output) :
  answered_entries (o :: rest) = answered_entries [o] ++ answered_entries rest.
Proof. exact (omap_app _ [o] rest). Qed.

Lemma handle_output_entries (o : output) (input input' : list item)
    (loopAgent loopAgent' : bool) (w : W) :
  value (handle_output E o input loopAgent w) = inr (input', loopAgent') ->
  tool_entries input' = tool_entries input ++ answered_entries [o].
Proof.
  destruct o as [parts| |call_id name arguments|type].
  - unfold handle_output. rewrite handle_parts_eq. cbn [value]. intros [= <- _].
    rewrite tool_entries_app, tool_entries_assistant_messages. reflexivity.
  - intros [= <- _]. cbn. rewrite app_nil_r. reflexivity.
  - rewrite handle_output_call. destruct (Json.parse arguments) as [args|];
      [|discriminate].
    cbn zeta. destruct (value (dispatch E call_id name arguments args w)) as [e|text];
      [discriminate|].
    cbn [value]. intros [= <- _]. rewrite tool_entries_app. reflexivity.
  - intros [= <- _]. cbn. rewrite app_nil_r. reflexivity.
Qed.

Lemma handle_outputs_entries (outputs : list output) (input input' : list item)
    (loopAgent loopAgent' : bool) (w : W) :
  value (handle_outputs E outputs input loopAgent w) = inr (input', loopAgent') ->
  tool_entries input' = tool_entries input ++ answered_entries outputs.
Proof.
  revert input loopAgent w.
  induction outputs as [|o rest IH]; intros input loopAgent w.
  - intros [= <- _]. cbn. rewrite app_nil_r. reflexivity.
  - rewrite handle_outputs_cons. cbn zeta.
    destruct (value (handle_output E o input loopAgent w)) as [e|[input1 loopAgent1]]
      eqn:Hv; [discriminate|].
    cbn [value]. intros H. apply IH in H. rewrite H.
    rewrite (answered_entries_cons o rest), app_assoc.
    rewrite (handle_output_entries _ _ _ _ _ _ Hv). reflexivity.
Qed.

(** A response with a malformed function call makes the loop body throw. *)
Lemma handle_outputs_malformed (outputs : list output) (input : list item)
    (loopAgent : bool) (w : W) :
  Exists malformed outputs ->
  exists e, value (handle_outputs E outputs input loopAgent w) = inl e.
Proof.
  revert input loopAgent w.
  induction outputs as [|o rest IH]; intros input loopAgent w Hex.
  - inversion Hex.
  - rewrite handle_outputs_cons. cbn zeta.
    destruct (value (handle_output E o input loopAgent w)) as [e|[input1 loopAgent1]]
      eqn:Hv; [exists e; reflexivity|].
    cbn [value]. apply IH. inversion Hex as [? ? Hbad|]; subst; [|assumption].
    exfalso. destruct o as [parts| |call_id name arguments|type]; try contradiction.
    rewrite handle_output_call in Hv. cbn in Hbad. rewrite Hbad in Hv. discriminate Hv.
Qed.

(** A servable function call is answered and leaves the loop flag as it
    was. *)
Lemma handle_output_servable (o : output) (input : list item) (loopAgent : bool) (w : W) :
  servable E o ->
  exists input',
    value (handle_output E o input loopAgent w) = inr (input', loopAgent)
    /\ Forall (fun ev => ~ is_assistant_push ev)
         (trace (handle_output E o input loopAgent w)).
Proof.
  destruct o as [parts| |call_id name arguments|type]; try contradiction.
  cbn [servable]. rewrite handle_output_call.
  destruct (Json.parse arguments) as [args|]; [|contradiction].
  intros [Hs Hconv]. cbn zeta.
  assert (Hd : exists tr text w',
             dispatch E call_id name arguments args w = Result tr w' (inr text)
             /\ Forall (fun ev => ~ is_assistant_push ev) tr).
  { destruct (tool_of_name name) as [t|] eqn:Ht.
    - destruct Hs as [Hs|Hs]; [discriminate Hs|].
      destruct (dispatch_registered call_id name arguments args t w Ht Hs)
        as (text & w' & Heq); [intros ->; apply Hconv; reflexivity|].
      exists [Exec call_id name arguments], text, w'. split; [exact Heq|].
      repeat constructor. intros H; exact H.
    - eexists [], _, w. split; [apply dispatch_unregistered; exact Ht|constructor]. }
  destruct Hd as (tr & text & w' & -> & Htr). cbn [value trace world].
  eexists. split; [reflexivity|].
  apply Forall_app. split; [exact Htr|].
  repeat constructor. cbn. intros H. vm_compute in H. discriminate H.
Qed.

Lemma handle_outputs_servable (outputs : list output) (input : list item)
    (loopAgent : bool) (w : W) :
  Forall (servable E) outputs ->
  exists input',
    value (handle_outputs E outputs input loopAgent w) = inr (input', loopAgent)
    /\ Forall (fun ev => ~ is_assistant_push ev)
         (trace (handle_outputs E outputs input loopAgent w)).
Proof.
  revert input w. induction outputs as [|o rest IH]; intros input w Hall.
  - exists input. split; [reflexivity|constructor].
  - rewrite handle_outputs_cons. cbn zeta.
    inversion Hall as [|? ? Ho Hrest]; subst.
    destruct (handle_output_servable o input loopAgent w Ho) as (input1 & Hv & Ht).
    rewrite Hv. cbn [value trace].
    destruct (IH input1 (world (handle_output E o input loopAgent w)) Hrest)
      as (input2 & Hv2 & Ht2).
    exists input2. split; [exact Hv2|]. apply Forall_app. split; assumption.
Qed.

End Effects.

(** ** Tool entries, traces and the loop *)

Section Entries.

Lemma entry_of_update_message (userInput : jstr) (fileId : option jstr) (msg : item) :
  entry_of (update_message userInput fileId msg) = entry_of msg.
Proof. destruct msg; reflexivity. Qed.

Lemma entry_of_has_role (role : string) (msg : item) :
  has_role role msg -> entry_of msg = None.
Proof. destruct msg; [reflexivity|discriminate|discriminate]. Qed.

Lemma tool_entries_alter (f : item -> item) (i : nat) (l : list item) :
  (forall msg, entry_of (f msg) = entry_of msg) ->
  tool_entries (alter f i l) = tool_entries l.
Proof.
  intros Hf. revert i. induction l as [|x l IH]; intros [|i]; try reflexivity.
  - change (alter f 0 (x :: l)) with (f x :: l). unfold tool_entries.
    cbn [omap list_omap]. rewrite Hf. reflexivity.
  - change (alter f (S i) (x :: l)) with (x :: alter f i l). unfold tool_entries in *.
    cbn [omap list_omap]. rewrite IH. reflexivity.
Qed.

Lemma tool_entries_non_system (l : list item) :
  tool_entries (filter (fun msg => ~ has_role "system" msg) l) = tool_entries l.
Proof.
  induction l as [|x l IH]; [reflexivity|].
  rewrite filter_cons. case_decide as Hx.
  - unfold tool_entries in *. cbn [omap list_omap]. rewrite IH. reflexivity.
  - rewrite IH. unfold tool_entries. cbn [omap list_omap].
    rewrite (entry_of_has_role _ _ Hx). reflexivity.
Qed.

(** Reconciliation leaves the tool entries of the conversation alone. *)
Lemma reconcile_entries (prompt userInput : jstr) (fileId : option jstr)
    (input : list item) :
  tool_entries (reconcile prompt userInput fileId input) = tool_entries input.
Proof.
  destruct (reconcile_cases prompt userInput fileId input)
    as [[-> ->]|[(j & _ & ->)|[_ ->]]].
  - unfold tool_entries. cbn [omap list_omap].
    rewrite (entry_of_has_role "user" (first_user_message userInput fileId)
               (role_of_first_user_message userInput fileId)).
    reflexivity.
  - change (tool_entries (?x :: ?l)) with (tool_entries l).
    rewrite tool_entries_alter by apply entry_of_update_message.
    apply tool_entries_non_system.
  - change (tool_entries (?x :: ?l)) with (tool_entries l).
    rewrite tool_entries_app, tool_entries_non_system.
    unfold tool_entries at 2. cbn [omap list_omap].
    rewrite (entry_of_has_role "user" (pushed_user_message userInput fileId)
               (role_of_pushed_user_message userInput fileId)).
    apply app_nil_r.
Qed.

End Entries.

Section Traces.

Lemma completions_app (t1 t2 : list event) :
  completions (t1 ++ t2) = completions t1 + completions t2.
Proof. unfold completions. rewrite list.filter_app, List.length_app. reflexivity. Qed.

Lemma responses_of_app (t1 t2 : list event) :
  responses_of (t1 ++ t2) = responses_of t1 ++ responses_of t2.
Proof. apply omap_app. Qed.

Lemma no_completion_quiet (t : list event) :
  Forall (fun ev => ~ is_completion ev) t ->
  completions t = 0 /\ responses_of t = [].
Proof.
  induction 1 as [|ev t Hev _ [IH1 IH2]]; [split; reflexivity|].
  unfold completions in *. rewrite filter_cons.
  destruct ev; cbn in Hev; try contradiction; case_decide; try contradiction;
    split; assumption.
Qed.

Lemma pushes_no_completion (entries : list item) :
  Forall (fun ev => ~ is_completion ev) (Push <$> entries).
Proof. apply Forall_fmap, Forall_true. intros x H. exact H. Qed.

Lemma pushed_before_exec_app (t1 t2 : list event) :
  pushed_before_exec t1 -> pushed_before_exec t2 -> pushed_before_exec (t1 ++ t2).
Proof.
  intros H1 H2 pre post call_id name arguments Heq.
  apply app_eq_inv in Heq as [(k & -> & Hk)|(k & -> & Hk)].
  - destruct k as [|ev k].
    + cbn in Hk. symmetry in Hk. apply (H2 [] post) in Hk. inversion Hk.
    + injection Hk as <- ->. eapply (H1 pre k). reflexivity.
  - apply elem_of_app. right. eapply (H2 k post). exact Hk.
Qed.

Lemma pushed_before_exec_intro (head tail : list event) :
  (forall call_id name arguments, Exec call_id name arguments ∉ head) ->
  (forall call_id name arguments,
      Exec call_id name arguments ∈ tail ->
      Push (FunctionCall call_id name arguments) ∈ head) ->
  pushed_before_exec (head ++ tail).
Proof.
  intros Hhead Htail pre post call_id name arguments Heq.
  assert (Hin : Exec call_id name arguments ∈ tail).
  { assert (H : Exec call_id name arguments ∈ head ++ tail)
      by (rewrite Heq; apply elem_of_app; right; left).
    apply elem_of_app in H as [H|H]; [|exact H]. exfalso. exact (Hhead _ _ _ H). }
  apply app_eq_inv in Heq as [(k & -> & Hk)|(k & -> & Hk)].
  - destruct k as [|ev k].
    + rewrite app_nil_r in Hhead, Htail. apply Htail. exact Hin.
    + exfalso. injection Hk as <- ->.
      eapply Hhead. apply elem_of_app. right. left.
  - apply elem_of_app. left. apply Htail. exact Hin.
Qed.

End Traces.

Section Loop.

Context {W : Type} (E : env W).
Variables (rawPrompt userInput : jstr) (fileId : option jstr).

Local Abbreviation request_of input w :=
  (reconcile (finalPrompt rawPrompt (getSaoPauloTodayInfo E w)) userInput fileId input).
Local Abbreviation invocations response :=
  (invocation <$> filter is_function_call response).

Lemma create_eq (input : list item) (w : W) :
  create E input w
  = Result [Completion input (responses_create E input w).1]
      (responses_create E input w).2
      (match (responses_create E input w).1 with
       | Returned response => inr response
       | Threw e => inl (Rejected e)
       end).
Proof. unfold create. destruct (responses_create E input w); reflexivity. Qed.

(** One turn of the loop, unfolded. *)
Lemma iteration_eq (input : list item) (w : W) :
  iteration E rawPrompt userInput fileId input w
  = match responses_create E (request_of input w) w with
    | (Returned response, w1) =>
        let r := handle_outputs E response
                   (request_of input w ++ invocations response) true w1 in
        Result (Completion (request_of input w) (Returned response)
                  :: (Push <$> invocations response) ++ trace r)
               (world r) (value r)
    | (Threw e, w1) =>
        Result [Completion (request_of input w) (Threw e)] w1 (inl (Rejected e))
    end.
Proof.
  unfold iteration. rewrite bind_eq, call_eq. cbn [value trace world fst snd app].
  rewrite bind_eq, create_eq.
  destruct (responses_create E (request_of input w) w) as [[response|e] w1];
    cbn [value trace world fst snd]; [|reflexivity].
  rewrite bind_eq, push_all_eq. cbn [value trace world]. reflexivity.
Qed.

Lemma agent_loop_S (n : nat) (input : list item) (w : W) :
  agent_loop E rawPrompt userInput fileId (S n) true input w
  = let r := iteration E rawPrompt userInput fileId input w in
    match value r with
    | inl e => Result (trace r) (world r) (inl e)
    | inr (input', loopAgent') =>
        let r' := agent_loop E rawPrompt userInput fileId n loopAgent' input' (world r) in
        Result (trace r ++ trace r') (world r') (value r')
    end.
Proof.
  cbn [agent_loop]. rewrite bind_eq. cbn zeta.
  destruct (value (iteration E rawPrompt userInput fileId input w))
    as [e|[input' loopAgent']]; reflexivity.
Qed.

Lemma agent_loop_stop (n : nat) (input : list item) (w : W) :
  agent_loop E rawPrompt userInput fileId n false input w = Result [] w (inr input).
Proof. destruct n; reflexivity. Qed.

Lemma invocations_entries (response : list output) :
  tool_entries (invocations response) = invoked_entries response.
Proof.
  induction response as [|o rest IH]; [reflexivity|].
  rewrite filter_cons.
  destruct o; case_decide as Ho; cbn in Ho;
    try contradiction; try (exfalso; apply Ho; exact I); try exact IH.
  unfold tool_entries, invoked_entries in *. cbn. f_equal. exact IH.
Qed.

Lemma invocation_pushed (response : list output) (call_id name arguments : jstr) :
  OutFunctionCall call_id name arguments ∈ response ->
  Push (FunctionCall call_id name arguments) ∈ Push <$> invocations response.
Proof.
  intros H. apply list_elem_of_fmap. eexists. split; [reflexivity|].
  apply list_elem_of_fmap. exists (OutFunctionCall call_id name arguments).
  split; [reflexivity|]. apply list_elem_of_filter. split; [exact I|exact H].
Qed.

(** Each turn calls the completion service once. *)
Lemma iteration_completions (input : list item) (w : W) :
  completions (trace (iteration E rawPrompt userInput fileId input w)) = 1.
Proof.
  rewrite iteration_eq.
  destruct (responses_create E (request_of input w) w) as [[response|e] w1];
    [|reflexivity].
  cbn zeta. cbn [trace].
  change (Completion ?a ?b :: ?t) with ([Completion a b] ++ t).
  rewrite !completions_app.
  rewrite (proj1 (no_completion_quiet _ (pushes_no_completion _))).
  rewrite (proj1 (no_completion_quiet _ (handle_outputs_no_completion E _ _ _ _))).
  reflexivity.
Qed.

Lemma iteration_pushed_before (input : list item) (w : W) :
  pushed_before_exec (trace (iteration E rawPrompt userInput fileId input w)).
Proof.
  rewrite iteration_eq.
  destruct (responses_create E (request_of input w) w) as [[response|e] w1].
  - cbn zeta. cbn [trace].
    change (Completion ?a ?b :: ?p ++ ?t) with ((Completion a b :: p) ++ t).
    apply pushed_before_exec_intro.
    + intros c n a H. apply elem_of_cons in H as [H|H]; [discriminate H|].
      apply list_elem_of_fmap in H as (x & Hx & _). discriminate Hx.
    + intros c n a H. right. apply invocation_pushed.
      eapply handle_outputs_exec. exact H.
  - intros pre post c n a Heq. exfalso.
    assert (H : Exec c n a ∈ [Completion (request_of input w) (Threw e)])
      by (cbn [trace] in Heq; rewrite Heq; apply elem_of_app; right; left).
    apply list_elem_of_singleton in H. discriminate H.
Qed.

(** **** The whole loop *)

Lemma agent_loop_completions (n : nat) (loopAgent : bool) (input : list item) (w : W) :
  completions (trace (agent_loop E rawPrompt userInput fileId n loopAgent input w)) <= n.
Proof.
  revert loopAgent input w. induction n as [|n IH]; intros loopAgent input w.
  - cbn. lia.
  - destruct loopAgent; [|rewrite agent_loop_stop; cbn; lia].
    rewrite agent_loop_S. cbn zeta.
    pose proof (iteration_completions input w) as H1.
    destruct (value (iteration E rawPrompt userInput fileId input w))
      as [e|[input' loopAgent']]; cbn [trace]; [lia|].
    rewrite completions_app, H1.
    specialize (IH loopAgent' input'
                  (world (iteration E rawPrompt userInput fileId input w))).
    lia.
Qed.

Lemma agent_loop_pushed_before (n : nat) (loopAgent : bool) (input : list item) (w : W) :
  pushed_before_exec (trace (agent_loop E rawPrompt userInput fileId n loopAgent input w)).
Proof.
  revert loopAgent input w. induction n as [|n IH]; intros loopAgent input w.
  - intros pre post c na a Heq. destruct pre; discriminate Heq.
  - destruct loopAgent.
    2:{ rewrite agent_loop_stop. intros pre post c na a Heq. destruct pre; discriminate Heq. }
    rewrite agent_loop_S. cbn zeta.
    pose proof (iteration_pushed_before input w) as H1.
    destruct (value (iteration E rawPrompt userInput fileId input w))
      as [e|[input' loopAgent']]; cbn [trace]; [exact H1|].
    apply pushed_before_exec_app; [exact H1|apply IH].
Qed.

Lemma concat_entries_cons (response : list output) (rest : list (list output)) :
  concat (entries_of_response <$> response :: rest)
  = entries_of_response response ++ concat (entries_of_response <$> rest).
Proof. reflexivity. Qed.

Lemma agent_loop_entries (n : nat) (loopAgent : bool) (input output : list item) (w : W) :
  value (agent_loop E rawPrompt userInput fileId n loopAgent input w) = inr output ->
  tool_entries output
  = tool_entries input
    ++ concat (entries_of_response
                 <$> responses_of
                       (trace (agent_loop E rawPrompt userInput fileId n loopAgent input w))).
Proof.
  revert loopAgent input w. induction n as [|n IH]; intros loopAgent input w.
  - intros [= <-]. cbn. rewrite app_nil_r. reflexivity.
  - destruct loopAgent.
    2:{ rewrite agent_loop_stop. intros [= <-]. cbn. rewrite app_nil_r. reflexivity. }
    rewrite agent_loop_S. cbn zeta. rewrite iteration_eq.
    destruct (responses_create E (request_of input w) w) as [[response|e] w1];
      [|discriminate].
    cbn zeta. cbn [value trace world].
    destruct (value (handle_outputs E response _ true w1)) as [e|[input' loopAgent']]
      eqn:Hv; [discriminate|].
    cbn [value trace]. intros H. apply IH in H. rewrite H.
    apply handle_outputs_entries in Hv. rewrite Hv.
    rewrite tool_entries_app, reconcile_entries, invocations_entries.
    change (Completion ?a ?b :: ?p ++ ?t) with ([Completion a b] ++ p ++ t).
    rewrite !responses_of_app.
    rewrite (proj2 (no_completion_quiet _ (pushes_no_completion _))).
    rewrite (proj2 (no_completion_quiet _ (handle_outputs_no_completion E _ _ _ _))).
    cbn [responses_of omap list_omap app]. rewrite concat_entries_cons.
    unfold entries_of_response at 2. rewrite <- !app_assoc. reflexivity.
Qed.

End Loop.

(** ** Properties of [run] *)

Section Run.

Context {W : Type} (E : env W).
Variables (rawPrompt userInput : jstr) (fileId : option jstr).

Lemma tool_of_name_unregistered (name : jstr) :
  name ∉ registry -> tool_of_name name = None.
Proof.
  intros H. unfold tool_of_name, Json.jstr_eqb.
  repeat (case_bool_decide;
          [exfalso; apply H; subst name; unfold registry; repeat constructor|]).
  reflexivity.
Qed.

Lemma agent_loop_first_completion (n : nat) (input : list item) (w : W) :
  1 <= completions
         (trace (agent_loop E rawPrompt userInput fileId (S n) true input w)).
Proof.
  rewrite agent_loop_S. cbn zeta.
  pose proof (iteration_completions E rawPrompt userInput fileId input w) as H1.
  destruct (value (iteration E rawPrompt userInput fileId input w))
    as [e|[input' loopAgent']]; cbn [trace]; [lia|].
  rewrite completions_app. lia.
Qed.

(** A response made of servable function calls leaves the loop running:
    with budget left, the completion service is called again. *)
Lemma servable_response_continues (n : nat) (input : list item) (w w1 : W)
    (response : list output) :
  responses_create E
    (reconcile (finalPrompt rawPrompt (getSaoPauloTodayInfo E w)) userInput fileId input) w
  = (Returned response, w1) ->
  Forall (servable E) response ->
  2 <= completions
         (trace (agent_loop E rawPrompt userInput fileId (S (S n)) true input w)).
Proof.
  intros Hr Hs. rewrite agent_loop_S. cbn zeta.
  pose proof (iteration_completions E rawPrompt userInput fileId input w) as H1.
  rewrite iteration_eq in *. rewrite Hr in *. cbn zeta in *. cbn [value trace world] in *.
  destruct (handle_outputs_servable E response
              (reconcile (finalPrompt rawPrompt (getSaoPauloTodayInfo E w))
                 userInput fileId input
               ++ (invocation <$> filter is_function_call response)) true w1 Hs)
    as (input' & Hv & _).
  rewrite Hv. cbn [trace]. rewrite completions_app.
  pose proof (agent_loop_first_completion n input'
                (world (handle_outputs E response
                   (reconcile (finalPrompt rawPrompt (getSaoPauloTodayInfo E w))
                      userInput fileId input
                    ++ (invocation <$> filter is_function_call response)) true w1))) as H2.
  lia.
Qed.

Lemma agent_loop_servable (n : nat) (input : list item) (w : W) :
  (forall request w0, exists response w1,
      responses_create E request w0 = (Returned response, w1)
      /\ Forall (servable E) response) ->
  completions (trace (agent_loop E rawPrompt userInput fileId n true input w)) = n
  /\ (exists output,
         value (agent_loop E rawPrompt userInput fileId n true input w) = inr output)
  /\ Forall (fun ev => ~ is_assistant_push ev)
       (trace (agent_loop E rawPrompt userInput fileId n true input w)).
Proof.
  intros Hall. revert input w. induction n as [|n IH]; intros input w.
  - cbn. split; [reflexivity|]. split; [eexists; reflexivity|constructor].
  - rewrite agent_loop_S. cbn zeta.
    pose proof (iteration_completions E rawPrompt userInput fileId input w) as H1.
    rewrite iteration_eq in *.
    destruct (Hall (reconcile (finalPrompt rawPrompt (getSaoPauloTodayInfo E w))
                      userInput fileId input) w) as (response & w1 & Hr & Hs).
    rewrite Hr in *. cbn zeta in *. cbn [value trace world] in *.
    destruct (handle_outputs_servable E response
                (reconcile (finalPrompt rawPrompt (getSaoPauloTodayInfo E w))
                   userInput fileId input
                 ++ (invocation <$> filter is_function_call response)) true w1 Hs)
      as (input' & Hv & Ht).
    rewrite Hv. cbn [trace value].
    destruct (IH input' (world (handle_outputs E response
                (reconcile (finalPrompt rawPrompt (getSaoPauloTodayInfo E w))
                   userInput fileId input
                 ++ (invocation <$> filter is_function_call response)) true w1)))
      as (IH1 & IH2 & IH3).
    split; [rewrite completions_app; lia|]. split; [exact IH2|].
    apply Forall_app. split; [|exact IH3].
    constructor; [intros H; exact H|].
    apply Forall_app. split; [|exact Ht].
    apply Forall_fmap, list.Forall_forall. intros x Hx.
    apply list_elem_of_fmap in Hx as (o & -> & _).
    destruct o; cbn; intros H; vm_compute in H; discriminate H.
Qed.

Lemma agent_loop_malformed (n : nat) (loopAgent : bool) (input : list item) (w : W)
    (request : list item) (response : list output) :
  Completion request (Returned response)
    ∈ trace (agent_loop E rawPrompt userInput fileId n loopAgent input w) ->
  Exists malformed response ->
  exists e, value (agent_loop E rawPrompt userInput fileId n loopAgent input w) = inl e.
Proof.
  revert loopAgent input w. induction n as [|n IH]; intros loopAgent input w.
  - intros H. inversion H.
  - destruct loopAgent; [|rewrite agent_loop_stop; intros H; inversion H].
    rewrite agent_loop_S. cbn zeta. rewrite iteration_eq.
    destruct (responses_create E _ w) as [[response0|e] w1];
      [|intros _ _; eexists; reflexivity].
    cbn zeta. cbn [value trace world].
    destruct (value (handle_outputs E response0 _ true w1)) as [e|[input' loopAgent']]
      eqn:Hv; [intros _ _; eexists; reflexivity|].
    cbn [trace value]. intros Hin Hbad.
    apply elem_of_app in Hin as [Hin|Hin]; [|eapply IH; eassumption].
    exfalso. apply elem_of_cons in Hin as [Hin|Hin].
    + injection Hin as _ ->.
      match type of Hv with
      | value (handle_outputs E response0 ?i true w1) = _ =>
          destruct (handle_outputs_malformed E response0 i true w1 Hbad) as (e & He)
      end.
      rewrite He in Hv. discriminate Hv.
    + assert (Hq : Forall (fun ev => ~ is_completion ev)
                     ((Push <$> (invocation <$> filter is_function_call response0))
                      ++ trace (handle_outputs E response0
                                  (reconcile (finalPrompt rawPrompt (getSaoPauloTodayInfo E w))
                                     userInput fileId input
                                   ++ (invocation <$> filter is_function_call response0))
                                  true w1))).
      { apply Forall_app. split; [apply pushes_no_completion|].
        apply handle_outputs_no_completion. }
      rewrite list.Forall_forall in Hq. exact (Hq _ Hin I).
Qed.


(** Every request sent to the completion service is a reconciled
    conversation. *)
Lemma agent_loop_requests (n : nat) (loopAgent : bool) (input : list item) (w : W)
    (request : list item) (reply : outcome (list output)) :
  Completion request reply
    ∈ trace (agent_loop E rawPrompt userInput fileId n loopAgent input w) ->
  exists prompt history, request = reconcile prompt userInput fileId history.
Proof.
  revert loopAgent input w. induction n as [|n IH]; intros loopAgent input w.
  - intros H. inversion H.
  - destruct loopAgent; [|rewrite agent_loop_stop; intros H; inversion H].
    rewrite agent_loop_S. cbn zeta.
    assert (Hit : Completion request reply
                    ∈ trace (iteration E rawPrompt userInput fileId input w) ->
                  exists prompt history, request = reconcile prompt userInput fileId history).
    { rewrite iteration_eq.
      destruct (responses_create E _ w) as [[response0|e] w1]; cbn zeta; cbn [trace].
      - intros Hin. apply elem_of_cons in Hin as [Hin|Hin].
        + injection Hin as -> _. eauto.
        + exfalso.
          assert (Hq : Forall (fun ev => ~ is_completion ev)
                     ((Push <$> (invocation <$> filter is_function_call response0))
                      ++ trace (handle_outputs E response0
                                  (reconcile (finalPrompt rawPrompt (getSaoPauloTodayInfo E w))
                                     userInput fileId input
                                   ++ (invocation <$> filter is_function_call response0))
                                  true w1))).
          { apply Forall_app. split; [apply pushes_no_completion|].
            apply handle_outputs_no_completion. }
          rewrite list.Forall_forall in Hq. exact (Hq _ Hin I).
      - intros Hin. apply list_elem_of_singleton in Hin. injection Hin as -> _. eauto. }
    destruct (value (iteration E rawPrompt userInput fileId input w))
      as [e|[input' loopAgent']]; cbn [trace]; [exact Hit|].
    intros Hin. apply elem_of_app in Hin as [Hin|Hin]; [exact (Hit Hin)|].
    eapply IH. exact Hin.
Qed.

(** C2. After the reconciliation step of [run] the conversation has
    exactly one message with role [system], and it is at index 0: this
    holds of [reconcile] on every conversation, user text and file id,
    and so of every request [run] sends to the completion service. *)
Theorem reconcile_single_system :
  (forall prompt input,
      reconcile prompt userInput fileId input !! 0
        = Some (Message (js "system") (Text prompt))
      /\ length (filter (has_role "system") (reconcile prompt userInput fileId input)) = 1)
  /\ (forall input w request reply,
         Completion request reply ∈ trace (run E rawPrompt userInput input fileId w) ->
         (exists prompt, request !! 0 = Some (Message (js "system") (Text prompt)))
         /\ length (filter (has_role "system") request) = 1).
Proof.
  split; [intros prompt input; apply reconcile_system_once|].
  intros input w request reply Hin.
  apply agent_loop_requests in Hin as (prompt & history & ->).
  destruct (reconcile_system_once prompt userInput fileId history) as [H0 H1].
  split; [exists prompt; exact H0|exact H1].
Qed.

(** C3 (amended).  [run] calls the completion service at most
    [MAX_AGENT_LOOP] = 3 times, whatever the conversation and the
    replies.  If every reply is a response made only of function calls
    the dispatcher can serve (arguments that are JSON and, for a
    registered tool, not [null]; for [get_portfolio_info], a
    [portfolio] that can be converted to a string), [run] makes exactly
    3 calls, returns, and never pushes an assistant message. *)
Theorem completion_calls_bounded :
  (forall input w,
      completions (trace (run E rawPrompt userInput input fileId w)) <= MAX_AGENT_LOOP)
  /\ ((forall request w0, exists response w1,
          responses_create E request w0 = (Returned response, w1)
          /\ Forall (servable E) response) ->
      forall input w,
        completions (trace (run E rawPrompt userInput input fileId w)) = MAX_AGENT_LOOP
        /\ (exists output, value (run E rawPrompt userInput input fileId w) = inr output)
        /\ Forall (fun ev => ~ is_assistant_push ev)
             (trace (run E rawPrompt userInput input fileId w))).
Proof.
  split.
  - intros input w. apply agent_loop_completions.
  - intros Hall input w. apply agent_loop_servable. exact Hall.
Qed.

(** C4. When [run] returns, the tool entries of the returned
    conversation are those of the conversation it was given followed,
    response by response, by the invocations of the response's function
    calls in the order emitted and then their results in the order
    emitted; and in the trace of [run] every tool runs after the
    invocation entry of its call was pushed. *)
Theorem tool_entries_in_order (input : list item) (w : W) :
  (forall output,
      value (run E rawPrompt userInput input fileId w) = inr output ->
      tool_entries output
      = tool_entries input
        ++ concat (entries_of_response
                     <$> responses_of (trace (run E rawPrompt userInput input fileId w))))
  /\ pushed_before_exec (trace (run E rawPrompt userInput input fileId w)).
Proof.
  split.
  - intros output H. apply agent_loop_entries. exact H.
  - apply agent_loop_pushed_before.
Qed.

(** C5 (amended).  For a function call whose name is not in the
    registry, the [switch] does not throw: its value is the text
    [ERROR: tool <name> not implemented.]; when the arguments of the
    call are JSON, handling the call pushes that text as the result
    keyed to the call id, throws nothing and leaves [loopAgent] as it
    was. *)
Theorem unregistered_tool_soft_fail (call_id name arguments : jstr) :
  name ∉ registry ->
  (forall args w,
      dispatch E call_id name arguments args w
      = Result [] w (inr (js "ERROR: tool " ++ name ++ js " not implemented.")))
  /\ (forall args input loopAgent w,
         Json.parse arguments = Some args ->
         handle_output E (OutFunctionCall call_id name arguments) input loopAgent w
         = Result
             [Push (FunctionCallOutput call_id
                      (js "ERROR: tool " ++ name ++ js " not implemented."))]
             w
             (inr (input ++ [FunctionCallOutput call_id
                               (js "ERROR: tool " ++ name ++ js " not implemented.")],
                   loopAgent))).
Proof.
  intros Hname. apply tool_of_name_unregistered in Hname. split.
  - intros args w. apply dispatch_unregistered. exact Hname.
  - intros args input loopAgent w Hargs.
    rewrite handle_output_call, Hargs. cbn zeta.
    rewrite dispatch_unregistered by exact Hname. reflexivity.
Qed.

(** C6. A function call whose arguments are not JSON makes [run]
    throw: handling the call throws a SyntaxError and pushes nothing;
    when the items before it in the response were handled, the response
    ends there, with no result for the call; and [run] rejects whenever
    a response it received holds such a call. *)
Theorem malformed_arguments_raise (call_id name arguments : jstr) :
  Json.parse arguments = None ->
  (forall input loopAgent w,
      handle_output E (OutFunctionCall call_id name arguments) input loopAgent w
      = Result [] w (inl SyntaxError))
  /\ (forall before after input loopAgent w input' loopAgent',
         value (handle_outputs E before input loopAgent w) = inr (input', loopAgent') ->
         handle_outputs E (before ++ OutFunctionCall call_id name arguments :: after)
           input loopAgent w
         = Result (trace (handle_outputs E before input loopAgent w))
             (world (handle_outputs E before input loopAgent w))
             (inl SyntaxError))
  /\ (forall input w request response,
         Completion request (Returned response)
           ∈ trace (run E rawPrompt userInput input fileId w) ->
         OutFunctionCall call_id name arguments ∈ response ->
         exists e, value (run E rawPrompt userInput input fileId w) = inl e).
Proof.
  intros Hbad.
  assert (H1 : forall input loopAgent w,
             handle_output E (OutFunctionCall call_id name arguments) input loopAgent w
             = Result [] w (inl SyntaxError)).
  { intros input loopAgent w. rewrite handle_output_call, Hbad. reflexivity. }
  split; [exact H1|]. split.
  - intros before after input loopAgent w input' loopAgent' Hv.
    rewrite handle_outputs_app. cbn zeta. rewrite Hv.
    rewrite handle_outputs_cons, H1. cbn [value trace world].
    rewrite app_nil_r. reflexivity.
  - intros input w request response Hin Hmem.
    eapply agent_loop_malformed; [exact Hin|].
    apply list.Exists_exists. exists (OutFunctionCall call_id name arguments).
    split; [exact Hmem|exact Hbad].
Qed.


(** **** Failures of the calendar client *)

Lemma scheduleMeeting_catches (params : Calendar.schedule_params) (w w' : W) (e : thrown) :
  Calendar.schedule_try (calendar E) params w = (Threw e, w') ->
  Calendar.scheduleMeeting (calendar E) params w
  = (CROSS_MARK :: js " Error scheduling meeting: " ++ error_text e, w').
Proof. intros H. unfold Calendar.scheduleMeeting. rewrite H. reflexivity. Qed.

Lemma getUpcomingEvents_catches (params : Calendar.events_params) (w w' : W) (e : thrown) :
  Calendar.upcoming_try (calendar E) params w = (Threw e, w') ->
  Calendar.getUpcomingEvents (calendar E) params w
  = (CROSS_MARK :: js " Error getting events: " ++ error_text e, w').
Proof. intros H. unfold Calendar.getUpcomingEvents. rewrite H. reflexivity. Qed.

Lemma findAvailableSlots_catches (params : Calendar.slots_params) (w w' : W) (e : thrown) :
  Calendar.slots_try (calendar E) params w = (Threw e, w') ->
  Calendar.findAvailableSlots (calendar E) params w
  = (CROSS_MARK :: js " Error finding available slots: " ++ error_text e, w').
Proof. intros H. unfold Calendar.findAvailableSlots. rewrite H. reflexivity. Qed.

Lemma cancelMeeting_catches (params : Calendar.cancel_params) (w w' : W) (e : thrown) :
  Calendar.events_delete (calendar E) params w = (Threw e, w') ->
  Calendar.cancelMeeting (calendar E) (number_to_string E)
    (conversion_error_message E) params w
  = (CROSS_MARK :: js " Error cancelling meeting: " ++ error_text e, w').
Proof. intros H. unfold Calendar.cancelMeeting. rewrite H. reflexivity. Qed.

(** Handling a call of a calendar tool, given what the service method
    returns. *)
Lemma handle_output_calendar (call_id name arguments : jstr) (args : Json.value)
    (t : tool) (key : string) (method : W -> jstr * W) (input : list item)
    (loopAgent : bool) (w : W) :
  Json.parse arguments = Some args ->
  args <> Json.Null ->
  dispatch E call_id name arguments args
    = (let* _ := read args key in
       let* _ := emit (Exec call_id name arguments) in
       call method) ->
  handle_output E (OutFunctionCall call_id name arguments) input loopAgent w
  = Result [Exec call_id name arguments;
            Push (FunctionCallOutput call_id (method w).1)]
      (method w).2
      (inr (input ++ [FunctionCallOutput call_id (method w).1], loopAgent)).
Proof.
  intros Hparse Hargs Hd. rewrite handle_output_call, Hparse. cbn zeta. rewrite Hd.
  rewrite bind_eq, (read_not_null _ _ _ Hargs). cbn [value trace world].
  rewrite bind_eq. cbn [emit value trace world]. rewrite call_eq. reflexivity.
Qed.

Local Abbreviation reported call_id name arguments text input loopAgent w :=
  (Result [Exec call_id name arguments; Push (FunctionCallOutput call_id text)] w
     (inr (input ++ [FunctionCallOutput call_id text], loopAgent))).

(** C7. When the calendar client throws inside one of the four
    operations of the calendar service, the operation catches it and
    returns the text made of the cross mark, [ Error <doing what>: ] and
    the message of the error (or [Unknown error]); handling the call
    pushes that text as its result, throws nothing and leaves
    [loopAgent] as it was; and when such a call is the whole first
    response, [run] calls the completion service a second time. *)
Theorem calendar_failure_is_a_result (call_id arguments : jstr) (args : Json.value)
    (e : thrown) :
  Json.parse arguments = Some args ->
  args <> Json.Null ->
  (forall input loopAgent w w',
      Calendar.schedule_try (calendar E) (schedule_params_of args) w = (Threw e, w') ->
      Calendar.scheduleMeeting (calendar E) (schedule_params_of args) w
      = (CROSS_MARK :: js " Error scheduling meeting: " ++ error_text e, w')
      /\ handle_output E (OutFunctionCall call_id (js "schedule_meeting") arguments)
           input loopAgent w
         = reported call_id (js "schedule_meeting") arguments
             (CROSS_MARK :: js " Error scheduling meeting: " ++ error_text e)
             input loopAgent w')
  /\ (forall input loopAgent w w',
         Calendar.upcoming_try (calendar E) (events_params_of args) w = (Threw e, w') ->
         Calendar.getUpcomingEvents (calendar E) (events_params_of args) w
         = (CROSS_MARK :: js " Error getting events: " ++ error_text e, w')
         /\ handle_output E (OutFunctionCall call_id (js "get_upcoming_events") arguments)
              input loopAgent w
            = reported call_id (js "get_upcoming_events") arguments
                (CROSS_MARK :: js " Error getting events: " ++ error_text e)
                input loopAgent w')
  /\ (forall input loopAgent w w',
         Calendar.slots_try (calendar E) (slots_params_of args) w = (Threw e, w') ->
         Calendar.findAvailableSlots (calendar E) (slots_params_of args) w
         = (CROSS_MARK :: js " Error finding available slots: " ++ error_text e, w')
         /\ handle_output E (OutFunctionCall call_id (js "find_available_slots") arguments)
              input loopAgent w
            = reported call_id (js "find_available_slots") arguments
                (CROSS_MARK :: js " Error finding available slots: " ++ error_text e)
                input loopAgent w')
  /\ (forall input loopAgent w w',
         Calendar.events_delete (calendar E) (cancel_params_of args) w = (Threw e, w') ->
         Calendar.cancelMeeting (calendar E) (number_to_string E)
           (conversion_error_message E) (cancel_params_of args) w
         = (CROSS_MARK :: js " Error cancelling meeting: " ++ error_text e, w')
         /\ handle_output E (OutFunctionCall call_id (js "cancel_meeting") arguments)
              input loopAgent w
            = reported call_id (js "cancel_meeting") arguments
                (CROSS_MARK :: js " Error cancelling meeting: " ++ error_text e)
                input loopAgent w')
  /\ (forall name input w w1,
         (tool_of_name name = Some get_portfolio_info ->
          is_Some (Json.display (number_to_string E) (Json.get args "portfolio"))) ->
         responses_create E
           (reconcile (finalPrompt rawPrompt (getSaoPauloTodayInfo E w))
              userInput fileId input) w
         = (Returned [OutFunctionCall call_id name arguments], w1) ->
         2 <= completions (trace (run E rawPrompt userInput input fileId w))).
Proof.
  intros Hparse Hargs. split; [|split; [|split; [|split]]].
  - intros input loopAgent w w' Hthrow.
    pose proof (scheduleMeeting_catches _ _ _ _ Hthrow) as Hcatch.
    split; [exact Hcatch|].
    rewrite (handle_output_calendar _ _ _ args schedule_meeting "title"
               (Calendar.scheduleMeeting (calendar E) (schedule_params_of args)))
      by (assumption || reflexivity).
    rewrite Hcatch. reflexivity.
  - intros input loopAgent w w' Hthrow.
    pose proof (getUpcomingEvents_catches _ _ _ _ Hthrow) as Hcatch.
    split; [exact Hcatch|].
    rewrite (handle_output_calendar _ _ _ args get_upcoming_events "maxResults"
               (Calendar.getUpcomingEvents (calendar E) (events_params_of args)))
      by (assumption || reflexivity).
    rewrite Hcatch. reflexivity.
  - intros input loopAgent w w' Hthrow.
    pose proof (findAvailableSlots_catches _ _ _ _ Hthrow) as Hcatch.
    split; [exact Hcatch|].
    rewrite (handle_output_calendar _ _ _ args find_available_slots "date"
               (Calendar.findAvailableSlots (calendar E) (slots_params_of args)))
      by (assumption || reflexivity).
    rewrite Hcatch. reflexivity.
  - intros input loopAgent w w' Hthrow.
    pose proof (cancelMeeting_catches _ _ _ _ Hthrow) as Hcatch.
    split; [exact Hcatch|].
    rewrite (handle_output_calendar _ _ _ args cancel_meeting "eventId"
               (Calendar.cancelMeeting (calendar E) (number_to_string E)
                  (conversion_error_message E) (cancel_params_of args)))
      by (assumption || reflexivity).
    rewrite Hcatch. reflexivity.
  - intros name input w w1 Hconv Hr.
    eapply (servable_response_continues 1); [exact Hr|].
    constructor; [|constructor]. cbn [servable]. rewrite Hparse.
    split; [right; exact Hargs|exact Hconv].
Qed.

End Run.

(** ** The claims on concrete conversations *)

Import Scenario.

(** C8 (the code departs from the claim).  When the conversation is
    empty or already has a user message, the stored user turn is the
    file part with the explicit id followed by the text without the
    marker.  When the conversation is not empty and has no user message,
    the pushed user turn keeps the marker in its text: with an explicit
    id [abc] and the input [[File attached: f1] hello] after one
    assistant message, the stored text is the input as it came, and
    [run] returns it so when the first response is an answer. *)
Theorem pushed_user_turn_keeps_marker :
  (forall p userInput c id input,
      input = [] \/ (exists i, findLastIndex (has_role "user") input = Some i) ->
      current_user_content (reconcile p userInput (Some (c :: id)) input)
      = Some (file_and_text (c :: id) (cleanUserInput userInput)))
  /\ cleanUserInput marked_input = js "hello"
  /\ reconcile prompt marked_input (Some (js "abc")) [greeting]
     = [Message (js "system") (Text prompt); greeting;
        Message (js "user") (file_and_text (js "abc") marked_input)]
  /\ value (run (scripted (always [answer]) (Returned [])) prompt marked_input
              [greeting] (Some (js "abc")) 0)
     = inr [Message (js "system") (Text prompt); greeting;
            Message (js "user") (file_and_text (js "abc") marked_input);
            Message (js "assistant") (Text (js "Done."))].
Proof.
  split; [|split; [|split]].
  - intros p userInput c id input Hin.
    apply user_turn_with_file; [exact Hin|reflexivity].
  - vm_compute. reflexivity.
  - vm_compute. reflexivity.
  - vm_compute. reflexivity.
Qed.

(** C9 (the code departs from the claim).  Reconciling a second time
    with the same user input never changes the number of user messages,
    and changes nothing at all when the conversation was empty or had a
    user message.  When the user turn was pushed (a conversation with no
    user message) and the input holds a marker, the second
    reconciliation rewrites the content of the turn: after one assistant
    message and the input [[File attached: f1] hello], the turn is the
    input as it came after the first reconciliation, and the file part
    [f1] with the text [hello] after the second. *)
Theorem second_reconcile_rewrites_pushed_turn :
  (forall p p' userInput fileId input,
      length (filter (has_role "user")
                (reconcile p' userInput fileId (reconcile p userInput fileId input)))
      = length (filter (has_role "user") (reconcile p userInput fileId input)))
  /\ (forall p userInput fileId input,
         input = [] \/ (exists i, findLastIndex (has_role "user") input = Some i) ->
         reconcile p userInput fileId (reconcile p userInput fileId input)
         = reconcile p userInput fileId input)
  /\ current_user_content (reconcile prompt marked_input None [greeting])
     = Some (Text marked_input)
  /\ current_user_content
       (reconcile prompt marked_input None
          (reconcile prompt marked_input None [greeting]))
     = Some (file_and_text (js "f1") (js "hello")).
Proof.
  split; [|split; [|split]].
  - intros p p' userInput fileId input. apply reconcile_twice_user_count.
  - intros p userInput fileId input. apply reconcile_idempotent.
  - vm_compute. reflexivity.
  - vm_compute. reflexivity.
Qed.

(** C3, the claim as stated fails: every response is made only of
    function calls, yet [run] stops after one call of the completion
    service, because the arguments of the call are not JSON; and
    likewise when the arguments of a call of a registered tool are the
    JSON text [null]. *)
Lemma function_calls_only_one_completion :
  (Forall is_function_call [broken_call]
   /\ completions
        (trace (run (scripted (always [broken_call]) (Returned []))
                  prompt (js "What is on my calendar?") [] None 0)) = 1
   /\ value (run (scripted (always [broken_call]) (Returned []))
               prompt (js "What is on my calendar?") [] None 0)
      = inl SyntaxError)
  /\ (Forall is_function_call [null_call]
      /\ completions
           (trace (run (scripted (always [null_call]) (Returned []))
                     prompt (js "Cancel it.") [] None 0)) = 1
      /\ value (run (scripted (always [null_call]) (Returned []))
                  prompt (js "Cancel it.") [] None 0)
         = inl TypeError).
Proof.
  split; (split; [repeat constructor|]; split; vm_compute; reflexivity).
Qed.

(** C5, the claim as stated fails: a call of a tool outside the registry
    whose arguments are not JSON never reaches the [switch]:
    [JSON.parse] throws before it, no result is pushed for the call
    (the conversation holds its invocation only) and [run] rejects. *)
Lemma unregistered_call_not_json_raises :
  (js "send_email" ∉ registry)
  /\ Json.parse (js "{to: 1}") = None
  /\ handle_output (scripted (always []) (Returned [])) unknown_broken_call [] true 0
     = Result [] 0 (inl SyntaxError)
  /\ value (run (scripted (always [unknown_broken_call]) (Returned []))
              prompt (js "Tell Ana.") [] None 0)
     = inl SyntaxError
  /\ Observe.pushed
       (trace (run (scripted (always [unknown_broken_call]) (Returned []))
                 prompt (js "Tell Ana.") [] None 0))
     = [FunctionCall (js "call_7") (js "send_email") (js "{to: 1}")].
Proof.
  split.
  - intros H. unfold registry in H.
    repeat (apply elem_of_cons in H as [H|H]; [vm_compute in H; discriminate H|]).
    inversion H.
  - repeat split; vm_compute; reflexivity.
Qed.

(** Function calls only, with arguments that are JSON and not [null],
    and still one call of the completion service: the [portfolio] given
    to [get_portfolio_info] cannot be converted to a string. *)
Example scenario_portfolio_not_convertible :
  Forall is_function_call [stubborn_call]
  /\ completions
       (trace (run (scripted (always [stubborn_call]) (Returned []))
                 prompt (js "Show it.") [] None 0)) = 1
  /\ value (run (scripted (always [stubborn_call]) (Returned []))
              prompt (js "Show it.") [] None 0)
     = inl TypeError.
Proof. split; [repeat constructor|]. split; vm_compute; reflexivity. Qed.

(** The first and the last example scenarios of the specification: a
    function call answered, then a text answer (two calls of the
    completion service, four entries after the system message); and
    function calls for ever (three calls, no assistant message). *)
Example scenario_calendar_then_answer :
  let r := run (scripted (from_list [[upcoming_call]; [answer]])
                  (Returned (js "No upcoming events found.")))
             prompt (js "What is on my calendar tomorrow?") [] None 0 in
  completions (trace r) = 2
  /\ value r
     = inr [Message (js "system") (Text prompt);
            Message (js "user") (Text (js "What is on my calendar tomorrow?"));
            FunctionCall (js "call_5") (js "get_upcoming_events")
              (jq "{'maxResults': 5}");
            FunctionCallOutput (js "call_5") (js "No upcoming events found.");
            Message (js "assistant") (Text (js "Done."))].
Proof. split; vm_compute; reflexivity. Qed.

Example scenario_function_calls_for_ever :
  let r := run (scripted (always [upcoming_call]) (Returned (js "No upcoming events found.")))
             prompt (js "What is on my calendar tomorrow?") [] None 0 in
  completions (trace r) = 3
  /\ filter is_assistant_push (trace r) = []
  /\ length <$> (match value r with inr output => Some output | inl _ => None end)
     = Some 8.
Proof. repeat split; vm_compute; reflexivity. Qed.

(** The theorems above, applied to scripted conversations. *)

Lemma reconcile_single_system_witness :
  Completion [Message (js "system") (Text prompt); Message (js "user") (Text (js "hello"))]
    (Returned [answer])
    ∈ trace (run (scripted (always [answer]) (Returned [])) prompt (js "hello") [] None 0)
  /\ length (filter (has_role "system")
               [Message (js "system") (Text prompt);
                Message (js "user") (Text (js "hello"))]) = 1.
Proof.
  assert (H : Completion
                [Message (js "system") (Text prompt); Message (js "user") (Text (js "hello"))]
                (Returned [answer])
              ∈ trace (run (scripted (always [answer]) (Returned []))
                         prompt (js "hello") [] None 0)).
  { vm_compute. left. }
  split; [exact H|].
  exact (proj2 (proj2 (reconcile_single_system
                         (scripted (always [answer]) (Returned []))
                         prompt (js "hello") None) _ _ _ _ H)).
Defined.

Lemma completion_calls_bounded_witness :
  (forall request w0, exists response w1,
      responses_create (scripted (always [unknown_call]) (Returned [])) request w0
      = (Returned response, w1)
      /\ Forall (servable (scripted (always [unknown_call]) (Returned []))) response)
  /\ completions
       (trace (run (scripted (always [unknown_call]) (Returned []))
                 prompt (js "hello") [] None 0)) = MAX_AGENT_LOOP.
Proof.
  assert (H : forall request w0, exists response w1,
             responses_create (scripted (always [unknown_call]) (Returned [])) request w0
             = (Returned response, w1)
             /\ Forall (servable (scripted (always [unknown_call]) (Returned [])))
                  response).
  { intros request w0. exists [unknown_call], (S w0). split; [reflexivity|].
    constructor; [|constructor]. vm_compute.
    split; [left; reflexivity|intros Hn; discriminate Hn]. }
  split; [exact H|].
  exact (proj1 (proj2 (completion_calls_bounded
                         (scripted (always [unknown_call]) (Returned []))
                         prompt (js "hello") None) H [] 0)).
Defined.

Lemma tool_entries_in_order_witness :
  exists output,
    value (run (scripted (from_list [[cancel_call; unknown_call]; [answer]])
                  (Threw network_error))
             prompt (js "Cancel it and tell Ana.") [] None 0)
    = inr output
    /\ tool_entries output
       = [Invoked (js "call_1") (js "cancel_meeting") (jq "{'eventId': 'evt_1'}");
          Invoked (js "call_2") (js "send_email") (jq "{'to': 'ana@example.com'}");
          Answered (js "call_1"); Answered (js "call_2")].
Proof.
  assert (Hv : exists output,
             value (run (scripted (from_list [[cancel_call; unknown_call]; [answer]])
                           (Threw network_error))
                      prompt (js "Cancel it and tell Ana.") [] None 0)
             = inr output)
    by (vm_compute; eexists; reflexivity).
  destruct Hv as (output & Hv). exists output. split; [exact Hv|].
  rewrite (proj1 (tool_entries_in_order
                    (scripted (from_list [[cancel_call; unknown_call]; [answer]])
                       (Threw network_error))
                    prompt (js "Cancel it and tell Ana.") None [] 0) output Hv).
  vm_compute. reflexivity.
Defined.

Lemma unregistered_tool_soft_fail_witness :
  (js "send_email" ∉ registry)
  /\ handle_output (scripted (always []) (Returned []))
       unknown_call [] true 0
     = Result
         [Push (FunctionCallOutput (js "call_2")
                  (js "ERROR: tool send_email not implemented."))]
         0
         (inr ([FunctionCallOutput (js "call_2")
                  (js "ERROR: tool send_email not implemented.")], true)).
Proof.
  assert (H : js "send_email" ∉ registry).
  { intros H. unfold registry in H.
    repeat (apply elem_of_cons in H as [H|H]; [vm_compute in H; discriminate H|]).
    inversion H. }
  split; [exact H|].
  exact (proj2 (unregistered_tool_soft_fail (scripted (always []) (Returned []))
                  (js "call_2") (js "send_email") (jq "{'to': 'ana@example.com'}") H)
           (Json.Object [(js "to", Json.String (js "ana@example.com"))])
           [] true 0 eq_refl).
Defined.

Lemma malformed_arguments_raise_witness :
  Json.parse (js "{maxResults: 5}") = None
  /\ handle_output (scripted (always []) (Returned [])) broken_call [] true 0
     = Result [] 0 (inl SyntaxError)
  /\ exists e,
       value (run (scripted (from_list [[unknown_call; broken_call]]) (Returned []))
                prompt (js "hello") [] None 0) = inl e.
Proof.
  assert (H : Json.parse (js "{maxResults: 5}") = None) by reflexivity.
  split; [exact H|].
  destruct (malformed_arguments_raise
              (scripted (from_list [[unknown_call; broken_call]]) (Returned []))
              prompt (js "hello") None
              (js "call_3") (js "get_upcoming_events") (js "{maxResults: 5}") H)
    as (_ & _ & H3).
  split.
  - exact (proj1 (malformed_arguments_raise
                    (scripted (always []) (Returned []))
                    prompt (js "hello") None
                    (js "call_3") (js "get_upcoming_events") (js "{maxResults: 5}") H)
             [] true 0).
  - eapply (H3 [] 0 _ [unknown_call; broken_call]).
    + vm_compute. left.
    + right. left.
Defined.

Lemma calendar_failure_is_a_result_witness :
  Json.parse (jq "{'eventId': 'evt_1'}")
    = Some (Json.Object [(js "eventId", Json.String (js "evt_1"))])
  /\ handle_output
       (scripted (from_list [[cancel_call]; [answer]]) (Threw network_error))
       cancel_call [] true 0
     = Result
         [Exec (js "call_1") (js "cancel_meeting") (jq "{'eventId': 'evt_1'}");
          Push (FunctionCallOutput (js "call_1")
                  (CROSS_MARK :: js " Error cancelling meeting: network error"))]
         0
         (inr ([FunctionCallOutput (js "call_1")
                  (CROSS_MARK :: js " Error cancelling meeting: network error")],
               true))
  /\ 2 <= completions
            (trace (run (scripted (from_list [[cancel_call]; [answer]])
                           (Threw network_error))
                      prompt (js "Cancel evt_1.") [] None 0)).
Proof.
  assert (H : Json.parse (jq "{'eventId': 'evt_1'}")
              = Some (Json.Object [(js "eventId", Json.String (js "evt_1"))]))
    by reflexivity.
  split; [exact H|].
  destruct (calendar_failure_is_a_result
              (scripted (from_list [[cancel_call]; [answer]]) (Threw network_error))
              prompt (js "Cancel evt_1.") None
              (js "call_1") (jq "{'eventId': 'evt_1'}") _ network_error H)
    as (_ & _ & _ & H4 & H5); [discriminate|].
  split.
  - exact (proj2 (H4 [] true 0 0 eq_refl)).
  - apply (H5 (js "cancel_meeting") [] 0 1); [|reflexivity].
    intros Hn. vm_compute in Hn. discriminate Hn.
Defined.

Lemma file_part_stays_attached_witness :
  truthy None = false
  /\ reconcile prompt (js "and what about this page?") None
       [Message (js "user")
          (Parts [InputFile (js "doc-123"); InputText (js "summarise this")]);
        Message (js "assistant") (Text (js "Here is the summary."))]
     = [Message (js "system") (Text prompt);
        Message (js "user")
          (Parts [InputFile (js "doc-123");
                  InputText (js "and what about this page?")]);
        Message (js "assistant") (Text (js "Here is the summary."))].
Proof.
  split; [reflexivity|].
  rewrite (proj1 (file_part_stays_attached prompt (js "and what about this page?") None
                    [Message (js "user")
                       (Parts [InputFile (js "doc-123"); InputText (js "summarise this")]);
                     Message (js "assistant") (Text (js "Here is the summary."))]
                    0 (js "user")
                    [InputFile (js "doc-123"); InputText (js "summarise this")]
                    (js "doc-123")
                    eq_refl eq_refl eq_refl eq_refl
                    (list_elem_of_here _ _))).
  vm_compute. reflexivity.
Defined.

(** * Further properties of the engine, the routes and the calendar service *)

(** ** What a run pushes, and when it stops *)

Section Pushed.

Lemma pushed_app (t1 t2 : list event) :
  Observe.pushed (t1 ++ t2) = Observe.pushed t1 ++ Observe.pushed t2.
Proof. apply omap_app. Qed.

Lemma pushed_pushes (entries : list item) :
  Observe.pushed (Push <$> entries) = entries.
Proof.
  induction entries as [|entry rest IH]; [reflexivity|].
  cbn. f_equal. exact IH.
Qed.

Lemma assistant_not_system (c : content) :
  ~ has_role "system" (Message (js "assistant") c).
Proof. intros H. vm_compute in H. discriminate H. Qed.

Lemma assistant_not_user (c : content) :
  ~ has_role "user" (Message (js "assistant") c).
Proof. intros H. vm_compute in H. discriminate H. Qed.

Lemma system_not_assistant (c : content) :
  ~ has_role "assistant" (Message (js "system") c).
Proof. intros H. vm_compute in H. discriminate H. Qed.

Lemma user_not_assistant (msg : item) :
  role_of msg = Some (js "user") -> ~ has_role "assistant" msg.
Proof.
  unfold has_role. intros H1 H2. rewrite H1 in H2. vm_compute in H2. discriminate H2.
Qed.

Lemma assistant_messages_kind (parts : list output_part) :
  Forall (fun entry => ~ has_role "system" entry /\ ~ has_role "user" entry)
    (assistant_messages parts).
Proof.
  induction parts as [|[text|type] rest IH]; [constructor| |exact IH].
  constructor; [|exact IH].
  split; [apply assistant_not_system|apply assistant_not_user].
Qed.

End Pushed.

Section Accounting.

Context {W : Type} (E : env W).

Local Abbreviation other_role :=
  (fun entry : item => ~ has_role "system" entry /\ ~ has_role "user" entry).

Lemma pushed_dispatch (call_id name arguments : jstr) (args : Json.value) (w : W) :
  Observe.pushed (trace (dispatch E call_id name arguments args w)) = [].
Proof.
  destruct (dispatch_trace E call_id name arguments args w) as [-> | ->]; reflexivity.
Qed.

(** One output item only appends to the conversation, what it appends
    is what it pushes, and it never sets [loopAgent] back to true. *)
Lemma handle_output_pushed (o : output) (input input' : list item)
    (loopAgent loopAgent' : bool) (w : W) :
  value (handle_output E o input loopAgent w) = inr (input', loopAgent') ->
  input' = input ++ Observe.pushed (trace (handle_output E o input loopAgent w))
  /\ (loopAgent = false -> loopAgent' = false)
  /\ (Observe.stops o -> loopAgent' = false).
Proof.
  destruct o as [parts| |call_id name arguments|type].
  - unfold handle_output. rewrite handle_parts_eq. cbn [value trace].
    intros [= <- <-]. rewrite pushed_pushes. split; [reflexivity|]. split.
    + intros ->. destruct (assistant_messages parts); reflexivity.
    + cbn. destruct (assistant_messages parts); [contradiction|reflexivity].
  - intros [= <- <-]. cbn. rewrite app_nil_r. split; [reflexivity|].
    split; [intros H; exact H|contradiction].
  - rewrite handle_output_call. destruct (Json.parse arguments) as [args|];
      [|discriminate].
    cbn zeta. destruct (value (dispatch E call_id name arguments args w)) as [e|text];
      [discriminate|].
    cbn [value trace]. intros [= <- <-].
    rewrite pushed_app, pushed_dispatch. split; [reflexivity|].
    split; [intros H; exact H|contradiction].
  - intros [= <- <-]. cbn. rewrite app_nil_r. split; [reflexivity|].
    split; reflexivity.
Qed.

Lemma handle_output_pushed_kind (o : output) (input : list item)
    (loopAgent : bool) (w : W) :
  Forall other_role (Observe.pushed (trace (handle_output E o input loopAgent w))).
Proof.
  destruct o as [parts| |call_id name arguments|type].
  - unfold handle_output. rewrite handle_parts_eq. cbn [trace].
    rewrite pushed_pushes. apply assistant_messages_kind.
  - constructor.
  - rewrite handle_output_call. destruct (Json.parse arguments) as [args|];
      [|constructor].
    cbn zeta. destruct (value (dispatch E call_id name arguments args w)) as [e|text];
      cbn [trace]; [rewrite pushed_dispatch; constructor|].
    rewrite pushed_app, pushed_dispatch. repeat constructor; discriminate.
  - constructor.
Qed.

Lemma handle_outputs_pushed (outputs : list output) (input input' : list item)
    (loopAgent loopAgent' : bool) (w : W) :
  value (handle_outputs E outputs input loopAgent w) = inr (input', loopAgent') ->
  input' = input ++ Observe.pushed (trace (handle_outputs E outputs input loopAgent w))
  /\ (loopAgent = false -> loopAgent' = false)
  /\ (Exists Observe.stops outputs -> loopAgent' = false).
Proof.
  revert input loopAgent w.
  induction outputs as [|o rest IH]; intros input loopAgent w.
  - intros [= <- <-]. cbn. rewrite app_nil_r. split; [reflexivity|].
    split; [intros H; exact H|]. intros H. inversion H.
  - rewrite handle_outputs_cons. cbn zeta.
    destruct (value (handle_output E o input loopAgent w)) as [e|[input1 loopAgent1]]
      eqn:Hv; [discriminate|].
    cbn [value trace]. intros H.
    destruct (handle_output_pushed _ _ _ _ _ _ Hv) as (-> & Hkeep & Hstop).
    destruct (IH _ _ _ H) as (-> & Hkeep' & Hstop').
    rewrite pushed_app, app_assoc. split; [reflexivity|]. split.
    + intros Hf. auto.
    + intros Hex. inversion Hex as [? ? Ho|? ? Hrest]; subst; auto.
Qed.

Lemma handle_outputs_pushed_kind (outputs : list output) (input : list item)
    (loopAgent : bool) (w : W) :
  Forall other_role (Observe.pushed (trace (handle_outputs E outputs input loopAgent w))).
Proof.
  revert input loopAgent w.
  induction outputs as [|o rest IH]; intros input loopAgent w; [constructor|].
  rewrite handle_outputs_cons. cbn zeta.
  pose proof (handle_output_pushed_kind o input loopAgent w) as Ho.
  destruct (value (handle_output E o input loopAgent w)) as [e|[input1 loopAgent1]];
    cbn [trace]; [exact Ho|].
  rewrite pushed_app. apply Forall_app. split; [exact Ho|apply IH].
Qed.

(** Reasoning items and messages without text leave everything as it
    is. *)
Lemma handle_outputs_quiet (outputs : list output) (input : list item)
    (loopAgent : bool) (w : W) :
  Forall Observe.quiet outputs ->
  handle_outputs E outputs input loopAgent w = Result [] w (inr (input, loopAgent)).
Proof.
  induction 1 as [|o rest Ho _ IH]; [reflexivity|].
  rewrite handle_outputs_cons. cbn zeta.
  assert (Hq : handle_output E o input loopAgent w = Result [] w (inr (input, loopAgent))).
  { destruct o as [parts| |call_id name arguments|type]; try contradiction.
    - unfold handle_output. rewrite handle_parts_eq. cbn in Ho. rewrite Ho.
      cbn. rewrite app_nil_r. reflexivity.
    - reflexivity. }
  rewrite Hq. cbn [value trace world]. rewrite IH. reflexivity.
Qed.

Variables (rawPrompt userInput : jstr) (fileId : option jstr).

Local Abbreviation rec := (reconcile rawPrompt userInput fileId).

(** One turn: the reconciled conversation, then what the turn
    pushed. *)
Lemma iteration_pushed (input input' : list item) (loopAgent' : bool) (w : W) :
  value (iteration E rawPrompt userInput fileId input w) = inr (input', loopAgent') ->
  input' = rec input
           ++ Observe.pushed (trace (iteration E rawPrompt userInput fileId input w))
  /\ Forall other_role
       (Observe.pushed (trace (iteration E rawPrompt userInput fileId input w))).
Proof.
  rewrite iteration_eq, finalPrompt_raw.
  destruct (responses_create E (rec input) w) as [[response|e] w1]; [|discriminate].
  cbn zeta. cbn [value trace]. intros Hv.
  apply handle_outputs_pushed in Hv as (-> & _ & _).
  change (Observe.pushed (Completion ?a ?b :: ?t)) with (Observe.pushed t).
  rewrite !pushed_app, pushed_pushes, <- app_assoc. split; [reflexivity|].
  apply Forall_app. split; [|apply handle_outputs_pushed_kind].
  apply list.Forall_forall. intros x Hx.
  apply list_elem_of_fmap in Hx as (o & -> & _).
  destruct o; split; discriminate.
Qed.

End Accounting.

(** ** More on [run]: failures of the service, answers, empty answers *)

Section Rounds.

Context {W : Type} (E : env W).
Variables (rawPrompt userInput : jstr) (fileId : option jstr).

Local Abbreviation rec := (reconcile rawPrompt userInput fileId).
Local Abbreviation loop := (agent_loop E rawPrompt userInput fileId).
Local Abbreviation other_role :=
  (fun entry : item => ~ has_role "system" entry /\ ~ has_role "user" entry).

(** What follows the completion call in a turn holds no completion
    call. *)
Lemma iteration_tail_no_completion (response : list output) (input : list item)
    (w1 : W) (ev : event) :
  ev ∈ (Push <$> (invocation <$> filter is_function_call response))
       ++ trace (handle_outputs E response input true w1) ->
  ~ is_completion ev.
Proof.
  intros Hin.
  assert (Hq : Forall (fun ev => ~ is_completion ev)
                 ((Push <$> (invocation <$> filter is_function_call response))
                  ++ trace (handle_outputs E response input true w1))).
  { apply Forall_app. split; [apply pushes_no_completion|].
    apply handle_outputs_no_completion. }
  rewrite list.Forall_forall in Hq. exact (Hq _ Hin).
Qed.

Lemma agent_loop_service_failure (n : nat) (loopAgent : bool) (input : list item)
    (w : W) (request : list item) (e : thrown) :
  Completion request (Threw e) ∈ trace (loop n loopAgent input w) ->
  value (loop n loopAgent input w) = inl (Rejected e)
  /\ exists pre, trace (loop n loopAgent input w) = pre ++ [Completion request (Threw e)].
Proof.
  revert loopAgent input w. induction n as [|n IH]; intros loopAgent input w.
  - intros H. inversion H.
  - destruct loopAgent; [|rewrite agent_loop_stop; intros H; inversion H].
    rewrite agent_loop_S. cbn zeta. rewrite iteration_eq.
    destruct (responses_create E _ w) as [[response0|e0] w1].
    + cbn zeta. cbn [value trace world].
      destruct (value (handle_outputs E response0 _ true w1)) as [e1|[input' loopAgent']]
        eqn:Hv; cbn [trace value].
      * intros Hin. exfalso. apply elem_of_cons in Hin as [Hin|Hin]; [discriminate Hin|].
        exact (iteration_tail_no_completion _ _ _ _ Hin I).
      * intros Hin. apply elem_of_app in Hin as [Hin|Hin].
        -- exfalso. apply elem_of_cons in Hin as [Hin|Hin]; [discriminate Hin|].
           exact (iteration_tail_no_completion _ _ _ _ Hin I).
        -- destruct (IH _ _ _ Hin) as (Hval & pre & Hpre). split; [exact Hval|].
           rewrite Hpre. eexists. rewrite app_assoc. reflexivity.
    + cbn [value trace]. intros Hin. apply list_elem_of_singleton in Hin.
      injection Hin as -> ->. split; [reflexivity|]. exists []. reflexivity.
Qed.

(** X1.  When a call of [openai.responses.create] rejects, [run] rejects
    with the value thrown, and that call is the last thing [run] did:
    the await at the head of the loop body is inside no [try], so
    nothing is pushed, no tool runs and no further call is made after
    it. *)
Theorem service_failure_rejects (input : list item) (w : W)
    (request : list item) (e : thrown) :
  Completion request (Threw e) ∈ trace (run E rawPrompt userInput input fileId w) ->
  value (run E rawPrompt userInput input fileId w) = inl (Rejected e)
  /\ list.last (trace (run E rawPrompt userInput input fileId w))
     = Some (Completion request (Threw e)).
Proof.
  intros Hin. unfold run in *.
  destruct (agent_loop_service_failure _ _ _ _ _ _ Hin) as (Hval & pre & Hpre).
  split; [exact Hval|]. rewrite Hpre. apply last_snoc.
Qed.

(** X2.  A first response that holds a message with a text part, or an
    item of a type the loop does not know, ends the loop: [run] calls
    the completion service once, whatever else the response holds.  So
    the results of the function calls of that response are never sent
    back to the model. *)
Theorem text_answer_ends_the_loop (input : list item) (w w1 : W)
    (response : list output) :
  responses_create E
    (reconcile (finalPrompt rawPrompt (getSaoPauloTodayInfo E w)) userInput fileId input) w
  = (Returned response, w1) ->
  Exists Observe.stops response ->
  completions (trace (run E rawPrompt userInput input fileId w)) = 1
  /\ responses_of (trace (run E rawPrompt userInput input fileId w)) = [response].
Proof.
  intros Hr Hstop. unfold run, MAX_AGENT_LOOP. rewrite agent_loop_S. cbn zeta.
  rewrite iteration_eq, Hr. cbn zeta. cbn [value trace world].
  match goal with
  | |- context [handle_outputs E response ?i true w1] => set (start := i)
  end.
  pose proof (handle_outputs_no_completion E response start true w1) as Hq.
  assert (Hone : forall t : list event,
             Forall (fun ev => ~ is_completion ev) t ->
             completions
               (Completion
                  (reconcile (finalPrompt rawPrompt (getSaoPauloTodayInfo E w))
                     userInput fileId input) (Returned response)
                  :: (Push <$> (invocation <$> filter is_function_call response)) ++ t) = 1
             /\ responses_of
                  (Completion
                     (reconcile (finalPrompt rawPrompt (getSaoPauloTodayInfo E w))
                        userInput fileId input) (Returned response)
                     :: (Push <$> (invocation <$> filter is_function_call response)) ++ t)
                = [response]).
  { intros t Ht. change (Completion ?a ?b :: ?t) with ([Completion a b] ++ t).
    rewrite !completions_app, !responses_of_app.
    rewrite (proj1 (no_completion_quiet _ (pushes_no_completion _))).
    rewrite (proj2 (no_completion_quiet _ (pushes_no_completion _))).
    rewrite (proj1 (no_completion_quiet _ Ht)), (proj2 (no_completion_quiet _ Ht)).
    split; reflexivity. }
  destruct (value (handle_outputs E response start true w1))
    as [e|[input' loopAgent']] eqn:Hv; cbn [trace].
  - apply Hone. exact Hq.
  - apply handle_outputs_pushed in Hv as (_ & _ & Hfalse).
    rewrite (Hfalse Hstop), agent_loop_stop. cbn [trace]. rewrite app_nil_r.
    apply Hone. exact Hq.
Qed.

Lemma agent_loop_quiet (n : nat) (input : list item) (w : W) :
  (forall request w0, exists response w1,
      responses_create E request w0 = (Returned response, w1)
      /\ Forall Observe.quiet response) ->
  completions (trace (loop n true input w)) = n
  /\ Observe.pushed (trace (loop n true input w)) = []
  /\ value (loop n true input w) = inr (Nat.iter n rec input).
Proof.
  intros Hall. revert input w. induction n as [|n IH]; intros input w.
  - cbn. repeat split; reflexivity.
  - rewrite agent_loop_S. cbn zeta. rewrite iteration_eq, finalPrompt_raw.
    destruct (Hall (rec input) w) as (response & w1 & Hr & Hq). rewrite Hr.
    cbn zeta. rewrite (handle_outputs_quiet E response _ true w1 Hq).
    cbn [value trace world].
    assert (Hnone : filter is_function_call response = []).
    { clear Hr. induction Hq as [|o rest Ho _ IHq]; [reflexivity|].
      rewrite filter_cons. destruct o; try contradiction; exact IHq. }
    rewrite Hnone. cbn [fmap list_fmap app]. rewrite app_nil_r.
    destruct (IH (rec input) w1) as (IH1 & IH2 & IH3).
    rewrite IH3. cbn [trace value].
    change (Completion ?a ?b :: ?t) with ([Completion a b] ++ t).
    rewrite completions_app, pushed_app, IH1, IH2.
    rewrite Nat.iter_succ_r. repeat split; reflexivity.
Qed.

(** X3.  When every response is made of reasoning items and of messages
    without a text part, [run] calls the service [MAX_AGENT_LOOP] times,
    pushes nothing, and returns the conversation reconciled (twice
    over, which is the same as once when the conversation was empty or
    had a user message): no assistant message is added.  The system
    message holds the prompt template as it was read (see C1). *)
Theorem empty_answers_exhaust_the_loop (input : list item) (w : W) :
  (forall request w0, exists response w1,
      responses_create E request w0 = (Returned response, w1)
      /\ Forall Observe.quiet response) ->
  completions (trace (run E rawPrompt userInput input fileId w)) = MAX_AGENT_LOOP
  /\ Observe.pushed (trace (run E rawPrompt userInput input fileId w)) = []
  /\ value (run E rawPrompt userInput input fileId w) = inr (rec (rec input))
  /\ (input = [] \/ (exists i, findLastIndex (has_role "user") input = Some i) ->
      value (run E rawPrompt userInput input fileId w) = inr (rec input)).
Proof.
  intros Hall. unfold run.
  destruct (agent_loop_quiet MAX_AGENT_LOOP input w Hall) as (H1 & H2 & H3).
  split; [exact H1|]. split; [exact H2|].
  assert (H4 : value (loop MAX_AGENT_LOOP true input w) = inr (rec (rec input))).
  { rewrite H3. f_equal. unfold MAX_AGENT_LOOP. cbn [Nat.iter nat_rect].
    apply reconcile_idempotent. right. apply reconcile_has_user. }
  split; [exact H4|].
  intros Hin. rewrite H4. f_equal. apply reconcile_idempotent. exact Hin.
Qed.

(** The last match of a list followed by entries that do not match. *)
Lemma findLastIndex_app_other {A : Type} (P : A -> Prop) `{forall x, Decision (P x)}
    (l1 l2 : list A) :
  Forall (fun x => ~ P x) l2 ->
  findLastIndex P (l1 ++ l2) = findLastIndex P l1.
Proof.
  intros Hl2. induction l1 as [|x l1 IH].
  - cbn [app findLastIndex]. apply findLastIndex_None. exact Hl2.
  - cbn [app findLastIndex]. rewrite IH. reflexivity.
Qed.

(** Entries pushed after a conversation that has a user message stay
    where they are when the conversation is reconciled again. *)
Lemma reconcile_app_other (base l : list item) :
  (exists i, findLastIndex (has_role "user") base = Some i) ->
  Forall other_role l ->
  rec (base ++ l) = rec base ++ l.
Proof.
  intros (i & Hi) Hl.
  destruct (last_user_after_filter (update_message userInput fileId) base i
              (role_of_update_message userInput fileId) Hi) as (j & Hj & _).
  assert (Hbase : base <> []) by (intros ->; discriminate Hi).
  assert (Hns : filter (fun msg => ~ has_role "system" msg) l = l).
  { apply filter_non_system_id. eapply Forall_impl; [exact Hl|]. intros x [Hx _]. exact Hx. }
  assert (Hnu : Forall (fun msg => ~ has_role "user" msg) l).
  { eapply Forall_impl; [exact Hl|]. intros x [_ Hx]. exact Hx. }
  rewrite (reconcile_update rawPrompt userInput fileId base j Hbase Hj).
  rewrite (reconcile_update rawPrompt userInput fileId (base ++ l) j).
  - rewrite list.filter_app, Hns.
    apply findLastIndex_Some in Hj as (x & Hx & _). apply lookup_lt_Some in Hx.
    rewrite alter_app_l by exact Hx. reflexivity.
  - destruct base; [contradiction|discriminate].
  - rewrite list.filter_app, Hns, findLastIndex_app_other by exact Hnu. exact Hj.
Qed.

Lemma agent_loop_stable (n : nat) (loopAgent : bool) (base l output : list item) (w : W) :
  rec base = base ->
  (exists i, findLastIndex (has_role "user") base = Some i) ->
  Forall other_role l ->
  value (loop n loopAgent (base ++ l) w) = inr output ->
  output = base ++ l ++ Observe.pushed (trace (loop n loopAgent (base ++ l) w)).
Proof.
  intros Hfix Huser. revert loopAgent l w.
  induction n as [|n IH]; intros loopAgent l w Hl.
  - intros [= <-]. cbn. rewrite !app_nil_r. reflexivity.
  - destruct loopAgent.
    2:{ rewrite agent_loop_stop. intros [= <-]. cbn. rewrite !app_nil_r. reflexivity. }
    rewrite agent_loop_S. cbn zeta.
    destruct (value (iteration E rawPrompt userInput fileId (base ++ l) w))
      as [e|[input' loopAgent']] eqn:Hv; [discriminate|].
    cbn [value trace].
    destruct (iteration_pushed E rawPrompt userInput fileId _ _ _ _ Hv) as (-> & Hkind).
    rewrite (reconcile_app_other base l Huser Hl), Hfix, <- app_assoc.
    intros Hout. apply IH in Hout; [|apply Forall_app; split; assumption].
    rewrite Hout, pushed_app, <- !app_assoc. reflexivity.
Qed.

(** X4.  When the conversation given to [run] is empty or has a user
    message, and [run] returns, the result is the reconciled
    conversation followed by the entries pushed, in the order they were
    pushed: the later turns of the loop change nothing that is already
    there.  The system message holds the prompt template as it was
    read (see C1). *)
Theorem run_returns_reconciled_then_pushed (input output : list item) (w : W) :
  input = [] \/ (exists i, findLastIndex (has_role "user") input = Some i) ->
  value (run E rawPrompt userInput input fileId w) = inr output ->
  output = rec input ++ Observe.pushed (trace (run E rawPrompt userInput input fileId w)).
Proof.
  intros Hin. unfold run, MAX_AGENT_LOOP. rewrite agent_loop_S. cbn zeta.
  destruct (value (iteration E rawPrompt userInput fileId input w))
    as [e|[input' loopAgent']] eqn:Hv; [discriminate|].
  cbn [value trace].
  destruct (iteration_pushed E rawPrompt userInput fileId _ _ _ _ Hv) as (-> & Hkind).
  intros Hout. apply agent_loop_stable in Hout.
  - rewrite Hout, pushed_app. reflexivity.
  - apply reconcile_idempotent. exact Hin.
  - apply reconcile_has_user.
  - exact Hkind.
Qed.

End Rounds.

(** ** More on tool calls *)

Section Tools.

Context {W : Type} (E : env W).
Variables (rawPrompt userInput : jstr) (fileId : option jstr).

Local Abbreviation loop := (agent_loop E rawPrompt userInput fileId).

Lemma tool_of_name_registered (name : jstr) :
  name ∈ registry <-> exists t, tool_of_name name = Some t.
Proof.
  split.
  - intros H. unfold registry in H.
    repeat (apply elem_of_cons in H as [->|H]; [eexists; reflexivity|]).
    inversion H.
  - intros (t & Ht).
    destruct (decide (name ∈ registry)) as [Hin|Hout]; [exact Hin|].
    rewrite (tool_of_name_unregistered name Hout) in Ht. discriminate Ht.
Qed.

(** An output item that throws whatever the conversation, the flag and
    the world. *)
Local Abbreviation throws_always :=
  (fun o : output =>
     forall input loopAgent w,
     exists e, value (handle_output E o input loopAgent w) = inl e).

Lemma handle_outputs_throwing (outputs : list output) (input : list item)
    (loopAgent : bool) (w : W) :
  Exists throws_always outputs ->
  exists e, value (handle_outputs E outputs input loopAgent w) = inl e.
Proof.
  revert input loopAgent w.
  induction outputs as [|o rest IH]; intros input loopAgent w Hex.
  - inversion Hex.
  - rewrite handle_outputs_cons. cbn zeta.
    destruct (value (handle_output E o input loopAgent w)) as [e|[input1 loopAgent1]]
      eqn:Hv; [exists e; reflexivity|].
    cbn [value]. apply IH. inversion Hex as [? ? Hbad|]; subst; [|assumption].
    exfalso. destruct (Hbad input loopAgent w) as (e & He).
    rewrite He in Hv. discriminate Hv.
Qed.

Lemma agent_loop_throwing (n : nat) (loopAgent : bool) (input : list item) (w : W)
    (request : list item) (response : list output) :
  Completion request (Returned response) ∈ trace (loop n loopAgent input w) ->
  Exists throws_always response ->
  exists e, value (loop n loopAgent input w) = inl e.
Proof.
  revert loopAgent input w. induction n as [|n IH]; intros loopAgent input w.
  - intros H. inversion H.
  - destruct loopAgent; [|rewrite agent_loop_stop; intros H; inversion H].
    rewrite agent_loop_S. cbn zeta. rewrite iteration_eq.
    destruct (responses_create E _ w) as [[response0|e] w1];
      [|intros _ _; eexists; reflexivity].
    cbn zeta. cbn [value trace world].
    destruct (value (handle_outputs E response0 _ true w1)) as [e|[input' loopAgent']]
      eqn:Hv; [intros _ _; eexists; reflexivity|].
    cbn [trace value]. intros Hin Hbad.
    apply elem_of_app in Hin as [Hin|Hin]; [|eapply IH; eassumption].
    exfalso. apply elem_of_cons in Hin as [Hin|Hin].
    + injection Hin as _ ->.
      match type of Hv with
      | value (handle_outputs E response0 ?i true w1) = _ =>
          destruct (handle_outputs_throwing response0 i true w1 Hbad) as (e & He)
      end.
      rewrite He in Hv. discriminate Hv.
    + exact (iteration_tail_no_completion E _ _ _ _ Hin I).
Qed.

(** X5.  A function call of a registered tool whose arguments are the
    JSON text [null] makes the loop body throw a TypeError when the
    [case] reads its first field of [args]: no tool runs, no result is
    pushed, and [run] rejects when a response it received holds such a
    call. *)
Theorem null_arguments_raise (call_id name arguments : jstr) :
  name ∈ registry ->
  Json.parse arguments = Some Json.Null ->
  (forall input loopAgent w,
      handle_output E (OutFunctionCall call_id name arguments) input loopAgent w
      = Result [] w (inl TypeError))
  /\ (forall input w request response,
         Completion request (Returned response)
           ∈ trace (run E rawPrompt userInput input fileId w) ->
         OutFunctionCall call_id name arguments ∈ response ->
         exists e, value (run E rawPrompt userInput input fileId w) = inl e).
Proof.
  intros Hreg Hnull. apply tool_of_name_registered in Hreg as (t & Ht).
  assert (Hraise : forall input loopAgent w,
             handle_output E (OutFunctionCall call_id name arguments) input loopAgent w
             = Result [] w (inl TypeError)).
  { intros input loopAgent w. rewrite handle_output_call, Hnull. cbn zeta.
    rewrite (dispatch_null E call_id name arguments t w Ht). reflexivity. }
  split; [exact Hraise|].
  intros input w request response Hin Hcall. unfold run in *.
  eapply agent_loop_throwing; [exact Hin|].
  apply list.Exists_exists. exists (OutFunctionCall call_id name arguments).
  split; [exact Hcall|]. intros input' loopAgent' w'. rewrite Hraise.
  eexists. reflexivity.
Qed.

(** A tool runs only when its name is registered and the arguments are
    JSON other than [null]. *)
Lemma handle_output_exec_args (o : output) (input : list item) (loopAgent : bool)
    (w : W) (call_id name arguments : jstr) :
  Exec call_id name arguments ∈ trace (handle_output E o input loopAgent w) ->
  o = OutFunctionCall call_id name arguments
  /\ name ∈ registry
  /\ exists args, Json.parse arguments = Some args /\ args <> Json.Null.
Proof.
  intros Hin. pose proof (handle_output_exec E _ _ _ _ _ _ _ Hin) as ->.
  split; [reflexivity|]. rewrite handle_output_call in Hin.
  destruct (Json.parse arguments) as [args|]; [|inversion Hin]. cbn zeta in Hin.
  assert (Hd : Exec call_id name arguments
                 ∈ trace (dispatch E call_id name arguments args w)).
  { destruct (value (dispatch E call_id name arguments args w)); cbn [trace] in Hin;
      [exact Hin|].
    apply elem_of_app in Hin as [Hin|Hin]; [exact Hin|].
    apply list_elem_of_singleton in Hin. discriminate Hin. }
  destruct (tool_of_name name) as [t|] eqn:Ht.
  - split; [apply tool_of_name_registered; eauto|]. exists args. split; [reflexivity|].
    intros ->. rewrite (dispatch_null E call_id name arguments t w Ht) in Hd.
    inversion Hd.
  - rewrite (dispatch_unregistered E call_id name arguments args w Ht) in Hd.
    inversion Hd.
Qed.

Lemma handle_outputs_exec_args (outputs : list output) (input : list item)
    (loopAgent : bool) (w : W) (call_id name arguments : jstr) :
  Exec call_id name arguments ∈ trace (handle_outputs E outputs input loopAgent w) ->
  name ∈ registry
  /\ exists args, Json.parse arguments = Some args /\ args <> Json.Null.
Proof.
  revert input loopAgent w. induction outputs as [|o rest IH]; intros input loopAgent w.
  - intros H. inversion H.
  - rewrite handle_outputs_cons. cbn zeta. intros H.
    destruct (value (handle_output E o input loopAgent w)) as [e|[input' loopAgent']]
      eqn:Hv; cbn [trace] in H.
    + apply handle_output_exec_args in H as (_ & H). exact H.
    + apply elem_of_app in H as [H|H].
      * apply handle_output_exec_args in H as (_ & H). exact H.
      * eapply IH. exact H.
Qed.

Lemma agent_loop_exec (n : nat) (loopAgent : bool) (input : list item) (w : W)
    (call_id name arguments : jstr) :
  Exec call_id name arguments ∈ trace (loop n loopAgent input w) ->
  name ∈ registry
  /\ (exists args, Json.parse arguments = Some args /\ args <> Json.Null)
  /\ exists request response,
       Completion request (Returned response) ∈ trace (loop n loopAgent input w)
       /\ OutFunctionCall call_id name arguments ∈ response.
Proof.
  revert loopAgent input w. induction n as [|n IH]; intros loopAgent input w.
  - intros H. inversion H.
  - destruct loopAgent; [|rewrite agent_loop_stop; intros H; inversion H].
    rewrite agent_loop_S. cbn zeta.
    assert (Hit : Exec call_id name arguments
                    ∈ trace (iteration E rawPrompt userInput fileId input w) ->
                  name ∈ registry
                  /\ (exists args, Json.parse arguments = Some args /\ args <> Json.Null)
                  /\ exists request response,
                       Completion request (Returned response)
                         ∈ trace (iteration E rawPrompt userInput fileId input w)
                       /\ OutFunctionCall call_id name arguments ∈ response).
    { rewrite iteration_eq.
      destruct (responses_create E _ w) as [[response0|e] w1]; cbn zeta; cbn [trace].
      - intros Hin. apply elem_of_cons in Hin as [Hin|Hin]; [discriminate Hin|].
        apply elem_of_app in Hin as [Hin|Hin].
        + apply list_elem_of_fmap in Hin as (x & Hx & _). discriminate Hx.
        + destruct (handle_outputs_exec_args _ _ _ _ _ _ _ Hin) as (H1 & H2).
          split; [exact H1|]. split; [exact H2|].
          eexists _, response0. split; [left|].
          eapply handle_outputs_exec. exact Hin.
      - intros Hin. apply list_elem_of_singleton in Hin. discriminate Hin. }
    destruct (value (iteration E rawPrompt userInput fileId input w))
      as [e|[input' loopAgent']]; cbn [trace]; [exact Hit|].
    intros Hin. apply elem_of_app in Hin as [Hin|Hin].
    + destruct (Hit Hin) as (H1 & H2 & request & response & H3 & H4).
      split; [exact H1|]. split; [exact H2|].
      exists request, response. split; [apply elem_of_app; left; exact H3|exact H4].
    + destruct (IH _ _ _ Hin) as (H1 & H2 & request & response & H3 & H4).
      split; [exact H1|]. split; [exact H2|].
      exists request, response. split; [apply elem_of_app; right; exact H3|exact H4].
Qed.

(** X6.  [run] executes a tool only for a function call of a response
    it received during this run, only under one of the five registered
    names, and only with arguments that are JSON other than [null]. *)
Theorem tools_run_only_on_request (input : list item) (w : W)
    (call_id name arguments : jstr) :
  Exec call_id name arguments ∈ trace (run E rawPrompt userInput input fileId w) ->
  name ∈ registry
  /\ (exists args, Json.parse arguments = Some args /\ args <> Json.Null)
  /\ exists request response,
       Completion request (Returned response)
         ∈ trace (run E rawPrompt userInput input fileId w)
       /\ OutFunctionCall call_id name arguments ∈ response.
Proof. unfold run. apply agent_loop_exec. Qed.

(** X7.  [get_portfolio_info] called with a [portfolio] argument that
    cannot be converted to a string (an object with an own key
    [toString], say) makes the loop body throw a TypeError: the template
    literal of [getPortfolioInfo] is inside no [try].  The tool was
    called, no result is pushed for the call, and [run] rejects when a
    response it received holds such a call. *)
Theorem portfolio_conversion_failure_rejects (call_id arguments : jstr)
    (args : Json.value) :
  Json.parse arguments = Some args ->
  args <> Json.Null ->
  Json.display (number_to_string E) (Json.get args "portfolio") = None ->
  (forall input loopAgent w,
      handle_output E (OutFunctionCall call_id (js "get_portfolio_info") arguments)
        input loopAgent w
      = Result [Exec call_id (js "get_portfolio_info") arguments] w (inl TypeError))
  /\ (forall input w request response,
         Completion request (Returned response)
           ∈ trace (run E rawPrompt userInput input fileId w) ->
         OutFunctionCall call_id (js "get_portfolio_info") arguments ∈ response ->
         exists e, value (run E rawPrompt userInput input fileId w) = inl e).
Proof.
  intros Hparse Hargs Hnone.
  assert (Hraise : forall input loopAgent w,
             handle_output E (OutFunctionCall call_id (js "get_portfolio_info") arguments)
               input loopAgent w
             = Result [Exec call_id (js "get_portfolio_info") arguments] w (inl TypeError)).
  { intros input loopAgent w. rewrite handle_output_call, Hparse. cbn zeta.
    destruct (dispatch_runs E call_id (js "get_portfolio_info") arguments args
                get_portfolio_info w eq_refl Hargs)
      as [(text & w' & Hd)|(_ & _ & Hd)].
    - exfalso. unfold dispatch in Hd.
      change (tool_of_name (js "get_portfolio_info")) with (Some get_portfolio_info) in Hd.
      cbn match in Hd. rewrite bind_eq, (read_not_null _ _ _ Hargs) in Hd.
      cbn [value trace world] in Hd. rewrite bind_eq in Hd.
      cbn [emit value trace world] in Hd. unfold getPortfolioInfo in Hd.
      rewrite Hnone in Hd. discriminate Hd.
    - rewrite Hd. reflexivity. }
  split; [exact Hraise|].
  intros input w request response Hin Hcall. unfold run in *.
  eapply agent_loop_throwing; [exact Hin|].
  apply list.Exists_exists.
  exists (OutFunctionCall call_id (js "get_portfolio_info") arguments).
  split; [exact Hcall|]. intros input' loopAgent' w'. rewrite Hraise.
  eexists. reflexivity.
Qed.

End Tools.

(** ** [replaceVariable] on a name without the dollar *)

Section PlainName.

Lemma not_syntax_char (c : N) :
  Pattern.is_syntax_char c = false ->
  N.eqb c Pattern.BACKSLASH = false /\ N.eqb c Pattern.DOLLAR = false.
Proof.
  unfold Pattern.is_syntax_char. cbn [existsb]. intros H.
  repeat (apply orb_false_elim in H as [? H]). split; assumption.
Qed.

Lemma compile_plain (variable : jstr) :
  Forall (fun c => Pattern.is_syntax_char c = false) variable ->
  Pattern.compile variable = Some (Pattern.Lit <$> variable).
Proof.
  induction 1 as [|c rest Hc _ IH]; [reflexivity|].
  cbn [Pattern.compile]. destruct (not_syntax_char c Hc) as [-> ->].
  rewrite Hc, IH. reflexivity.
Qed.

Lemma match_here_literals (p s : jstr) :
  Pattern.match_here (Pattern.Lit <$> p) s = (fun _ => length p) <$> strip_prefix p s.
Proof.
  revert s. induction p as [|c p IH]; intros s; [reflexivity|].
  destruct s as [|x s]; [reflexivity|].
  cbn [fmap list_fmap Pattern.match_here strip_prefix length].
  destruct (N.eqb x c); [|reflexivity].
  change (list_fmap _ _ Pattern.Lit p) with (Pattern.Lit <$> p).
  rewrite IH. destruct (strip_prefix p s); reflexivity.
Qed.

(** For a pattern made of literals the global replacement is the
    substitution of every occurrence, left to right. *)
Lemma replace_global_literals (c : N) (p rep : jstr) (skip : nat) (s : jstr) :
  Pattern.replace_global (Pattern.Lit <$> (c :: p)) rep skip s
  = substitute_spec (c :: p) rep skip s.
Proof.
  revert skip. induction s as [|x s IH]; intros skip.
  - destruct skip; reflexivity.
  - cbn [Pattern.replace_global substitute_spec]. destruct skip as [|k]; [|apply IH].
    rewrite match_here_literals.
    destruct (strip_prefix (c :: p) (x :: s)) as [rest|];
      cbn [fmap option_fmap option_map length]; rewrite IH; [|reflexivity].
    replace (S (length p) - 1) with (length p) by lia. reflexivity.
Qed.

(** X8.  Called with a variable name that holds no syntax character of
    regular expressions (so without the dollar), [replaceVariable]
    replaces every occurrence of the dollar followed by the name, left
    to right, by the value. *)
Theorem replaceVariable_plain_name (text variable dynamicValue : jstr) :
  Forall (fun c => Pattern.is_syntax_char c = false) variable ->
  replaceVariable text variable dynamicValue
  = Some (substitute_spec (Pattern.DOLLAR :: variable) dynamicValue 0 text).
Proof.
  intros Hplain. unfold replaceVariable.
  assert (Hc : Pattern.compile (Pattern.BACKSLASH :: Pattern.DOLLAR :: variable)
               = Some (Pattern.Lit <$> (Pattern.DOLLAR :: variable))).
  { cbn [Pattern.compile]. change (N.eqb Pattern.BACKSLASH Pattern.BACKSLASH) with true.
    change (N.eqb Pattern.DOLLAR Pattern.DOLLAR) with true. cbn match.
    rewrite (compile_plain variable Hplain). reflexivity. }
  rewrite Hc. f_equal.
  destruct dynamicValue; apply replace_global_literals.
Qed.

End PlainName.

(** ** The inline marker: found whenever it is there *)

Section MarkerFound.

Lemma strip_prefix_app (p rest : jstr) : strip_prefix p (p ++ rest) = Some rest.
Proof.
  induction p as [|c p IH]; [reflexivity|].
  cbn [app strip_prefix]. rewrite N.eqb_refl. exact IH.
Qed.

Lemma span_id_app (id after : jstr) :
  Marker.RBRACKET ∉ id ->
  Marker.span_id (id ++ Marker.RBRACKET :: after) = (id, Marker.RBRACKET :: after).
Proof.
  induction id as [|c id IH]; intros Hn.
  - cbn [app Marker.span_id]. rewrite N.eqb_refl. reflexivity.
  - cbn [app Marker.span_id].
    destruct (N.eqb c Marker.RBRACKET) eqn:Hc.
    + exfalso. apply Hn. apply N.eqb_eq in Hc as ->. left.
    + rewrite IH; [reflexivity|]. intros H. apply Hn. right. exact H.
Qed.

Lemma marker_here_exact (id after : jstr) :
  id <> [] ->
  Marker.RBRACKET ∉ id ->
  Marker.marker_here (js "[File attached: " ++ id ++ Marker.RBRACKET :: after)
  = Some (id, after).
Proof.
  intros Hid Hn. unfold Marker.marker_here.
  rewrite strip_prefix_app, (span_id_app id after Hn).
  destruct id; [contradiction|reflexivity].
Qed.

Lemma find_marker_here (s id after : jstr) :
  Marker.marker_here s = Some (id, after) ->
  Marker.find_marker s = Some ([], id, after).
Proof. intros H. destruct s; cbn [Marker.find_marker]; rewrite H; reflexivity. Qed.

Lemma find_marker_complete (before id after : jstr) :
  id <> [] ->
  Marker.RBRACKET ∉ id ->
  is_Some (Marker.find_marker
             (before ++ js "[File attached: " ++ id ++ Marker.RBRACKET :: after)).
Proof.
  intros Hid Hn. induction before as [|c before IH].
  - rewrite app_nil_l, (find_marker_here _ id after); [eexists; reflexivity|].
    apply marker_here_exact; assumption.
  - cbn [app Marker.find_marker].
    destruct (Marker.marker_here _) as [[captured rest]|]; [eexists; reflexivity|].
    destruct IH as ([[b i] a] & ->). eexists; reflexivity.
Qed.

(** X9.  [extractFileIdFromContent] returns an id exactly when the
    content holds the text [[File attached: ], then a non-empty run of
    code units other than the closing bracket, then the closing
    bracket. *)
Theorem marker_extracted_iff_present (content : jstr) :
  is_Some (Marker.extractFileIdFromContent content)
  <-> exists before id after,
        content = before ++ js "[File attached: " ++ id ++ Marker.RBRACKET :: after
        /\ id <> [] /\ Marker.RBRACKET ∉ id.
Proof.
  unfold Marker.extractFileIdFromContent. split.
  - destruct (Marker.find_marker content) as [[[before id] after]|] eqn:Hf.
    + intros _. exists before, id, after. apply find_marker_split. exact Hf.
    + intros (x & Hx). discriminate Hx.
  - intros (before & id & after & -> & Hid & Hn).
    destruct (find_marker_complete before id after Hid Hn) as ([[b i] a] & ->).
    eexists; reflexivity.
Qed.

Lemma find_marker_fileMessage (fileId content : jstr) :
  fileId <> [] ->
  Marker.RBRACKET ∉ fileId ->
  Marker.find_marker (Routes.fileMessage fileId content)
  = Some ([], fileId, 32%N :: content).
Proof.
  intros Hid Hn. apply find_marker_here. unfold Routes.fileMessage.
  change (js "] " ++ content) with (Marker.RBRACKET :: 32%N :: content).
  apply marker_here_exact; assumption.
Qed.

(** X10.  The file message built by the chat route reads back in the
    engine: for a file id that is not empty and holds no closing
    bracket, the id extracted from [[File attached: id] content] is that
    id, the cleaned text is the content without its leading white
    space, and, when the conversation is empty or has a user message,
    the user turn of the request is the file part with that id followed
    by that text. *)
Theorem file_message_round_trip (fileId content : jstr) :
  fileId <> [] ->
  Marker.RBRACKET ∉ fileId ->
  extractedFileId (Routes.fileMessage fileId content) = Some fileId
  /\ cleanUserInput (Routes.fileMessage fileId content) = drop_spaces content
  /\ forall prompt input,
       input = [] \/ (exists i, findLastIndex (has_role "user") input = Some i) ->
       current_user_content
         (reconcile prompt (Routes.fileMessage fileId content) None input)
       = Some (file_and_text fileId (drop_spaces content)).
Proof.
  intros Hid Hn.
  destruct (cleanUserInput_spec _ _ _ _ (find_marker_fileMessage fileId content Hid Hn))
    as [He Hc].
  assert (Hclean : cleanUserInput (Routes.fileMessage fileId content) = drop_spaces content).
  { rewrite Hc. reflexivity. }
  split; [exact He|]. split; [exact Hclean|].
  intros prompt input Hin. destruct fileId as [|c id]; [contradiction|].
  rewrite <- Hclean. apply user_turn_with_file; [exact Hin|].
  unfold actualFileId, or_else. cbn [truthy]. exact He.
Qed.

End MarkerFound.

(** ** The routes: what the engine is given and what is replied *)

Section History.

Local Abbreviation convert := Routes.convertHistoryToEngineFormat.
Local Abbreviation user_turn text :=
  ({| Routes.content := text; Routes.isUser := true |}).

Lemma convert_app (l1 l2 : list Routes.stored_message) :
  convert (l1 ++ l2) = convert l1 ++ convert l2.
Proof. apply fmap_app. Qed.

Lemma convert_non_system (messages : list Routes.stored_message) :
  Forall (fun msg => ~ has_role "system" msg) (convert messages).
Proof.
  apply Forall_fmap, Forall_true. intros [text [|]] H; vm_compute in H; discriminate H.
Qed.

Lemma convert_answers_no_user (messages : list Routes.stored_message) :
  Forall (fun msg => Routes.isUser msg = false) messages ->
  Forall (fun msg => ~ has_role "user" msg) (convert messages).
Proof.
  intros H. apply Forall_fmap. eapply Forall_impl; [exact H|].
  intros [text user] Hu. cbn in Hu. subst user. cbn. apply assistant_not_user.
Qed.

Lemma findLastIndex_middle {A : Type} (P : A -> Prop) `{forall x, Decision (P x)}
    (l1 l2 : list A) (x : A) :
  P x ->
  Forall (fun y => ~ P y) l2 ->
  findLastIndex P (l1 ++ x :: l2) = Some (length l1).
Proof.
  intros Hx Hl2. induction l1 as [|y l1 IH].
  - cbn [app findLastIndex length].
    rewrite (proj2 (findLastIndex_None P l2) Hl2).
    case_decide; [reflexivity|contradiction].
  - cbn [app findLastIndex length]. rewrite IH. reflexivity.
Qed.

(** X11.  The conversation the routes convert from the store already
    holds the user message.  With no file and no marker in the text,
    the request is the system message followed by the stored
    conversation in which the content of the last user message is
    replaced by the text: the user turn is not added a second time, and
    it stays where it was when assistant messages follow it. *)
Theorem saved_user_turn_is_overwritten (prompt text old : jstr)
    (before after : list Routes.stored_message) :
  Forall (fun msg => Routes.isUser msg = false) after ->
  Marker.extractFileIdFromContent text = None ->
  reconcile prompt text None (convert (before ++ user_turn old :: after))
  = Message (js "system") (Text prompt)
      :: convert (before ++ user_turn text :: after).
Proof.
  intros Hafter Hnone.
  rewrite (reconcile_update prompt text None _ (length (convert before))).
  - rewrite filter_non_system_id by apply convert_non_system.
    rewrite !convert_app. f_equal.
    rewrite <- (Nat.add_0_r (length (convert before))), alter_app_r. f_equal.
    change (convert (user_turn ?t :: after))
      with (Message (js "user") (Text t) :: convert after).
    change (alter ?f 0 (?x :: ?l)) with (f x :: l). f_equal.
    cbn [update_message]. f_equal.
    apply (no_file_id_content text None (Text old)); [reflexivity|exact Hnone].
  - rewrite convert_app. intros H. apply app_eq_nil in H as [_ H]. discriminate H.
  - rewrite filter_non_system_id by apply convert_non_system.
    rewrite convert_app.
    change (convert (user_turn old :: after))
      with (Message (js "user") (Text old) :: convert after).
    apply findLastIndex_middle; [reflexivity|].
    apply convert_answers_no_user. exact Hafter.
Qed.

End History.

Section Reply.

Context {W : Type} (E : env W).

Local Abbreviation convert := Routes.convertHistoryToEngineFormat.
Local Abbreviation assistants := (filter (has_role "assistant")).

Lemma filter_assistant_non_system (l : list item) :
  assistants (filter (fun msg => ~ has_role "system" msg) l) = assistants l.
Proof.
  induction l as [|x l IH]; [reflexivity|].
  rewrite (filter_cons (fun msg => ~ has_role "system" msg)), (filter_cons _ x).
  destruct (decide (~ has_role "system" x)) as [Hn|Hn].
  - rewrite filter_cons, IH. reflexivity.
  - rewrite IH. case_decide as Ha; [|reflexivity].
    exfalso. apply Hn. intros Hs. unfold has_role in *. rewrite Ha in Hs.
    vm_compute in Hs. discriminate Hs.
Qed.

Lemma filter_alter_other {A : Type} (P : A -> Prop) `{forall x, Decision (P x)}
    (f : A -> A) (i : nat) (l : list A) (x : A) :
  l !! i = Some x -> ~ P x -> ~ P (f x) ->
  filter P (alter f i l) = filter P l.
Proof.
  revert i. induction l as [|y l IH]; intros [|i]; try discriminate.
  - intros [= ->] H1 H2. change (alter f 0 (x :: l)) with (f x :: l).
    rewrite !filter_cons. case_decide; [contradiction|]. case_decide; [contradiction|].
    reflexivity.
  - intros Hi H1 H2. change (alter f (S i) (y :: l)) with (y :: alter f i l).
    rewrite !filter_cons, (IH i Hi H1 H2). reflexivity.
Qed.

(** Reconciliation adds, removes and changes no assistant message. *)
Lemma reconcile_assistants (prompt userInput : jstr) (fileId : option jstr)
    (input : list item) :
  assistants (reconcile prompt userInput fileId input) = assistants input.
Proof.
  destruct (reconcile_cases prompt userInput fileId input)
    as [[-> ->]|[(j & Hj & ->)|[_ ->]]].
  - rewrite !filter_cons. case_decide as H1; [exfalso; exact (system_not_assistant _ H1)|].
    case_decide as H2; [|reflexivity].
    exfalso. exact (user_not_assistant _ (role_of_first_user_message userInput fileId) H2).
  - rewrite filter_cons. case_decide as H1; [exfalso; exact (system_not_assistant _ H1)|].
    apply findLastIndex_Some in Hj as (x & Hx & Hu).
    rewrite (filter_alter_other _ _ _ _ x Hx).
    + apply filter_assistant_non_system.
    + apply user_not_assistant. exact Hu.
    + apply user_not_assistant. rewrite role_of_update_message. exact Hu.
  - rewrite filter_cons. case_decide as H1; [exfalso; exact (system_not_assistant _ H1)|].
    rewrite list.filter_app, filter_assistant_non_system.
    rewrite filter_cons. case_decide as H2; [|rewrite filter_nil, app_nil_r; reflexivity].
    exfalso. exact (user_not_assistant _ (role_of_pushed_user_message userInput fileId) H2).
Qed.

Lemma agent_loop_assistants (rawPrompt userInput : jstr) (fileId : option jstr)
    (n : nat) (loopAgent : bool) (input output : list item) (w : W) :
  value (agent_loop E rawPrompt userInput fileId n loopAgent input w) = inr output ->
  assistants output
  = assistants input
    ++ assistants
         (Observe.pushed
            (trace (agent_loop E rawPrompt userInput fileId n loopAgent input w))).
Proof.
  revert loopAgent input w. induction n as [|n IH]; intros loopAgent input w.
  - intros [= <-]. cbn. rewrite app_nil_r. reflexivity.
  - destruct loopAgent.
    2:{ rewrite agent_loop_stop. intros [= <-]. cbn. rewrite app_nil_r. reflexivity. }
    rewrite agent_loop_S. cbn zeta.
    destruct (value (iteration E rawPrompt userInput fileId input w))
      as [e|[input' loopAgent']] eqn:Hv; [discriminate|].
    cbn [value trace].
    destruct (iteration_pushed E rawPrompt userInput fileId _ _ _ _ Hv) as (-> & _).
    intros Hout. apply IH in Hout. rewrite Hout.
    rewrite pushed_app, !list.filter_app, reconcile_assistants, <- app_assoc.
    reflexivity.
Qed.

Lemma engine_call_assistants (rawPrompt text : jstr) (fileId : option jstr)
    (messages : list Routes.stored_message) (engineResult : list item) (w : W) :
  value (Routes.engine_call E rawPrompt text fileId messages w) = inr engineResult ->
  assistants engineResult
  = assistants (convert messages)
    ++ assistants
         (Observe.pushed (trace (Routes.engine_call E rawPrompt text fileId messages w))).
Proof.
  unfold Routes.engine_call, run.
  destruct fileId as [[|c id]|]; apply agent_loop_assistants.
Qed.

(** X12.  What the routes take as the reply: when the engine returns,
    the last assistant message of its result is the last assistant
    message among the stored messages followed by the entries pushed
    during the run. *)
Theorem reply_is_last_assistant_message (rawPrompt text : jstr) (fileId : option jstr)
    (messages : list Routes.stored_message) (engineResult : list item) (w : W) :
  value (Routes.engine_call E rawPrompt text fileId messages w) = inr engineResult ->
  Routes.lastAssistantMessage engineResult
  = list.last
      (assistants
         (convert messages
          ++ Observe.pushed
               (trace (Routes.engine_call E rawPrompt text fileId messages w)))).
Proof.
  intros Hv. unfold Routes.lastAssistantMessage.
  rewrite (engine_call_assistants _ _ _ _ _ _ Hv), list.filter_app. reflexivity.
Qed.

(** X13.  When the engine returns without having pushed an assistant
    message (the loop ran out on function calls, or the answers had no
    text), the route replies with the text of the last stored assistant
    message, the answer to an earlier question; it replies with the
    apology only when the store has no assistant message or that text
    is empty. *)
Theorem reply_repeats_stored_answer (rawPrompt text : jstr) (fileId : option jstr)
    (messages : list Routes.stored_message) (engineResult : list item) (w : W) :
  value (Routes.engine_call E rawPrompt text fileId messages w) = inr engineResult ->
  Forall (fun entry => ~ has_role "assistant" entry)
    (Observe.pushed (trace (Routes.engine_call E rawPrompt text fileId messages w))) ->
  Routes.responseText engineResult
  = Some (match list.last (filter (fun msg => Routes.isUser msg = false) messages) with
          | Some {| Routes.content := c :: answer |} => c :: answer
          | _ => Routes.APOLOGY
          end).
Proof.
  intros Hv Hnone. unfold Routes.responseText, Routes.lastAssistantMessage.
  rewrite (engine_call_assistants _ _ _ _ _ _ Hv).
  assert (Hnil : assistants
                   (Observe.pushed
                      (trace (Routes.engine_call E rawPrompt text fileId messages w))) = []).
  { induction Hnone as [|x l Hx _ IH]; [reflexivity|].
    rewrite filter_cons. case_decide; [contradiction|exact IH]. }
  rewrite Hnil, app_nil_r. clear.
  induction messages as [|[answer user] rest IH] using rev_ind; [reflexivity|].
  unfold Routes.convertHistoryToEngineFormat in *.
  rewrite fmap_app, !list.filter_app. cbn [fmap list_fmap].
  rewrite !filter_cons, !filter_nil. destruct user; cbn [Routes.isUser].
  - case_decide as H1; [exfalso; vm_compute in H1; discriminate H1|].
    case_decide as H2; [discriminate H2|]. rewrite !app_nil_r. exact IH.
  - case_decide as H1; [|exfalso; apply H1; reflexivity].
    case_decide as H2; [|contradiction]. rewrite !last_snoc.
    destruct answer; reflexivity.
Qed.

End Reply.

(** ** What reconciliation and the loop keep *)

Section Kept.

Context {W : Type} (E : env W).
Variables (rawPrompt userInput : jstr) (fileId : option jstr).

Local Abbreviation rec := (reconcile rawPrompt userInput fileId).
Local Abbreviation other_role :=
  (fun entry : item => ~ has_role "system" entry /\ ~ has_role "user" entry).

Lemma filter_other_non_system (l : list item) :
  filter other_role (filter (fun msg => ~ has_role "system" msg) l) = filter other_role l.
Proof.
  induction l as [|x l IH]; [reflexivity|].
  rewrite (filter_cons (fun msg => ~ has_role "system" msg)), (filter_cons _ x).
  destruct (decide (~ has_role "system" x)) as [Hn|Hn].
  - rewrite filter_cons, IH. reflexivity.
  - rewrite IH. case_decide as Ho; [|reflexivity].
    exfalso. destruct Ho as [Ho _]. contradiction.
Qed.

(** X14.  Reconciliation keeps every entry that is neither a system nor
    a user message (the assistant messages, the function calls and
    their results), unchanged and in order. *)
Theorem reconcile_keeps_other_entries (prompt : jstr) (input : list item) :
  filter other_role (reconcile prompt userInput fileId input) = filter other_role input.
Proof.
  destruct (reconcile_cases prompt userInput fileId input)
    as [[-> ->]|[(j & Hj & ->)|[_ ->]]].
  - rewrite !filter_cons.
    case_decide as H1; [exfalso; destruct H1 as [H1 _]; apply H1; reflexivity|].
    case_decide as H2; [|reflexivity].
    exfalso. destruct H2 as [_ H2]. apply H2.
    apply role_of_first_user_message.
  - rewrite filter_cons.
    case_decide as H1; [exfalso; destruct H1 as [H1 _]; apply H1; reflexivity|].
    apply findLastIndex_Some in Hj as (x & Hx & Hu).
    rewrite (filter_alter_other _ _ _ _ x Hx).
    + apply filter_other_non_system.
    + intros [_ H]. contradiction.
    + intros [_ H]. apply H. unfold has_role. rewrite role_of_update_message. exact Hu.
  - rewrite filter_cons.
    case_decide as H1; [exfalso; destruct H1 as [H1 _]; apply H1; reflexivity|].
    rewrite list.filter_app, filter_other_non_system.
    rewrite filter_cons. case_decide as H2; [|rewrite filter_nil, app_nil_r; reflexivity].
    exfalso. destruct H2 as [_ H2]. apply H2. apply role_of_pushed_user_message.
Qed.

(** The conversation the loop returns: the one it was given, or a
    reconciled conversation followed by pushed entries. *)
Lemma agent_loop_shape (n : nat) (loopAgent : bool) (input output : list item) (w : W) :
  value (agent_loop E rawPrompt userInput fileId n loopAgent input w) = inr output ->
  output = input
  \/ exists history l, output = rec history ++ l /\ Forall other_role l.
Proof.
  revert loopAgent input w. induction n as [|n IH]; intros loopAgent input w.
  - intros [= <-]. left. reflexivity.
  - destruct loopAgent; [|rewrite agent_loop_stop; intros [= <-]; left; reflexivity].
    rewrite agent_loop_S. cbn zeta.
    destruct (value (iteration E rawPrompt userInput fileId input w))
      as [e|[input' loopAgent']] eqn:Hv; [discriminate|].
    cbn [value]. intros Hout. right.
    destruct (iteration_pushed E rawPrompt userInput fileId _ _ _ _ Hv) as (Hin & Hkind).
    destruct (IH _ _ _ Hout) as [->|Hshape]; [|exact Hshape].
    eexists _, _. split; [exact Hin|exact Hkind].
Qed.

(** X15.  Whatever conversation it was given, the conversation [run]
    returns starts with the system message that holds the prompt (the
    template as it was read, see C1), has no other system message, and
    has a user message. *)
Theorem run_result_single_system (input output : list item) (w : W) :
  value (run E rawPrompt userInput input fileId w) = inr output ->
  output !! 0 = Some (Message (js "system") (Text rawPrompt))
  /\ length (filter (has_role "system") output) = 1
  /\ exists i, findLastIndex (has_role "user") output = Some i.
Proof.
  intros Hv. unfold run, MAX_AGENT_LOOP in Hv.
  assert (Hshape : exists history l, output = rec history ++ l /\ Forall other_role l).
  { rewrite agent_loop_S in Hv. cbn zeta in Hv.
    destruct (value (iteration E rawPrompt userInput fileId input w))
      as [e|[input' loopAgent']] eqn:Hit; [discriminate|].
    cbn [value] in Hv.
    destruct (iteration_pushed E rawPrompt userInput fileId _ _ _ _ Hit) as (Hin & Hkind).
    destruct (agent_loop_shape _ _ _ _ _ Hv) as [->|Hshape]; [|exact Hshape].
    eexists _, _. split; [exact Hin|exact Hkind]. }
  destruct Hshape as (history & l & -> & Hl).
  destruct (reconcile_system_once rawPrompt userInput fileId history) as [H0 H1].
  split; [apply lookup_app_l_Some; exact H0|]. split.
  - rewrite list.filter_app, List.length_app, H1.
    assert (Hnone : filter (has_role "system") l = []).
    { clear Hv. induction Hl as [|x l [Hx _] _ IH]; [reflexivity|].
      rewrite filter_cons. case_decide; [contradiction|exact IH]. }
    rewrite Hnone. reflexivity.
  - destruct (reconcile_has_user rawPrompt userInput fileId history) as (i & Hi).
    exists i. rewrite findLastIndex_app_other; [exact Hi|].
    eapply Forall_impl; [exact Hl|]. intros x [_ Hx]. exact Hx.
Qed.

End Kept.

(** ** [findAvailableSlots]: the slots found *)

Section SlotScan.

Local Open Scope Z_scope.

Variable LocalTime : Z -> Z.
Variable duration : Z.

Local Abbreviation startMin := (Slots.eventStartMin LocalTime).
Local Abbreviation endMin := (Slots.eventEndMin LocalTime).
Local Abbreviation scan := (Slots.scan LocalTime duration).
Local Abbreviation slot_starts :=
  (fun workStart workEnd => Slots.slot_starts LocalTime workStart workEnd duration).

(** [currentTime] only moves forward, past the end of every event
    seen. *)
Lemma scan_final (events : list Slots.event) (currentTime : Z) :
  currentTime <= (scan currentTime events).2
  /\ (forall ev, ev ∈ events -> endMin ev <= (scan currentTime events).2).
Proof.
  revert currentTime. induction events as [|ev rest IH]; intros currentTime.
  - cbn. split; [lia|]. intros ev H. inversion H.
  - cbn [Slots.scan].
    destruct (scan (Z.max currentTime (endMin ev)) rest) as [later final] eqn:Hs.
    specialize (IH (Z.max currentTime (endMin ev))). rewrite Hs in IH.
    cbn [snd] in *. destruct IH as [IH1 IH2]. split; [lia|].
    intros ev' Hin. apply elem_of_cons in Hin as [->|Hin]; [lia|auto].
Qed.

(** A slot found before an event starts at or after [currentTime], ends
    by the start of that event, and starts after the end of the events
    before it, all in minutes of the day as the loop reads them. *)
Lemma scan_found (events : list Slots.event) (currentTime start : Z) :
  start ∈ (scan currentTime events).1 ->
  currentTime <= start
  /\ exists before ev after,
       events = before ++ ev :: after
       /\ start + duration <= startMin ev
       /\ (forall ev', ev' ∈ before -> endMin ev' <= start).
Proof.
  revert currentTime. induction events as [|ev rest IH]; intros currentTime.
  - cbn. intros H. inversion H.
  - cbn [Slots.scan].
    destruct (scan (Z.max currentTime (endMin ev)) rest) as [later final] eqn:Hs.
    specialize (IH (Z.max currentTime (endMin ev))). rewrite Hs in IH.
    cbn [fst] in *. intros Hin. apply elem_of_app in Hin as [Hin|Hin].
    + destruct (currentTime + duration <=? startMin ev) eqn:Hle; [|inversion Hin].
      apply list_elem_of_singleton in Hin as ->. apply Z.leb_le in Hle.
      split; [lia|]. exists [], ev, rest. split; [reflexivity|]. split; [exact Hle|].
      intros ev' H. inversion H.
    + destruct (IH Hin) as (Hcur & before & ev0 & after & -> & Hfit & Hbefore).
      split; [lia|]. exists (ev :: before), ev0, after. split; [reflexivity|].
      split; [exact Hfit|]. intros ev' H.
      apply elem_of_cons in H as [->|H]; [lia|auto].
Qed.

(** The members of [slot_starts]: the slots found before an event, and
    [currentTime] after the last event when the slot ends by
    [workEnd]. *)
Lemma slot_starts_elem (workStart workEnd : Z) (events : list Slots.event) (start : Z) :
  start ∈ slot_starts workStart workEnd events <->
  start ∈ (scan workStart events).1
  \/ (start = (scan workStart events).2 /\ start + duration <= workEnd).
Proof.
  unfold Slots.slot_starts.
  destruct (scan workStart events) as [found final]. cbn [fst snd].
  rewrite elem_of_app.
  destruct (final + duration <=? workEnd) eqn:Hle.
  - apply Z.leb_le in Hle. rewrite list_elem_of_singleton. split.
    + intros [H| ->]; [left; exact H|right; split; [reflexivity|exact Hle]].
    + intros [H|[-> _]]; [left; exact H|right; reflexivity].
  - apply Z.leb_gt in Hle. split.
    + intros [H|H]; [left; exact H|inversion H].
    + intros [H|[-> H]]; [left; exact H|lia].
Qed.

(** On its day, the minute the loop reads off a date is the number of
    whole minutes since the start of the day. *)
Lemma minute_of_day (day t : Z) :
  LocalTime t = t - 3 * Slots.msPerHour ->
  Slots.at_minute day 0 <= t < Slots.at_minute day 1440 ->
  Slots.getHours LocalTime t * 60 + Slots.getMinutes LocalTime t
  = (t - Slots.at_minute day 0) / Slots.msPerMinute
  /\ Slots.at_minute day ((t - Slots.at_minute day 0) / Slots.msPerMinute) <= t
  /\ t < Slots.at_minute day ((t - Slots.at_minute day 0) / Slots.msPerMinute + 1).
Proof.
  unfold Slots.getHours, Slots.getMinutes, Slots.at_minute, Slots.msPerHour,
    Slots.msPerMinute.
  intros -> Ht.
  assert (Hq : (t - 3 * 3600000) / 60000 = day * 1440 + (t - ((day * 1440 + 0) * 60000 + 3 * 3600000)) / 60000).
  { replace (t - 3 * 3600000) with ((t - ((day * 1440 + 0) * 60000 + 3 * 3600000)) + (day * 1440) * 60000) by lia.
    rewrite Z.div_add by lia. lia. }
  assert (Hh : (t - 3 * 3600000) / 3600000 = ((t - 3 * 3600000) / 60000) / 60).
  { rewrite Z.div_div by lia. reflexivity. }
  rewrite Hh, Hq.
  set (m := (t - ((day * 1440 + 0) * 60000 + 3 * 3600000)) / 60000).
  assert (Hm : 0 <= m < 1440).
  { subst m. split; [apply Z.div_pos; lia|apply Z.div_lt_upper_bound; lia]. }
  assert (Hb : m * 60000 <= t - ((day * 1440 + 0) * 60000 + 3 * 3600000) < (m + 1) * 60000).
  { subst m.
    pose proof (Z.div_mod (t - ((day * 1440 + 0) * 60000 + 3 * 3600000)) 60000 ltac:(lia)).
    pose proof (Z.mod_pos_bound (t - ((day * 1440 + 0) * 60000 + 3 * 3600000)) 60000 ltac:(lia)).
    lia. }
  split; [|lia].
  replace ((day * 1440 + m) / 60) with (day * 24 + m / 60).
  2:{ replace (day * 1440 + m) with (m + (day * 24) * 60) by lia.
      rewrite Z.div_add by lia. lia. }
  replace ((day * 24 + m / 60) mod 24) with (m / 60).
  2:{ replace (day * 24 + m / 60) with (m / 60 + day * 24) by lia.
      rewrite Z.mod_add by lia. symmetry. apply Z.mod_small.
      split; [apply Z.div_pos; lia|apply Z.div_lt_upper_bound; lia]. }
  replace ((day * 1440 + m) mod 60) with (m mod 60).
  2:{ replace (day * 1440 + m) with (m + (day * 24) * 60) by lia.
      rewrite Z.mod_add by lia. reflexivity. }
  pose proof (Z.div_mod m 60 ltac:(lia)). lia.
Qed.

Lemma startMin_on_day (day : Z) (ev : Slots.event) :
  Slots.on_day LocalTime day ev ->
  startMin ev = (Slots.eventStart ev - Slots.at_minute day 0) / Slots.msPerMinute
  /\ Slots.at_minute day (startMin ev) <= Slots.eventStart ev
  /\ Slots.eventStart ev < Slots.at_minute day (startMin ev + 1).
Proof.
  intros (Hz & _ & Hs & _). unfold Slots.eventStartMin.
  destruct (minute_of_day day _ Hz Hs) as (-> & H1 & H2). auto.
Qed.

Lemma endMin_on_day (day : Z) (ev : Slots.event) :
  Slots.on_day LocalTime day ev ->
  endMin ev = (Slots.eventEnd ev - Slots.at_minute day 0) / Slots.msPerMinute
  /\ Slots.at_minute day (endMin ev) <= Slots.eventEnd ev
  /\ Slots.eventEnd ev < Slots.at_minute day (endMin ev + 1).
Proof.
  intros (_ & Hz & _ & He). unfold Slots.eventEndMin.
  destruct (minute_of_day day _ Hz He) as (-> & H1 & H2). auto.
Qed.

Lemma at_minute_le (day a b : Z) :
  a <= b <-> Slots.at_minute day a <= Slots.at_minute day b.
Proof. unfold Slots.at_minute, Slots.msPerMinute, Slots.msPerHour. lia. Qed.

Lemma at_minute_lt (day a b : Z) :
  a < b <-> Slots.at_minute day a < Slots.at_minute day b.
Proof. unfold Slots.at_minute, Slots.msPerMinute, Slots.msPerHour. lia. Qed.

(** X16.  [findAvailableSlots], read on the clock of the request (three
    hours behind UTC): when the server reads the dates in that zone,
    the events start and end on the day asked, start by the end of the
    working hours, and come sorted by start, every slot offered lies
    within the working hours and overlaps no event: it ends by the
    start of the event, or the event has ended before the first minute
    of the slot is over (by the start of the slot, for an event that
    ends on a whole minute). *)
Theorem slots_are_free (day workStart workEnd : Z) (events : list Slots.event) :
  Forall (Slots.on_day LocalTime day) events ->
  Forall (fun ev => Slots.eventStart ev <= Slots.at_minute day workEnd) events ->
  StronglySorted (fun a b => Slots.eventStart a <= Slots.eventStart b) events ->
  forall start, start ∈ slot_starts workStart workEnd events ->
    workStart <= start
    /\ start + duration <= workEnd
    /\ forall ev, ev ∈ events ->
         Slots.at_minute day (start + duration) <= Slots.eventStart ev
         \/ Slots.eventEnd ev < Slots.at_minute day (start + 1).
Proof.
  intros Hday Hend Hsorted start Hin.
  rewrite list.Forall_forall in Hday. rewrite list.Forall_forall in Hend.
  assert (Hstart : forall ev, ev ∈ events -> start + duration <= startMin ev ->
                   Slots.at_minute day (start + duration) <= Slots.eventStart ev).
  { intros ev Hev Hle. destruct (startMin_on_day day ev (Hday ev Hev)) as (_ & H1 & _).
    apply (at_minute_le day) in Hle. lia. }
  assert (Hstop : forall ev, ev ∈ events -> endMin ev <= start ->
                  Slots.eventEnd ev < Slots.at_minute day (start + 1)).
  { intros ev Hev Hle. destruct (endMin_on_day day ev (Hday ev Hev)) as (_ & _ & H2).
    assert (Hle' : endMin ev + 1 <= start + 1) by lia.
    apply (at_minute_le day) in Hle'. lia. }
  apply slot_starts_elem in Hin as [Hin|[-> Hlast]].
  - destruct (scan_found _ _ _ Hin) as (Hcur & before & ev0 & after & -> & Hfit & Hbefore).
    assert (Hin0 : ev0 ∈ before ++ ev0 :: after) by (apply elem_of_app; right; left).
    split; [exact Hcur|]. split.
    + destruct (startMin_on_day day ev0 (Hday ev0 Hin0)) as (_ & H1 & _).
      specialize (Hend ev0 Hin0).
      assert (Hlt : Slots.at_minute day (startMin ev0) <= Slots.at_minute day workEnd)
        by lia.
      apply (at_minute_le day) in Hlt. lia.
    + intros ev Hev. pose proof Hev as Hev'.
      apply elem_of_app in Hev as [Hev|Hev]; [right; apply Hstop; auto|].
      left. apply elem_of_cons in Hev as [->|Hev]; [apply Hstart; assumption|].
      apply StronglySorted_app_1_r in Hsorted.
      apply StronglySorted_inv in Hsorted as [_ Hall].
      rewrite list.Forall_forall in Hall. specialize (Hall ev Hev).
      pose proof (Hstart ev0 Hin0 Hfit). lia.
  - destruct (scan_final events workStart) as [H1 H2].
    split; [exact H1|]. split; [exact Hlast|]. intros ev Hev. right.
    apply Hstop; auto.
Qed.

(** X17.  [findAvailableSlots], read on the clock of the request: when
    the server reads the dates in that zone and the events start and
    end on the day asked, and some interval of the duration asked,
    within the working hours, overlaps no event, a slot is offered, the
    first one starting no later than that interval, and the text
    returned starts with the clock face of the list, not with the cross
    mark of a day without slots.  The events may come in any order. *)
Theorem free_interval_is_offered (day workStart workEnd : Z)
    (events : list Slots.event) (t : Z) :
  Forall (Slots.on_day LocalTime day) events ->
  workStart <= t ->
  t + duration <= workEnd ->
  (forall ev, ev ∈ events ->
     Slots.at_minute day (t + duration) <= Slots.eventStart ev
     \/ Slots.eventEnd ev <= Slots.at_minute day t) ->
  forall date,
    (exists start,
        slot_starts workStart workEnd events !! 0%nat = Some start /\ start <= t)
    /\ exists rest,
         Slots.slots_result date duration
           (Slots.availableSlots LocalTime workStart workEnd duration events)
         = 0xD83D%N :: 0xDD50%N :: rest.
Proof.
  intros Hday Hstart Hend Hfree date. rewrite list.Forall_forall in Hday.
  assert (Hmin : forall ev, ev ∈ events ->
                 t + duration <= startMin ev \/ endMin ev <= t).
  { intros ev Hev. destruct (Hfree ev Hev) as [H|H].
    - left. destruct (startMin_on_day day ev (Hday ev Hev)) as (_ & _ & H2).
      assert (Hlt : Slots.at_minute day (t + duration)
                    < Slots.at_minute day (startMin ev + 1)) by lia.
      apply (at_minute_lt day) in Hlt. lia.
    - right. destruct (endMin_on_day day ev (Hday ev Hev)) as (_ & H1 & _).
      assert (Hle : Slots.at_minute day (endMin ev) <= Slots.at_minute day t) by lia.
      apply (at_minute_le day) in Hle. exact Hle. }
  clear Hfree Hday.
  assert (Hscan : forall events currentTime,
             currentTime <= t ->
             (forall ev, ev ∈ events -> t + duration <= startMin ev \/ endMin ev <= t) ->
             (exists start, (scan currentTime events).1 !! 0%nat = Some start
                            /\ start <= t)
             \/ ((scan currentTime events).1 = [] /\ (scan currentTime events).2 <= t)).
  { clear events Hmin. induction events as [|ev rest IH]; intros currentTime Hcur Hfree.
    - right. cbn. split; [reflexivity|exact Hcur].
    - cbn [Slots.scan].
      destruct (scan (Z.max currentTime (endMin ev)) rest) as [later final] eqn:Hs.
      cbn [fst snd].
      destruct (currentTime + duration <=? startMin ev) eqn:Hle.
      + left. exists currentTime. split; [reflexivity|exact Hcur].
      + apply Z.leb_gt in Hle. cbn [app].
        assert (Hev : endMin ev <= t).
        { destruct (Hfree ev) as [H|H]; [left|lia|exact H]. }
        specialize (IH (Z.max currentTime (endMin ev))).
        rewrite Hs in IH. cbn [fst snd] in IH. apply IH; [lia|].
        intros ev' H. apply Hfree. right. exact H. }
  assert (Hfirst : exists start,
             slot_starts workStart workEnd events !! 0%nat = Some start /\ start <= t).
  { unfold Slots.slot_starts.
    destruct (Hscan events workStart Hstart Hmin) as [(start & H0 & Hle)|[Hnil Hfin]].
    - destruct (scan workStart events) as [found final]. cbn [fst] in H0.
      exists start. split; [|exact Hle]. apply lookup_app_l_Some. exact H0.
    - destruct (scan workStart events) as [found final].
      cbn [fst snd] in *. subst found.
      assert (Hb : (final + duration <=? workEnd) = true) by (apply Z.leb_le; lia).
      rewrite Hb. exists final. split; [reflexivity|exact Hfin]. }
  split; [exact Hfirst|].
  destruct Hfirst as (start & H0 & _). unfold Slots.availableSlots.
  destruct (Slots.slot_starts LocalTime workStart workEnd duration events);
    [discriminate H0|].
  eexists. reflexivity.
Qed.

(** X18.  [findAvailableSlots]: for a duration of at least one minute,
    when the server reads the dates in the zone of the request and
    every event starts and ends on the day asked and does not end
    before it starts, the slots offered come in increasing order, each
    at least the duration after the one before: no two overlap and none
    is offered twice. *)
Theorem slots_do_not_overlap (day workStart workEnd : Z) (events : list Slots.event) :
  0 < duration ->
  Forall (Slots.on_day LocalTime day) events ->
  Forall (fun ev => Slots.eventStart ev <= Slots.eventEnd ev) events ->
  StronglySorted (fun a b => a + duration <= b /\ a < b)
    (slot_starts workStart workEnd events)
  /\ NoDup (slot_starts workStart workEnd events).
Proof.
  intros Hpos Hday Hord.
  assert (Hev : Forall (fun ev => startMin ev <= endMin ev) events).
  { rewrite list.Forall_forall in *. intros ev Hin.
    destruct (startMin_on_day day ev (Hday ev Hin)) as (-> & _).
    destruct (endMin_on_day day ev (Hday ev Hin)) as (-> & _).
    apply Z.div_le_mono; [reflexivity|]. specialize (Hord ev Hin). lia. }
  clear Hday Hord.
  assert (Hscan : forall events currentTime,
             Forall (fun ev => startMin ev <= endMin ev) events ->
             StronglySorted (fun a b => a + duration <= b /\ a < b)
               (scan currentTime events).1
             /\ Forall (fun a => a + duration <= (scan currentTime events).2)
                  (scan currentTime events).1).
  { clear events Hev. induction events as [|ev rest IH]; intros currentTime Hev.
    - cbn. split; constructor.
    - inversion Hev as [|? ? Hev1 Hev2]; subst. cbn [Slots.scan].
      pose proof (IH (Z.max currentTime (endMin ev)) Hev2) as [IH1 IH2].
      pose proof (scan_final rest (Z.max currentTime (endMin ev))) as [Hf _].
      assert (Hlater : forall x,
                 x ∈ (scan (Z.max currentTime (endMin ev)) rest).1 ->
                 Z.max currentTime (endMin ev) <= x).
      { intros x Hx. apply scan_found in Hx as [Hx _]. exact Hx. }
      destruct (scan (Z.max currentTime (endMin ev)) rest) as [later final].
      cbn [fst snd] in *.
      destruct (currentTime + duration <=? startMin ev) eqn:Hle;
        cbn [app]; [|split; assumption].
      apply Z.leb_le in Hle. split.
      + constructor; [exact IH1|]. apply list.Forall_forall. intros x Hx.
        specialize (Hlater x Hx). lia.
      + constructor; [lia|exact IH2]. }
  assert (Hsorted : StronglySorted (fun a b => a + duration <= b /\ a < b)
                      (slot_starts workStart workEnd events)).
  { unfold Slots.slot_starts.
    destruct (Hscan events workStart Hev) as [H1 H2].
    destruct (scan workStart events) as [found final]. cbn [fst snd] in *.
    destruct (final + duration <=? workEnd); [|rewrite app_nil_r; exact H1].
    apply StronglySorted_app_2; [|exact H1|repeat constructor].
    intros a b Ha Hb. apply list_elem_of_singleton in Hb as ->.
    rewrite list.Forall_forall in H2. specialize (H2 a Ha). lia. }
  split; [exact Hsorted|].
  induction Hsorted as [|a l _ IH Hall]; constructor; [|exact IH].
  intros Hin. rewrite list.Forall_forall in Hall. specialize (Hall a Hin). lia.
Qed.

End SlotScan.

(** ** The clock texts of [findAvailableSlots] *)

Section Clock.

Local Open Scope Z_scope.

Lemma read_digits_digits (d : Decimal.uint) :
  Slots.read_digits (Slots.digits d) = Some d.
Proof. induction d as [|d IH|d IH|d IH|d IH|d IH|d IH|d IH|d IH|d IH|d IH];
  [reflexivity|..]; cbn [Slots.digits Slots.read_digits]; rewrite IH; reflexivity.
Qed.

Lemma split_colon_digits (d : Decimal.uint) :
  Slots.split_colon (Slots.digits d) = [Slots.digits d].
Proof. induction d as [|d IH|d IH|d IH|d IH|d IH|d IH|d IH|d IH|d IH|d IH];
  [reflexivity|..]; cbn [Slots.digits Slots.split_colon N.eqb Pos.eqb];
  rewrite IH; reflexivity.
Qed.

Lemma split_colon_digits_colon (d : Decimal.uint) (rest : jstr) :
  Slots.split_colon (Slots.digits d ++ 58%N :: rest)
  = Slots.digits d :: Slots.split_colon rest.
Proof. induction d as [|d IH|d IH|d IH|d IH|d IH|d IH|d IH|d IH|d IH|d IH];
  [reflexivity|..]; cbn [Slots.digits Slots.split_colon N.eqb Pos.eqb app];
  rewrite IH; reflexivity.
Qed.

(** Padding adds leading zeros only. *)
Lemma padStart2_digits (d : Decimal.uint) :
  exists d', Slots.padStart2 (Slots.digits d) = Slots.digits d'
             /\ Z.of_uint d' = Z.of_uint d.
Proof.
  destruct d as [|d|d|d|d|d|d|d|d|d|d];
    [exists (Decimal.D0 (Decimal.D0 Decimal.Nil)); split; reflexivity|..];
    (destruct d as [|d|d|d|d|d|d|d|d|d|d];
     [match goal with
      | |- exists _, Slots.padStart2 (Slots.digits ?x) = _ /\ _ =>
          exists (Decimal.D0 x); split; reflexivity
      end|..]);
    match goal with
    | |- exists _, Slots.padStart2 (Slots.digits ?x) = _ /\ _ =>
        exists x; split; reflexivity
    end.
Qed.

(** The text of a number that is not negative, padded, reads back as
    the number. *)
Lemma padded_decimal (z : Z) :
  0 <= z ->
  exists d, Slots.padStart2 (Slots.decimal z) = Slots.digits d /\ Z.of_uint d = z.
Proof.
  intros Hz. unfold Slots.decimal.
  pose proof (DecimalZ.of_to z) as Hzz.
  destruct (Z.to_int z) as [d|d] eqn:Hd.
  - destruct (padStart2_digits d) as (d' & H1 & H2). exists d'. split; [exact H1|].
    rewrite H2. exact Hzz.
  - exfalso. destruct z as [|p|p]; cbn in Hd; try discriminate Hd. lia.
Qed.

(** X19.  The clock text of a slot reads back as its minute: for a
    number of minutes that is not negative, the text [hours:minutes]
    the slots are printed with is turned, by the conversion applied to
    the working hours, into the same number of minutes. *)
Theorem clock_reads_back (t : Z) :
  0 <= t -> Slots.to_minutes (Slots.clock t) = Some t.
Proof.
  intros Ht. unfold Slots.clock, Slots.to_minutes.
  destruct (padded_decimal (t / 60)) as (dh & -> & Hh); [apply Z.div_pos; lia|].
  destruct (padded_decimal (Z.rem t 60)) as (dm & -> & Hm);
    [apply Z.rem_nonneg; lia|].
  rewrite split_colon_digits_colon, split_colon_digits.
  unfold Slots.Number. rewrite !read_digits_digits, Hh, Hm.
  f_equal. rewrite Z.rem_mod_nonneg by lia.
  pose proof (Z.div_mod t 60). lia.
Qed.

End Clock.

(** ** The properties above on concrete conversations and days *)

Lemma service_failure_rejects_witness :
  Completion [Message (js "system") (Text prompt); Message (js "user") (Text (js "hello"))]
    (Threw network_error)
    ∈ trace (run (scripted (fun _ => Threw network_error) (Returned []))
               prompt (js "hello") [] None 0)
  /\ value (run (scripted (fun _ => Threw network_error) (Returned []))
              prompt (js "hello") [] None 0)
     = inl (Rejected network_error).
Proof.
  assert (H : Completion
                [Message (js "system") (Text prompt); Message (js "user") (Text (js "hello"))]
                (Threw network_error)
              ∈ trace (run (scripted (fun _ => Threw network_error) (Returned []))
                         prompt (js "hello") [] None 0)).
  { vm_compute. left. }
  split; [exact H|].
  exact (proj1 (service_failure_rejects
                  (scripted (fun _ => Threw network_error) (Returned []))
                  prompt (js "hello") None [] 0 _ _ H)).
Defined.

Lemma text_answer_ends_the_loop_witness :
  (responses_create
     (scripted (always [upcoming_call; answer]) (Returned (js "No upcoming events found.")))
     (reconcile
        (finalPrompt prompt
           (getSaoPauloTodayInfo
              (scripted (always [upcoming_call; answer])
                 (Returned (js "No upcoming events found."))) 0))
        (js "hello") None []) 0
   = (Returned [upcoming_call; answer], 1)
   /\ Exists Observe.stops [upcoming_call; answer])
  /\ completions
       (trace (run (scripted (always [upcoming_call; answer])
                      (Returned (js "No upcoming events found.")))
                 prompt (js "hello") [] None 0)) = 1.
Proof.
  assert (H1 : responses_create
                 (scripted (always [upcoming_call; answer])
                    (Returned (js "No upcoming events found.")))
                 (reconcile
                    (finalPrompt prompt
                       (getSaoPauloTodayInfo
                          (scripted (always [upcoming_call; answer])
                             (Returned (js "No upcoming events found."))) 0))
                    (js "hello") None []) 0
               = (Returned [upcoming_call; answer], 1)) by reflexivity.
  assert (H2 : Exists Observe.stops [upcoming_call; answer]).
  { right. left. cbn. discriminate. }
  split; [split; assumption|].
  exact (proj1 (text_answer_ends_the_loop
                  (scripted (always [upcoming_call; answer])
                     (Returned (js "No upcoming events found.")))
                  prompt (js "hello") None [] 0 1 _ H1 H2)).
Defined.

Lemma empty_answers_exhaust_the_loop_witness :
  (forall request w0, exists response w1,
      responses_create (scripted (always [OutReasoning]) (Returned [])) request w0
      = (Returned response, w1)
      /\ Forall Observe.quiet response)
  /\ value (run (scripted (always [OutReasoning]) (Returned []))
              prompt (js "hello") [] None 0)
     = inr [Message (js "system") (Text prompt); Message (js "user") (Text (js "hello"))].
Proof.
  assert (H : forall request w0, exists response w1,
             responses_create (scripted (always [OutReasoning]) (Returned [])) request w0
             = (Returned response, w1)
             /\ Forall Observe.quiet response).
  { intros request w0. exists [OutReasoning], (S w0). split; [reflexivity|].
    repeat constructor. }
  split; [exact H|].
  exact (proj2 (proj2 (proj2 (empty_answers_exhaust_the_loop
                                (scripted (always [OutReasoning]) (Returned []))
                                prompt (js "hello") None [] 0 H)))
           (or_introl eq_refl)).
Defined.

Lemma null_arguments_raise_witness :
  (js "cancel_meeting" ∈ registry /\ Json.parse (js " null ") = Some Json.Null)
  /\ handle_output (scripted (always []) (Returned []))
       (OutFunctionCall (js "call_4") (js "cancel_meeting") (js " null ")) [] true 0
     = Result [] 0 (inl TypeError).
Proof.
  assert (H1 : js "cancel_meeting" ∈ registry) by (unfold registry; repeat constructor).
  assert (H2 : Json.parse (js " null ") = Some Json.Null) by reflexivity.
  split; [split; assumption|].
  exact (proj1 (null_arguments_raise (scripted (always []) (Returned []))
                  prompt (js "hello") None
                  (js "call_4") (js "cancel_meeting") (js " null ") H1 H2)
           [] true 0).
Defined.

Lemma run_returns_reconciled_then_pushed_witness :
  exists output,
    value (run (scripted (from_list [[upcoming_call]; [answer]])
                  (Returned (js "No upcoming events found.")))
             prompt (js "What is on my calendar?") [] None 0)
    = inr output
    /\ output
       = [Message (js "system") (Text prompt);
          Message (js "user") (Text (js "What is on my calendar?"));
          FunctionCall (js "call_5") (js "get_upcoming_events") (jq "{'maxResults': 5}");
          FunctionCallOutput (js "call_5") (js "No upcoming events found.");
          Message (js "assistant") (Text (js "Done."))].
Proof.
  assert (Hv : exists output,
             value (run (scripted (from_list [[upcoming_call]; [answer]])
                           (Returned (js "No upcoming events found.")))
                      prompt (js "What is on my calendar?") [] None 0)
             = inr output)
    by (vm_compute; eexists; reflexivity).
  destruct Hv as (output & Hv). exists output. split; [exact Hv|].
  rewrite (run_returns_reconciled_then_pushed
             (scripted (from_list [[upcoming_call]; [answer]])
                (Returned (js "No upcoming events found.")))
             prompt (js "What is on my calendar?") None [] output 0
             (or_introl eq_refl) Hv).
  vm_compute. reflexivity.
Defined.

Lemma tools_run_only_on_request_witness :
  Exec (js "call_5") (js "get_upcoming_events") (jq "{'maxResults': 5}")
    ∈ trace (run (scripted (from_list [[upcoming_call]; [answer]])
                    (Returned (js "No upcoming events found.")))
               prompt (js "What is on my calendar?") [] None 0)
  /\ js "get_upcoming_events" ∈ registry.
Proof.
  assert (H : Exec (js "call_5") (js "get_upcoming_events") (jq "{'maxResults': 5}")
              ∈ trace (run (scripted (from_list [[upcoming_call]; [answer]])
                              (Returned (js "No upcoming events found.")))
                         prompt (js "What is on my calendar?") [] None 0)).
  { vm_compute. right. right. left. }
  split; [exact H|].
  exact (proj1 (tools_run_only_on_request
                  (scripted (from_list [[upcoming_call]; [answer]])
                     (Returned (js "No upcoming events found.")))
                  prompt (js "What is on my calendar?") None [] 0 _ _ _ H)).
Defined.

Lemma portfolio_conversion_failure_rejects_witness :
  (Json.parse (jq "{'portfolio': {'toString': 1}}")
   = Some (Json.Object
             [(js "portfolio", Json.Object [(js "toString", Json.Number (js "1"))])])
   /\ Json.Object [(js "portfolio", Json.Object [(js "toString", Json.Number (js "1"))])]
      <> Json.Null
   /\ Json.display (number_to_string (scripted (always [stubborn_call]) (Returned [])))
        (Json.get
           (Json.Object
              [(js "portfolio", Json.Object [(js "toString", Json.Number (js "1"))])])
           "portfolio")
      = None)
  /\ handle_output (scripted (always [stubborn_call]) (Returned [])) stubborn_call
       [] true 0
     = Result [Exec (js "call_8") (js "get_portfolio_info")
                 (jq "{'portfolio': {'toString': 1}}")]
         0 (inl TypeError).
Proof.
  assert (H1 : Json.parse (jq "{'portfolio': {'toString': 1}}")
               = Some (Json.Object
                         [(js "portfolio",
                           Json.Object [(js "toString", Json.Number (js "1"))])]))
    by reflexivity.
  assert (H2 : Json.Object
                 [(js "portfolio", Json.Object [(js "toString", Json.Number (js "1"))])]
               <> Json.Null) by discriminate.
  assert (H3 : Json.display
                 (number_to_string (scripted (always [stubborn_call]) (Returned [])))
                 (Json.get
                    (Json.Object
                       [(js "portfolio",
                         Json.Object [(js "toString", Json.Number (js "1"))])])
                    "portfolio")
               = None) by reflexivity.
  split; [split; [exact H1|split; [exact H2|exact H3]]|].
  exact (proj1 (portfolio_conversion_failure_rejects
                  (scripted (always [stubborn_call]) (Returned []))
                  prompt (js "hello") None
                  (js "call_8") (jq "{'portfolio': {'toString': 1}}") _ H1 H2 H3)
           [] true 0).
Defined.

Lemma reply_is_last_assistant_message_witness :
  exists engineResult,
    value (Routes.engine_call (scripted (always [answer]) (Returned []))
             prompt (js "hello") None
             [{| Routes.content := js "hello"; Routes.isUser := true |}] 0)
    = inr engineResult
    /\ Routes.lastAssistantMessage engineResult
       = Some (Message (js "assistant") (Text (js "Done."))).
Proof.
  assert (Hv : exists engineResult,
             value (Routes.engine_call (scripted (always [answer]) (Returned []))
                      prompt (js "hello") None
                      [{| Routes.content := js "hello"; Routes.isUser := true |}] 0)
             = inr engineResult)
    by (vm_compute; eexists; reflexivity).
  destruct Hv as (engineResult & Hv). exists engineResult. split; [exact Hv|].
  rewrite (reply_is_last_assistant_message (scripted (always [answer]) (Returned []))
             prompt (js "hello") None
             [{| Routes.content := js "hello"; Routes.isUser := true |}]
             engineResult 0 Hv).
  vm_compute. reflexivity.
Defined.

Lemma reply_repeats_stored_answer_witness :
  exists engineResult,
    (value (Routes.engine_call
              (scripted (always [upcoming_call]) (Returned (js "No upcoming events found.")))
              prompt (js "And tomorrow?") None
              [{| Routes.content := js "What is on today?"; Routes.isUser := true |};
               {| Routes.content := js "Nothing today."; Routes.isUser := false |};
               {| Routes.content := js "And tomorrow?"; Routes.isUser := true |}] 0)
     = inr engineResult
     /\ Forall (fun entry => ~ has_role "assistant" entry)
          (Observe.pushed
             (trace (Routes.engine_call
                       (scripted (always [upcoming_call])
                          (Returned (js "No upcoming events found.")))
                       prompt (js "And tomorrow?") None
                       [{| Routes.content := js "What is on today?"; Routes.isUser := true |};
                        {| Routes.content := js "Nothing today."; Routes.isUser := false |};
                        {| Routes.content := js "And tomorrow?"; Routes.isUser := true |}]
                       0))))
    /\ Routes.responseText engineResult = Some (js "Nothing today.").
Proof.
  assert (Hv : exists engineResult,
             value (Routes.engine_call
                      (scripted (always [upcoming_call])
                         (Returned (js "No upcoming events found.")))
                      prompt (js "And tomorrow?") None
                      [{| Routes.content := js "What is on today?"; Routes.isUser := true |};
                       {| Routes.content := js "Nothing today."; Routes.isUser := false |};
                       {| Routes.content := js "And tomorrow?"; Routes.isUser := true |}] 0)
             = inr engineResult)
    by (vm_compute; eexists; reflexivity).
  destruct Hv as (engineResult & Hv).
  assert (Hn : Forall (fun entry => ~ has_role "assistant" entry)
                 (Observe.pushed
                    (trace (Routes.engine_call
                              (scripted (always [upcoming_call])
                                 (Returned (js "No upcoming events found.")))
                              prompt (js "And tomorrow?") None
                              [{| Routes.content := js "What is on today?";
                                  Routes.isUser := true |};
                               {| Routes.content := js "Nothing today.";
                                  Routes.isUser := false |};
                               {| Routes.content := js "And tomorrow?";
                                  Routes.isUser := true |}]
                              0)))).
  { vm_compute. repeat constructor; discriminate. }
  exists engineResult. split; [split; assumption|].
  exact (reply_repeats_stored_answer _ _ _ _ _ _ _ Hv Hn).
Defined.

(** A day of two meetings, 09:00 to 10:00 and 11:00 to 12:00 on the
    clock of the request, read by a server in that zone. *)
Lemma slots_are_free_witness :
  (Forall (Slots.on_day (fun t => t - 3 * Slots.msPerHour)%Z 20000)
     [{| Slots.eventStart := Slots.at_minute 20000 540;
         Slots.eventEnd := Slots.at_minute 20000 600 |};
      {| Slots.eventStart := Slots.at_minute 20000 660;
         Slots.eventEnd := Slots.at_minute 20000 720 |}]
   /\ Forall (fun ev => (Slots.eventStart ev <= Slots.at_minute 20000 1080)%Z)
        [{| Slots.eventStart := Slots.at_minute 20000 540;
            Slots.eventEnd := Slots.at_minute 20000 600 |};
         {| Slots.eventStart := Slots.at_minute 20000 660;
            Slots.eventEnd := Slots.at_minute 20000 720 |}]
   /\ StronglySorted (fun a b => (Slots.eventStart a <= Slots.eventStart b)%Z)
        [{| Slots.eventStart := Slots.at_minute 20000 540;
            Slots.eventEnd := Slots.at_minute 20000 600 |};
         {| Slots.eventStart := Slots.at_minute 20000 660;
            Slots.eventEnd := Slots.at_minute 20000 720 |}]
   /\ 600%Z ∈ Slots.slot_starts (fun t => t - 3 * Slots.msPerHour)%Z 540 1080 30
                [{| Slots.eventStart := Slots.at_minute 20000 540;
                    Slots.eventEnd := Slots.at_minute 20000 600 |};
                 {| Slots.eventStart := Slots.at_minute 20000 660;
                    Slots.eventEnd := Slots.at_minute 20000 720 |}])
  /\ (540 <= 600)%Z /\ (600 + 30 <= 1080)%Z.
Proof.
  assert (H1 : Forall (Slots.on_day (fun t => t - 3 * Slots.msPerHour)%Z 20000)
                 [{| Slots.eventStart := Slots.at_minute 20000 540;
                     Slots.eventEnd := Slots.at_minute 20000 600 |};
                  {| Slots.eventStart := Slots.at_minute 20000 660;
                     Slots.eventEnd := Slots.at_minute 20000 720 |}]).
  { repeat constructor; vm_compute; try reflexivity; discriminate. }
  assert (H2 : Forall (fun ev => (Slots.eventStart ev <= Slots.at_minute 20000 1080)%Z)
                 [{| Slots.eventStart := Slots.at_minute 20000 540;
                     Slots.eventEnd := Slots.at_minute 20000 600 |};
                  {| Slots.eventStart := Slots.at_minute 20000 660;
                     Slots.eventEnd := Slots.at_minute 20000 720 |}]).
  { repeat constructor; vm_compute; discriminate. }
  assert (H3 : StronglySorted
                 (fun a b => (Slots.eventStart a <= Slots.eventStart b)%Z)
                 [{| Slots.eventStart := Slots.at_minute 20000 540;
                     Slots.eventEnd := Slots.at_minute 20000 600 |};
                  {| Slots.eventStart := Slots.at_minute 20000 660;
                     Slots.eventEnd := Slots.at_minute 20000 720 |}]).
  { repeat constructor. vm_compute. discriminate. }
  assert (H4 : 600%Z ∈ Slots.slot_starts (fun t => t - 3 * Slots.msPerHour)%Z 540 1080 30
                 [{| Slots.eventStart := Slots.at_minute 20000 540;
                     Slots.eventEnd := Slots.at_minute 20000 600 |};
                  {| Slots.eventStart := Slots.at_minute 20000 660;
                     Slots.eventEnd := Slots.at_minute 20000 720 |}]).
  { vm_compute. left. }
  split; [split; [exact H1|split; [exact H2|split; [exact H3|exact H4]]]|].
  destruct (slots_are_free (fun t => t - 3 * Slots.msPerHour)%Z 30 20000 540 1080 _
              H1 H2 H3 600%Z H4) as (Ha & Hb & _).
  split; [exact Ha|exact Hb].
Defined.

(** The same meetings, given in the other order; 10:10 to 10:40 is
    free. *)
Lemma free_interval_is_offered_witness :
  (Forall (Slots.on_day (fun t => t - 3 * Slots.msPerHour)%Z 20000)
     [{| Slots.eventStart := Slots.at_minute 20000 660;
         Slots.eventEnd := Slots.at_minute 20000 720 |};
      {| Slots.eventStart := Slots.at_minute 20000 540;
         Slots.eventEnd := Slots.at_minute 20000 600 |}]
   /\ (540 <= 610)%Z /\ (610 + 30 <= 1080)%Z
   /\ forall ev,
        ev ∈ [{| Slots.eventStart := Slots.at_minute 20000 660;
                 Slots.eventEnd := Slots.at_minute 20000 720 |};
              {| Slots.eventStart := Slots.at_minute 20000 540;
                 Slots.eventEnd := Slots.at_minute 20000 600 |}] ->
        (Slots.at_minute 20000 (610 + 30) <= Slots.eventStart ev)%Z
        \/ (Slots.eventEnd ev <= Slots.at_minute 20000 610)%Z)
  /\ exists start,
       Slots.slot_starts (fun t => t - 3 * Slots.msPerHour)%Z 540 1080 30
         [{| Slots.eventStart := Slots.at_minute 20000 660;
             Slots.eventEnd := Slots.at_minute 20000 720 |};
          {| Slots.eventStart := Slots.at_minute 20000 540;
             Slots.eventEnd := Slots.at_minute 20000 600 |}] !! 0 = Some start
       /\ (start <= 610)%Z.
Proof.
  assert (H0 : Forall (Slots.on_day (fun t => t - 3 * Slots.msPerHour)%Z 20000)
                 [{| Slots.eventStart := Slots.at_minute 20000 660;
                     Slots.eventEnd := Slots.at_minute 20000 720 |};
                  {| Slots.eventStart := Slots.at_minute 20000 540;
                     Slots.eventEnd := Slots.at_minute 20000 600 |}]).
  { repeat constructor; vm_compute; try reflexivity; discriminate. }
  assert (H1 : (540 <= 610)%Z) by lia.
  assert (H2 : (610 + 30 <= 1080)%Z) by lia.
  assert (H3 : forall ev,
             ev ∈ [{| Slots.eventStart := Slots.at_minute 20000 660;
                      Slots.eventEnd := Slots.at_minute 20000 720 |};
                   {| Slots.eventStart := Slots.at_minute 20000 540;
                      Slots.eventEnd := Slots.at_minute 20000 600 |}] ->
             (Slots.at_minute 20000 (610 + 30) <= Slots.eventStart ev)%Z
             \/ (Slots.eventEnd ev <= Slots.at_minute 20000 610)%Z).
  { intros ev H. apply elem_of_cons in H as [->|H]; [left; vm_compute; discriminate|].
    apply list_elem_of_singleton in H as ->. right. vm_compute. discriminate. }
  split; [split; [exact H0|split; [exact H1|split; [exact H2|exact H3]]]|].
  exact (proj1 (free_interval_is_offered (fun t => t - 3 * Slots.msPerHour)%Z 30
                  20000 540 1080 _ 610%Z H0 H1 H2 H3 (js "2024-10-04"))).
Defined.

(** What the loop loses with the date and the zone.  A meeting that
    began at 10:00 the day before and ends at 12:00 is read as one from
    10:00 to 12:00, and 09:00 is offered; on a server that runs on UTC,
    a meeting from 06:00 to 15:00 on the clock of the request is read
    as one from 09:00 to 18:00, and nothing is offered. *)
Example slots_without_date_and_zone :
  Slots.slot_starts (fun t => t - 3 * Slots.msPerHour)%Z 540 1080 30
    [{| Slots.eventStart := Slots.at_minute 19999 600;
        Slots.eventEnd := Slots.at_minute 20000 720 |}]
  = [540; 720]%Z
  /\ Slots.slot_starts (fun t => t) 540 1080 30
       [{| Slots.eventStart := Slots.at_minute 20000 360;
           Slots.eventEnd := Slots.at_minute 20000 900 |}]
     = [].
Proof. split; vm_compute; reflexivity. Qed.

Lemma slots_do_not_overlap_witness :
  ((0 < 30)%Z
   /\ Forall (Slots.on_day (fun t => t - 3 * Slots.msPerHour)%Z 20000)
        [{| Slots.eventStart := Slots.at_minute 20000 600;
            Slots.eventEnd := Slots.at_minute 20000 660 |};
         {| Slots.eventStart := Slots.at_minute 20000 720;
            Slots.eventEnd := Slots.at_minute 20000 780 |}]
   /\ Forall (fun ev => (Slots.eventStart ev <= Slots.eventEnd ev)%Z)
        [{| Slots.eventStart := Slots.at_minute 20000 600;
            Slots.eventEnd := Slots.at_minute 20000 660 |};
         {| Slots.eventStart := Slots.at_minute 20000 720;
            Slots.eventEnd := Slots.at_minute 20000 780 |}])
  /\ NoDup (Slots.slot_starts (fun t => t - 3 * Slots.msPerHour)%Z 540 1080 30
              [{| Slots.eventStart := Slots.at_minute 20000 600;
                  Slots.eventEnd := Slots.at_minute 20000 660 |};
               {| Slots.eventStart := Slots.at_minute 20000 720;
                  Slots.eventEnd := Slots.at_minute 20000 780 |}]).
Proof.
  assert (H0 : (0 < 30)%Z) by lia.
  assert (H1 : Forall (Slots.on_day (fun t => t - 3 * Slots.msPerHour)%Z 20000)
                 [{| Slots.eventStart := Slots.at_minute 20000 600;
                     Slots.eventEnd := Slots.at_minute 20000 660 |};
                  {| Slots.eventStart := Slots.at_minute 20000 720;
                     Slots.eventEnd := Slots.at_minute 20000 780 |}]).
  { repeat constructor; vm_compute; try reflexivity; discriminate. }
  assert (H2 : Forall (fun ev => (Slots.eventStart ev <= Slots.eventEnd ev)%Z)
                 [{| Slots.eventStart := Slots.at_minute 20000 600;
                     Slots.eventEnd := Slots.at_minute 20000 660 |};
                  {| Slots.eventStart := Slots.at_minute 20000 720;
                     Slots.eventEnd := Slots.at_minute 20000 780 |}]).
  { repeat constructor; vm_compute; discriminate. }
  split; [split; [exact H0|split; [exact H1|exact H2]]|].
  exact (proj2 (slots_do_not_overlap (fun t => t - 3 * Slots.msPerHour)%Z 30
                  20000 540 1080 _ H0 H1 H2)).
Defined.

Lemma run_result_single_system_witness :
  exists output,
    value (run (scripted (from_list [[cancel_call]; [answer]]) (Threw network_error))
             prompt (js "Cancel evt_1.")
             [Message (js "system") (Text (js "old")); greeting] None 0)
    = inr output
    /\ output !! 0 = Some (Message (js "system") (Text prompt))
    /\ length (filter (has_role "system") output) = 1.
Proof.
  assert (Hv : exists output,
             value (run (scripted (from_list [[cancel_call]; [answer]])
                           (Threw network_error))
                      prompt (js "Cancel evt_1.")
                      [Message (js "system") (Text (js "old")); greeting] None 0)
             = inr output)
    by (vm_compute; eexists; reflexivity).
  destruct Hv as (output & Hv). exists output. split; [exact Hv|].
  destruct (run_result_single_system
              (scripted (from_list [[cancel_call]; [answer]]) (Threw network_error))
              prompt (js "Cancel evt_1.") None _ output 0 Hv) as (H0 & H1 & _).
  split; [exact H0|exact H1].
Defined.

Lemma replaceVariable_plain_name_witness :
  Forall (fun c => Pattern.is_syntax_char c = false) (js "dateTime")
  /\ replaceVariable (js "Agora: $dateTime ($dateTime)") (js "dateTime") (js "Hoje")
     = Some (js "Agora: Hoje (Hoje)").
Proof.
  assert (H : Forall (fun c => Pattern.is_syntax_char c = false) (js "dateTime"))
    by (repeat constructor).
  split; [exact H|].
  rewrite (replaceVariable_plain_name (js "Agora: $dateTime ($dateTime)")
             (js "dateTime") (js "Hoje") H).
  vm_compute. reflexivity.
Defined.

Lemma file_message_round_trip_witness :
  (js "file-abc" <> [] /\ Marker.RBRACKET ∉ js "file-abc")
  /\ extractedFileId (Routes.fileMessage (js "file-abc") (js "  what is this?"))
     = Some (js "file-abc")
  /\ cleanUserInput (Routes.fileMessage (js "file-abc") (js "  what is this?"))
     = js "what is this?".
Proof.
  assert (H1 : js "file-abc" <> []) by discriminate.
  assert (H2 : Marker.RBRACKET ∉ js "file-abc").
  { intros H. repeat (apply elem_of_cons in H as [H|H]; [discriminate H|]). inversion H. }
  split; [split; assumption|].
  destruct (file_message_round_trip (js "file-abc") (js "  what is this?") H1 H2)
    as (Ha & Hb & _).
  split; [exact Ha|]. rewrite Hb. reflexivity.
Defined.

Lemma saved_user_turn_is_overwritten_witness :
  (Forall (fun msg => Routes.isUser msg = false)
     [{| Routes.content := js "It is a portfolio."; Routes.isUser := false |}]
   /\ Marker.extractFileIdFromContent (js "And now?") = None)
  /\ reconcile (js "Be brief.") (js "And now?") None
       (Routes.convertHistoryToEngineFormat
          [{| Routes.content := js "What is this?"; Routes.isUser := true |};
           {| Routes.content := js "It is a portfolio."; Routes.isUser := false |}])
     = [Message (js "system") (Text (js "Be brief."));
        Message (js "user") (Text (js "And now?"));
        Message (js "assistant") (Text (js "It is a portfolio."))].
Proof.
  assert (H1 : Forall (fun msg => Routes.isUser msg = false)
                 [{| Routes.content := js "It is a portfolio."; Routes.isUser := false |}])
    by (repeat constructor).
  assert (H2 : Marker.extractFileIdFromContent (js "And now?") = None) by reflexivity.
  split; [split; assumption|].
  exact (saved_user_turn_is_overwritten (js "Be brief.") (js "And now?")
           (js "What is this?") [] _ H1 H2).
Defined.

Lemma clock_reads_back_witness :
  (0 <= 545)%Z /\ Slots.to_minutes (Slots.clock 545) = Some 545%Z.
Proof. split; [lia|]. apply clock_reads_back. lia. Defined.
